(** * Supplier search of inventree-part-import: adapters, pagination, registry

    A shallow embedding of
      - [suppliers/supplier_fe.py]  (Future Electronics adapter),
      - [suppliers/supplier_ti.py]  (Texas Instruments adapter),
      - [suppliers/__init__.py]     (registry discovery and search dispatch),
    and the properties the specification states about them; further down, of
      - [cli.py]                    (reading part numbers, the import loop).

    Conventions of the embedding.
      - Python [int] is [Z]; JSON numbers that carry prices are exact
        rationals [Q] (they are only compared and stored, never computed
        with).  The readings of [time.monotonic()], the lifetime of a token
        and the expiry computed from them are Python [float]s: binary64
        numbers, here Rocq's primitive [float], added, subtracted and
        compared with the rounding of the machine.
      - A [dict] whose iteration order is observable (the loaded suppliers, the
        query parameters) is an association list; [price_breaks], which is
        only looked up, is a [gmap Z Q].
      - Effects are explicit: a function that talks to the network, reads the
        clock or logs runs in [M], a state-and-exception monad over the
        mutable [world] and a read-only environment [env] that fixes what the
        outside world answers.  The registry has its own state, the module
        globals, and its own monad [R]. *)

From Stdlib Require Import QArith PrimFloat.
From Stdlib Require SpecFloat FloatOps.
From stdpp Require Import gmap strings list fin_maps pretty.

Close Scope Q_scope.
Open Scope Z_scope.
Open Scope string_scope.
Open Scope list_scope.

(* ===================================================================== *)
(** * Python values used by the adapters *)
(* ===================================================================== *)

Module Py.

(** The exceptions that occur in the modelled code, by class.
    [ConnectTimeout] inherits from both [ConnectionError] and [Timeout] in
    [requests.exceptions]; [ReadTimeout] only from [Timeout]. *)
Inductive exn : Type :=
| HTTPError (status : Z)
| ReadTimeout
| ConnectTimeout
| ConnectionError
| JSONDecodeError
| KeyError (key : string)
| IndexError
| TypeError (what : string)
| UnboundLocalError (var : string)
| AssertionError (msg : string)
| ImportError (msg : string)
| SyntaxError (msg : string)
| AttributeError (msg : string)
| ValueError (msg : string).

Definition is_HTTPError (e : exn) : bool :=
  match e with HTTPError _ => true | _ => false end.

Definition is_Timeout (e : exn) : bool :=
  match e with ReadTimeout | ConnectTimeout => true | _ => false end.

Definition is_ConnectionError (e : exn) : bool :=
  match e with ConnectionError | ConnectTimeout => true | _ => false end.

Definition is_JSONDecodeError (e : exn) : bool :=
  match e with JSONDecodeError => true | _ => false end.

Definition is_KeyError (e : exn) : bool :=
  match e with KeyError _ => true | _ => false end.

Definition is_ImportError (e : exn) : bool :=
  match e with ImportError _ => true | _ => false end.

(** [str(e)], as interpolated by the f-strings of the error messages.  For
    the exceptions that carry a message it is that message; for the others
    it is a short text that stands for the one their class writes
    ([requests] writes "<status> Client Error: <reason> for url: <url>" for
    an [HTTPError]). *)
Definition str_exn (e : exn) : string :=
  match e with
  | HTTPError status => "HTTP error " ++ pretty status
  | ReadTimeout => "read timed out"
  | ConnectTimeout => "connect timed out"
  | ConnectionError => "connection failed"
  | JSONDecodeError => "invalid JSON"
  | KeyError k => "'" ++ k ++ "'"
  | IndexError => "list index out of range"
  | TypeError w => w
  | UnboundLocalError v =>
      "cannot access local variable '" ++ v ++ "' where it is not associated with a value"
  | AssertionError m => m
  | ImportError m => m
  | SyntaxError m => m
  | AttributeError m => m
  | ValueError m => m
  end.

(** Outcome of running a piece of Python: a value, an exception, or (for the
    one unbounded loop of the code) the model's iteration bound. *)
Inductive res (A : Type) : Type :=
| Ok (a : A)
| Raise (e : exn)
| OutOfFuel.
Arguments Ok {A} a.
Arguments Raise {A} e.
Arguments OutOfFuel {A}.

(** [x > y] and [x < y] on exact numbers. *)
Definition Qltb (x y : Q) : bool := negb (Qle_bool y x).
Definition Qgtb (x y : Q) : bool := Qltb y x.

End Py.
Export Py.

(* ===================================================================== *)
(** * The canonical part record ([base.ApiPart]) *)
(* ===================================================================== *)

Module Base.

(** Modelled from the spec: [base.ApiPart], the Canonical Part Record of the
    data model, which the adapters build by keyword; one field per keyword
    argument they pass.  [image_url] and [datasheet_url] are optional (the TI
    adapter passes [None]), [parameters] is [None] in both adapters. *)
Record ApiPart : Type := {
  description : string;
  image_url : option string;
  datasheet_url : option string;
  supplier_link : string;
  SKU : string;
  manufacturer : string;
  manufacturer_link : string;
  MPN : string;
  quantity_available : Z;
  packaging : string;
  category_path : list string;
  parameters : option (list (string * string));
  price_breaks : gmap Z Q;
  currency : string
}.

(** A dict comprehension [{k(v): x(v) for v in l}]: later entries overwrite
    earlier ones with the same key. *)
Definition dict_of {K V} `{Countable K} (l : list (K * V)) : gmap K V :=
  foldl (fun m kv => <[kv.1 := kv.2]> m) ∅ l.

End Base.

(* ===================================================================== *)
(** * Upstream documents *)
(* ===================================================================== *)

(** An item of the [offers] array of the Future Electronics lookup, with
    the keys [FE.get_api_part] reads. *)
Module FEJson.

Record attribute : Type := { name : string; value : string }.

Record price : Type := { quantity_from : Z; unit_price : Q }.

Record document : Type := { type : string; url : string }.

Record quantities : Type := { quantity_minimum : Z; quantity_available : Z }.

Record part_id : Type := {
  web_url : string;
  seller_part_number : string;
  mpn : string
}.

Record part : Type := {
  part_attributes : list attribute;
  part_quantities : quantities;          (* ["quantities"] *)
  pricing : list price;
  images : list string;                  (* the ["url"] of each image *)
  documents : list document;
  part_part_id : part_id;                (* ["part_id"] *)
  currency_code : string                 (* ["currency"]["currency_code"] *)
}.

End FEJson.

(** A product of the Texas Instruments store API, with the keys
    [TI.get_api_part] reads. *)
Module TIJson.

Record price_break : Type := { priceBreakQuantity : Z; price : Q }.

Record price_list : Type := { currency : string; priceBreaks : list price_break }.

Record part : Type := {
  description : string;
  buyNowUrl : string;
  tiPartNumber : string;
  quantity : Z;
  packageCarrier : string;
  pricing : list price_list
}.

End TIJson.

Module Http.

(** An entry of an ["errors"] array; either key may be missing. *)
Record api_error : Type := {
  errorCode : option string;
  message : option string
}.

(** A JSON document, by the shape the code reads it with: which of the keys
    ["errors"], ["offers"], ["content"]/["last"], the token keys or the
    product keys it has. *)
Inductive json : Type :=
| JErrors (errors : list api_error)
| JOffers (offers : list FEJson.part)
| JProduct (product : TIJson.part)
| JPage (content : list TIJson.part) (last : bool)
| JToken (token_type access_token : string) (expires_in : float)
    (* [expires_in]: the number as line 118 adds it to a [float]; an integer
       lifetime below 2^53 is that [float] exactly *)
| JObject.

(** [requests.Response]: the status and the body, [None] when the body is not
    JSON (then [.json()] raises [JSONDecodeError]). *)
Record response : Type := {
  status_code : Z;
  body : option json
}.

(** A dict whose order is kept: a list of items with distinct keys. *)
Definition dict : Type := list (string * string).

Fixpoint dict_set (k v : string) (d : dict) : dict :=
  match d with
  | [] => [(k, v)]
  | (k', v') :: d' =>
      if String.eqb k' k then (k, v) :: d' else (k', v') :: dict_set k v d'
  end.

Fixpoint dict_get (k : string) (d : dict) : option string :=
  match d with
  | [] => None
  | (k', v') :: d' => if String.eqb k' k then Some v' else dict_get k d'
  end.

(** A call of [requests.get] or [requests.post].  The query string
    [urlencode(urldata)] is kept as the dict it encodes. *)
Record request : Type := {
  method : string;
  url : string;
  params : dict;
  headers : dict;
  data : option dict
}.

(** What one call of [requests.get]/[requests.post] meets: a response, or an
    exception of [requests.exceptions] raised by the transport. *)
Inductive reply : Type :=
| Responds (r : response)
| Fails (e : exn).

Inductive level : Type := LError | LHint.

(** One call of [error_helper.error] or [error_helper.hint]. *)
Record diag : Type := {
  diag_level : level;
  diag_prefix : option string;
  diag_text : string
}.

(** The outside world, fixed for a run: what the [n]-th request sent meets,
    what the [n]-th reading of [time.monotonic()] shows, and how many times
    the retry policy tries again after the first attempt. *)
Record env : Type := {
  wire : nat -> request -> reply;
  monotonic : nat -> float;
  max_retries : nat
}.

(** The mutable state: the diagnostics logged, the requests sent, the number
    of clock readings, and the two attributes of the [TIApi] instance that
    [_getOauthToken] assigns. *)
Record world : Type := {
  log : list diag;
  sent : list request;
  ticks : nat;
  oauthAccessToken : string;
  oauthValidUntil : float
}.

(** State as [TIApi]'s class attributes give it to a new instance. *)
Definition fresh : world :=
  {| log := []; sent := []; ticks := 0;
     oauthAccessToken := ""; oauthValidUntil := 0%float |}.

Definition M (A : Type) : Type := env -> world -> res A * world.

Definition ret {A} (a : A) : M A := fun _ w => (Ok a, w).

Definition raise {A} (e : exn) : M A := fun _ w => (Raise e, w).

Definition bind {A B} (m : M A) (k : A -> M B) : M B :=
  fun ρ w =>
    match m ρ w with
    | (Ok a, w') => k a ρ w'
    | (Raise e, w') => (Raise e, w')
    | (OutOfFuel, w') => (OutOfFuel, w')
    end.

(** [try: m except <classes>: h e] *)
Definition try_except {A} (m : M A) (classes : exn -> bool) (h : exn -> M A) : M A :=
  fun ρ w =>
    match m ρ w with
    | (Raise e, w') => if classes e then h e ρ w' else (Raise e, w')
    | other => other
    end.

Declare Scope py_scope.
Delimit Scope py_scope with py.
Notation "'let*' x := m 'in' k" := (bind m (fun x => k))
  (at level 10, x name, m at level 100, k at level 200) : py_scope.
Notation "'run' m 'in' k" := (bind m (fun _ => k))
  (at level 10, m at level 100, k at level 200) : py_scope.
Open Scope py_scope.

(** Modelled from the spec: [error_helper.error], which reports a diagnostic
    message and returns; the message is appended to the log with its level
    and its [prefix=] argument. *)
Definition report (l : level) (prefix : option string) (text : string) : M unit :=
  fun _ w =>
    (Ok tt, {| log := log w ++ [{| diag_level := l; diag_prefix := prefix; diag_text := text |}];
               sent := sent w; ticks := ticks w;
               oauthAccessToken := oauthAccessToken w;
               oauthValidUntil := oauthValidUntil w |}).

Definition error (text : string) (prefix : option string) : M unit :=
  report LError prefix text.

(** [requests.get(url, headers=...)] / [requests.post(url, data=..., headers=...)]:
    the request is recorded, and the world's answer to it is returned or raised. *)
Definition send_request (rq : request) : M response :=
  fun ρ w =>
    let w' := {| log := log w; sent := sent w ++ [rq]; ticks := ticks w;
                 oauthAccessToken := oauthAccessToken w;
                 oauthValidUntil := oauthValidUntil w |} in
    match wire ρ (length (sent w)) rq with
    | Responds r => (Ok r, w')
    | Fails e => (Raise e, w')
    end.

(** [time.monotonic()] *)
Definition time_monotonic : M float :=
  fun ρ w =>
    (Ok (monotonic ρ (ticks w)),
     {| log := log w; sent := sent w; ticks := S (ticks w);
        oauthAccessToken := oauthAccessToken w;
        oauthValidUntil := oauthValidUntil w |}).

(** [Response.raise_for_status()]: [HTTPError] for a 4xx or 5xx status. *)
Definition raise_for_status (r : response) : M unit :=
  if bool_decide (400 ≤ status_code r < 600)%Z then raise (HTTPError (status_code r))
  else ret tt.

(** [Response.json()] *)
Definition json_of (r : response) : M json :=
  match body r with
  | Some j => ret j
  | None => raise JSONDecodeError
  end.

(** Reading a local variable that may not have been assigned yet. *)
Definition local {A} (var : string) (v : option A) : M A :=
  match v with
  | Some a => ret a
  | None => raise (UnboundLocalError var)
  end.

(** [j["errors"]] *)
Definition get_errors (j : json) : M (list api_error) :=
  match j with
  | JErrors es => ret es
  | _ => raise (KeyError "errors")
  end.

(** [l[0]] *)
Definition first {A} (l : list A) : M A :=
  match l with
  | x :: _ => ret x
  | [] => raise IndexError
  end.

(** [e["message"]] *)
Definition get_message (e : api_error) : M string :=
  match message e with
  | Some m => ret m
  | None => raise (KeyError "message")
  end.

(** The [except (HTTPError, Timeout) as e:] block that both [_do_request]
    methods share word for word (the prefix reads "TI API error: " in both
    files). *)
Definition on_request_error (action : string) (e : exn) (result : option response)
  : M (option response) :=
  try_except
    (let* r := local "result" result in
     let* j := json_of r in
     let* es := get_errors j in
     let* errors := first es in
     let* msg := get_message errors in
     run error ("'" ++ action ++ "' action failed with '" ++ msg ++ "'")
               (Some "TI API error: ") in
     ret None)
    (fun x => is_JSONDecodeError x || is_KeyError x)
    (fun _ =>
       run error ("'" ++ action ++ "' action failed with '" ++ str_exn e ++ "'")
                 (Some "TI API error: ") in
       ret None).

End Http.
Export Http.

(* ===================================================================== *)
(** * Retry policy ([retries.py]) *)
(* ===================================================================== *)

Module Retries.

(** Modelled from the spec: which failures [retries.retry_timeouts] retries.
    "Retries only on transient failures: request-level timeout, or
    connection-level failure." *)
Definition transient (e : exn) : bool := is_Timeout e || is_ConnectionError e.

Section Loop.

(** [L]: the local variables of the enclosing function that the block
    assigns; [R]: what the enclosing function returns. *)
Context {L R : Type}.

(** One pass through the body of [with retry:].  It ends by falling through
    ([Ok None]), by a [return] inside it ([Ok (Some r)]) or by an exception;
    in every case the locals are left as the pass assigned them. *)
Definition block : Type := L -> env -> world -> res (option R) * L * world.

(** Modelled from the spec: [retries.retry_timeouts], as used in the loop
    [for retry in retry_timeouts(): with retry: body].  Per section 4.1 it is
    a bounded iterator of attempts: a transient failure ends the pass and the
    next attempt starts; "after exhaustion the underlying failure propagates
    to the caller"; other failures are not retried; an attempt that completes
    ends the iteration.  The backoff delays have no effect on the state
    modelled here.  The callers run it for [S (max_retries ρ)] attempts: the
    first one and the retries the policy allows. *)
Fixpoint retry_timeouts (attempts : nat) (body : block) (l : L) (ρ : env) (w : world)
  : res (option R) * L * world :=
  match attempts with
  | O => (Ok None, l, w)
  | S n =>
      match body l ρ w with
      | (Raise e, l', w') =>
          if transient e then
            match n with
            | O => (Raise e, l', w')
            | S _ => retry_timeouts n body l' ρ w'
            end
          else (Raise e, l', w')
      | done => done
      end
  end.

End Loop.

End Retries.

(* ===================================================================== *)
(** * Future Electronics adapter ([supplier_fe.py]) *)
(* ===================================================================== *)

Module FE.

Import FEJson.

Definition name : string := "Future Electronics".

Inductive searchKind : Type := EXACT | CONTAINS | STARTS_WITH.

(** The value of the [StrEnum] member, which is what [urlencode] writes. *)
Definition searchKind_value (k : searchKind) : string :=
  match k with
  | EXACT => "exact"
  | CONTAINS => "contains"
  | STARTS_WITH => "starts_with"
  end.

Record FEApi : Type := { key : string }.

Definition BASE_URL : string := "https://api.futureelectronics.com/api/".

(** The body of [with retry:] in [FEApi._do_request]; the local it assigns is
    [result]. *)
Definition attempt (rq : request) : @Retries.block (option response) (option response) :=
  fun result ρ w =>
    match send_request rq ρ w with
    | (Ok r, w1) =>
        match raise_for_status r ρ w1 with
        | (Ok _, w2) => (Ok None, Some r, w2)
        | (Raise e, w2) => (Raise e, Some r, w2)
        | (OutOfFuel, w2) => (OutOfFuel, Some r, w2)
        end
    | (Raise e, w1) => (Raise e, result, w1)
    | (OutOfFuel, w1) => (OutOfFuel, result, w1)
    end.

Definition _do_request (self : FEApi) (action : string) (urldata : option dict)
  : M (option response) :=
  fun ρ w =>
    let rq := {| method := "GET";
                 Http.url := BASE_URL ++ action;
                 params := default [] urldata;
                 headers := [("Accept", "application/json");
                             ("x-orbweaver-licensekey", key self)];
                 data := None |} in
    match Retries.retry_timeouts (S (max_retries ρ)) (attempt rq) None ρ w with
    | (Ok None, result, w') =>
        (* the statement after the [try]: [return result] *)
        (let* r := local "result" result in ret (Some r)) ρ w'
    | (Ok (Some r), _, w') => (Ok r, w')
    | (Raise e, result, w') =>
        if is_HTTPError e || is_Timeout e
        then on_request_error action e result ρ w'
        else (Raise e, w')
    | (OutOfFuel, _, w') => (OutOfFuel, w')
    end.

Definition lookup (self : FEApi) (search_term : string) (kind : searchKind)
  : M (option json) :=
  let* result := _do_request self "v1/pim-future/lookup"
                   (Some [("part_number", search_term);
                          ("lookup_type", searchKind_value kind)]) in
  match result with
  | None => ret None
  | Some r => let* j := json_of r in ret (Some j)
  end.

(** [str.lower()] on the ASCII letters. *)
Definition lower_ascii (c : Ascii.ascii) : Ascii.ascii :=
  let n := Ascii.N_of_ascii c in
  if ((65 <=? n) && (n <=? 90))%N then Ascii.ascii_of_N (n + 32) else c.

Fixpoint lower (s : string) : string :=
  match s with
  | EmptyString => EmptyString
  | String c s' => String (lower_ascii c) (lower s')
  end.

(** One turn of the loop [for v in fe_part["pricing"]] over the two variables
    it updates, [pricing] and [best_price_for_minimum]. *)
Definition pricing_step (minimum_qty : Z) (acc : gmap Z Q * option Q) (v : price)
  : gmap Z Q * option Q :=
  let '(pricing, best_price_for_minimum) := acc in
  let qty := quantity_from v in
  let price := unit_price v in
  if bool_decide (qty ≤ minimum_qty)%Z then
    if match best_price_for_minimum with
       | None => true
       | Some best => Qgtb best price
       end
    then (pricing, Some price)
    else (pricing, best_price_for_minimum)
  else (<[qty := price]> pricing, best_price_for_minimum).

(** Lines 38 to 50: the loop, then the entry at the minimum order quantity. *)
Definition collapsed_pricing (minimum_qty : Z) (l : list price) : gmap Z Q :=
  let '(pricing, best_price_for_minimum) :=
    foldl (pricing_step minimum_qty) (∅, None) l in
  match best_price_for_minimum with
  | Some best => <[minimum_qty := best]> pricing
  | None => pricing
  end.

Definition get_api_part (fe_part : part) : Base.ApiPart :=
  let attributes : gmap string string :=
    Base.dict_of (map (fun v => (FEJson.name v, value v)) (part_attributes fe_part)) in
  let minimum_qty := quantity_minimum (part_quantities fe_part) in
  let pricing := collapsed_pricing minimum_qty (FEJson.pricing fe_part) in
  {| Base.description := default "" (attributes !! "description (en)");
     Base.image_url := Some (default "" (last (images fe_part)));
     Base.datasheet_url :=
       Some (default ""
               (head (map url
                        (filter (fun v => lower (type v) = "datasheet")
                                (documents fe_part)))));
     Base.supplier_link := web_url (part_part_id fe_part);
     Base.SKU := seller_part_number (part_part_id fe_part);
     Base.manufacturer := default "" (attributes !! "manufacturerName");
     Base.manufacturer_link := "";
     Base.MPN := mpn (part_part_id fe_part);
     Base.quantity_available := quantity_available (part_quantities fe_part);
     Base.packaging := default "" (attributes !! "packageType");
     Base.category_path := [];
     Base.parameters := None;
     Base.price_breaks := pricing;
     Base.currency := currency_code fe_part |}.

(** [result["offers"]] *)
Definition get_offers (j : json) : M (list part) :=
  match j with
  | JOffers l => ret l
  | _ => raise (KeyError "offers")
  end.

Definition search (self : FEApi) (search_term : string)
  : M (list Base.ApiPart * Z) :=
  let* result := lookup self search_term CONTAINS in
  match result with
  | None => ret ([], 0)
  | Some j =>
      let* fe_parts := get_offers j in
      ret (map get_api_part fe_parts, Z.of_nat (length fe_parts))
  end.

End FE.

(* ===================================================================== *)
(** * Texas Instruments adapter ([supplier_ti.py]) *)
(* ===================================================================== *)

Module TI.

Import TIJson.

Definition name : string := "Texas Instruments".

(** The attributes [__init__] sets; the two that [_getOauthToken] assigns
    later live in the [world]. *)
Record TIApi : Type := {
  key : string;
  secret : string;
  currency : string
}.

Definition BASE_URL : string := "https://transact.ti.com/".

(** [requests.compat.quote(s, safe="")]: every byte but the unreserved ones
    becomes [%XX].  The part number is read as the bytes of its UTF-8
    encoding, which are its characters when it is ASCII. *)
Definition unreserved (c : Ascii.ascii) : bool :=
  let n := Ascii.N_of_ascii c in
  (((48 <=? n) && (n <=? 57)) || ((65 <=? n) && (n <=? 90)) ||
   ((97 <=? n) && (n <=? 122)) ||
   (n =? 95) || (n =? 46) || (n =? 45) || (n =? 126))%N.

Definition hex_digit (n : N) : Ascii.ascii :=
  if (n <? 10)%N then Ascii.ascii_of_N (48 + n) else Ascii.ascii_of_N (55 + n).

Fixpoint quote (s : string) : string :=
  match s with
  | EmptyString => EmptyString
  | String c s' =>
      if unreserved c then String c (quote s')
      else
        let n := Ascii.N_of_ascii c in
        String (Ascii.ascii_of_N 37)
          (String (hex_digit (n / 16)%N) (String (hex_digit (n mod 16)%N) (quote s')))
  end.

Definition read {A} (f : world -> A) : M A := fun _ w => (Ok (f w), w).

(** [self.oauthAccessToken = t] *)
Definition set_oauthAccessToken (t : string) : M unit :=
  fun _ w =>
    (Ok tt, {| log := log w; sent := sent w; ticks := ticks w;
               oauthAccessToken := t;
               oauthValidUntil := oauthValidUntil w |}).

(** [self.oauthValidUntil = t] *)
Definition set_oauthValidUntil (t : float) : M unit :=
  fun _ w =>
    (Ok tt, {| log := log w; sent := sent w; ticks := ticks w;
               oauthAccessToken := oauthAccessToken w;
               oauthValidUntil := t |}).

(** The closure [send] of [_do_request].  [getOauthToken] is [Some] of the
    token getter when [auth] is true. *)
Definition send (getOauthToken : option (M (option string)))
    (url : string) (urldata : option dict) (headers : dict) (bodydata : option dict)
  : M (option response) :=
  let dispatch (headers : dict) : M (option response) :=
    match bodydata with
    | Some _ =>
        let* r := send_request {| method := "POST"; Http.url := url;
                                  params := default [] urldata;
                                  Http.headers := headers; data := bodydata |} in
        ret (Some r)
    | None =>
        let* r := send_request {| method := "GET"; Http.url := url;
                                  params := default [] urldata;
                                  Http.headers := headers; data := None |} in
        ret (Some r)
    end in
  match getOauthToken with
  | Some get =>
      let* token := get in
      match token with
      | None => ret None
      | Some t => dispatch (dict_set "Authorization" ("Bearer " ++ t) headers)
      end
  | None => dispatch headers
  end.

(** The body of [with retry:] in [TIApi._do_request]; the local it assigns is
    [result]. *)
Definition attempt (send : M (option response))
  : @Retries.block (option response) (option response) :=
  fun result ρ w =>
    match send ρ w with
    | (Ok None, w1) => (Ok (Some None), result, w1)
    | (Ok (Some r), w1) =>
        if negb (status_code r =? 200)%Z && negb (status_code r =? 404)%Z
           && negb (status_code r =? 403)%Z
        then
          match raise_for_status r ρ w1 with
          | (Ok _, w2) => (Ok None, Some r, w2)
          | (Raise e, w2) => (Raise e, Some r, w2)
          | (OutOfFuel, w2) => (OutOfFuel, Some r, w2)
          end
        else (Ok None, Some r, w1)
    | (Raise e, w1) => (Raise e, result, w1)
    | (OutOfFuel, w1) => (OutOfFuel, result, w1)
    end.

(** [TIApi._do_request], with the token getter that [send] calls when
    [auth] is true passed in: [_do_request] and [_getOauthToken] call each
    other, the latter always with [auth] false. *)
Definition _do_request_with (getOauthToken : option (M (option string)))
    (action : string) (urldata : option dict) (bodydata : option dict)
  : M (option response) :=
  fun ρ w =>
    let url := (BASE_URL ++ action)%string in
    let headers :=
      match bodydata with
      | Some _ => dict_set "Content-Type" "application/x-www-form-urlencoded"
                           [("Accept", "application/json")]
      | None => [("Accept", "application/json")]
      end in
    match Retries.retry_timeouts (S (max_retries ρ))
            (attempt (send getOauthToken url urldata headers bodydata)) None ρ w with
    | (Ok None, result, w') =>
        (let* r := local "result" result in ret (Some r)) ρ w'
    | (Ok (Some r), _, w') => (Ok r, w')
    | (Raise e, result, w') =>
        if is_HTTPError e || is_Timeout e
        then on_request_error action e result ρ w'
        else (Raise e, w')
    | (OutOfFuel, _, w') => (OutOfFuel, w')
    end.

(** [j["token_type"]], [j["access_token"]], [j["expires_in"]] *)
Definition get_token_type (j : json) : M string :=
  match j with JToken t _ _ => ret t | _ => raise (KeyError "token_type") end.

Definition get_access_token (j : json) : M string :=
  match j with JToken _ a _ => ret a | _ => raise (KeyError "access_token") end.

Definition get_expires_in (j : json) : M float :=
  match j with JToken _ _ e => ret e | _ => raise (KeyError "expires_in") end.

Definition _getOauthToken (self : TIApi) : M (option string) :=
  let* now := time_monotonic in
  let nextRequestBuffer := 60%float in
  let* validUntil := read oauthValidUntil in
  if (now <? validUntil - nextRequestBuffer)%float then
    let* token := read oauthAccessToken in
    ret (Some token)
  else
    let* result := _do_request_with None "v1/oauth/accesstoken" None
                     (Some [("grant_type", "client_credentials");
                            ("client_id", key self);
                            ("client_secret", secret self)]) in
    match result with
    | None => ret None
    | Some result =>
        run raise_for_status result in
        let* j := json_of result in
        let* token_type := get_token_type j in
        if negb (String.eqb token_type "bearer") then
          run error ("unknown token type '" ++ token_type ++ "'; expected 'bearer'")
                    (Some "TI API error: ") in
          ret None
        else
          let* access_token := get_access_token j in
          run set_oauthAccessToken access_token in
          let* expires_in := get_expires_in j in
          run set_oauthValidUntil (now + expires_in)%float in
          let* token := read oauthAccessToken in
          ret (Some token)
    end.

Definition _do_request (self : TIApi) (action : string) (urldata : option dict)
    (auth : bool) (bodydata : option dict) : M (option response) :=
  _do_request_with (if auth then Some (_getOauthToken self) else None)
                   action urldata bodydata.

Definition _api_call (self : TIApi) (action : string) (urldata : option dict)
  : M (option response) :=
  _do_request self action urldata true None.

Definition product (self : TIApi) (orderablePartNumber : string) : M (option json) :=
  let* result := _api_call self ("v2/store/products/" ++ quote orderablePartNumber)
                   (Some [("exclude-evms", "true"); ("currency", currency self)]) in
  match result with
  | None => ret None
  | Some result =>
      if (status_code result =? 403)%Z || (status_code result =? 404)%Z then ret None
      else let* j := json_of result in ret (Some j)
  end.

(** [j["content"]], [j["last"]] *)
Definition get_content (j : json) : M (list part) :=
  match j with JPage c _ => ret c | _ => raise (KeyError "content") end.

Definition get_last (j : json) : M bool :=
  match j with JPage _ l => ret l | _ => raise (KeyError "last") end.

(** The query of one page: [urldata["size"] = 100; urldata["page"] = page],
    the integers written as [urlencode] writes them. *)
Definition page_query (urldata : dict) (page : Z) : dict :=
  dict_set "page" (pretty page) (dict_set "size" (pretty 100) urldata).

(** The [while True] loop of [_paginate_api_call], one turn per unit of
    [fuel], over the variables [urldata], [results] and [page]. *)
Fixpoint paginate_loop (self : TIApi) (action : string) (fuel : nat)
    (urldata : option dict) (results : list part) (page : Z)
  : M (option (list part)) :=
  match fuel with
  | O => fun _ w => (OutOfFuel, w)
  | S fuel' =>
      let urldata := page_query (default [] urldata) page in
      let* result := _api_call self action (Some urldata) in
      match result with
      | None => ret None
      | Some result =>
          if (status_code result =? 403)%Z || (status_code result =? 404)%Z then ret None
          else
            let* j := json_of result in
            let* content := get_content j in
            let results := results ++ content in
            let* last := get_last j in
            if last then ret (Some results)
            else paginate_loop self action fuel' (Some urldata) results (page + 1)
      end
  end.

Definition _paginate_api_call (self : TIApi) (fuel : nat) (action : string)
    (urldata : option dict) : M (option (list part)) :=
  paginate_loop self action fuel urldata [] 0.

Definition products (self : TIApi) (fuel : nat) (genericPartNumber : string)
  : M (option (list part)) :=
  _paginate_api_call self fuel "v2/store/products"
    (Some [("gpn", genericPartNumber); ("exclude-evms", "true");
           ("currency", currency self)]).

(** [error["errorCode"]] *)
Definition get_errorCode (e : api_error) : M string :=
  match errorCode e with
  | Some c => ret c
  | None => raise (KeyError "errorCode")
  end.

(** The [for error in errors] loop of [_searchForExactPart]: whether it
    returns [[]] from inside. *)
Fixpoint opn_unknown (errors : list api_error) : M bool :=
  match errors with
  | [] => ret false
  | error :: errors' =>
      let* code := get_errorCode error in
      if String.eqb code "ERR-TICOM-INV-API-1002" then ret true
      else opn_unknown errors'
  end.

Definition _searchForExactPart (self : TIApi) (search_term : string)
  : M (option (list json)) :=
  let* ti_part := product self search_term in
  match ti_part with
  | None => ret None
  | Some ti_part =>
      match ti_part with
      | JErrors (e :: es) =>
          let* unknown := opn_unknown (e :: es) in
          if unknown then ret (Some []) else ret (Some [ti_part])
      | _ => ret (Some [ti_part])
      end
  end.

(** The [for v in ti_part["pricing"]] loop of [get_api_part]: [pricingData]
    after it, from its value before it. *)
Fixpoint select_pricing (currency : string) (l : list price_list)
    (pricingData : price_list) : price_list :=
  match l with
  | [] => pricingData
  | v :: l' =>
      if String.eqb (TIJson.currency v) currency then v
      else if String.eqb (TIJson.currency v) "USD" then select_pricing currency l' v
      else select_pricing currency l' pricingData
  end.

Definition pricingData (self : TIApi) (ti_part : part) : price_list :=
  select_pricing (currency self) (pricing ti_part)
    {| TIJson.currency := currency self; priceBreaks := [] |}.

Definition get_api_part (self : TIApi) (ti_part : part) : Base.ApiPart :=
  let pricingData := pricingData self ti_part in
  {| Base.description := description ti_part;
     Base.image_url := None;
     Base.datasheet_url := None;
     Base.supplier_link := buyNowUrl ti_part;
     Base.SKU := tiPartNumber ti_part;
     Base.manufacturer := name;
     Base.manufacturer_link := buyNowUrl ti_part;
     Base.MPN := tiPartNumber ti_part;
     Base.quantity_available := quantity ti_part;
     Base.packaging := packageCarrier ti_part;
     Base.category_path := [];
     Base.parameters := None;
     Base.price_breaks :=
       Base.dict_of (map (fun v => (priceBreakQuantity v, price v))
                         (priceBreaks pricingData));
     Base.currency := TIJson.currency pricingData |}.

(** [get_api_part] on whatever document [search] holds: only a product has
    the key ["pricing"] that the function reads first. *)
Definition get_api_part_of (self : TIApi) (j : json) : M Base.ApiPart :=
  match j with
  | JProduct ti_part => ret (get_api_part self ti_part)
  | _ => raise (KeyError "pricing")
  end.

(** [list(map(f, l))] for an [f] that may raise *)
Fixpoint map_M {A B} (f : A -> M B) (l : list A) : M (list B) :=
  match l with
  | [] => ret []
  | x :: l' => let* y := f x in let* ys := map_M f l' in ret (y :: ys)
  end.

Definition search (self : TIApi) (fuel : nat) (search_term : string)
  : M (list Base.ApiPart * Z) :=
  let* ti_parts := _searchForExactPart self search_term in
  let* ti_parts :=
    match ti_parts with
    | Some [] =>
        let* found := products self fuel search_term in
        ret (option_map (map JProduct) found)
    | _ => ret ti_parts
    end in
  match ti_parts with
  | None => ret ([], 0)
  | Some ti_parts =>
      let* parts := map_M (get_api_part_of self) ti_parts in
      ret (parts, Z.of_nat (length ti_parts))
  end.

End TI.

(* ===================================================================== *)
(** * Registry and dispatch ([suppliers/__init__.py]) *)
(* ===================================================================== *)

Module Suppliers.

(** A dict in insertion order, as [_SUPPLIERS], [_SUPPLIER_OBJECTS] and
    [available_suppliers] are iterated. *)
Definition odict (V : Type) : Type := list (string * V).

Fixpoint odict_get {V} (k : string) (d : odict V) : option V :=
  match d with
  | [] => None
  | (k', v) :: d' => if String.eqb k' k then Some v else odict_get k d'
  end.

(** [d[k] = v]: an existing key keeps its place. *)
Fixpoint odict_set {V} (k : string) (v : V) (d : odict V) : odict V :=
  match d with
  | [] => [(k, v)]
  | (k', v') :: d' =>
      if String.eqb k' k then (k, v) :: d' else (k', v') :: odict_set k v d'
  end.

(** [dict(pairs)] *)
Definition odict_of {V} (pairs : list (string * V)) : odict V :=
  foldl (fun d kv => odict_set kv.1 kv.2 d) [] pairs.

(** [l.remove(x)]: drops the first item equal to [x]; [None] stands for the
    [ValueError] raised when there is none. *)
Fixpoint list_remove {A} `{EqDecision A} (x : A) (l : list A) : option (list A) :=
  match l with
  | [] => None
  | y :: l' => if decide (y = x) then Some l' else cons y <$> list_remove x l'
  end.

(** [s.split(sep, 1)[-1]]: what follows the first occurrence of [sep], or all
    of [s] when [sep] does not occur. *)
Fixpoint after_first (sep s : string) : option string :=
  if String.prefix sep s then
    Some (String.substring (String.length sep) (String.length s - String.length sep) s)
  else
    match s with
    | EmptyString => None
    | String _ s' => after_first sep s'
    end.

Definition split_last (sep s : string) : string := default s (after_first sep s).

Section Registry.

(** Supplier objects, the inventory companies that [setup_supplier_companies]
    pairs them with, and the [Supplier] subclasses found in modules.  Python
    compares objects of such classes by identity, which [EqDecision] stands
    for. *)
Context {Supplier Company Class : Type}.
Context `{EqDecision Supplier} `{EqDecision Company}.

(** What [thread_pool.apply_async(supplier_object.search, (search_term,))]
    returns: the handle of one scheduled call. *)
Record AsyncResult : Type := {
  scheduled_on : Supplier;
  scheduled_term : string
}.

(** The module globals, the diagnostics logged, and the calls handed to
    thread pools so far, in the order of submission. *)
Record globals : Type := {
  _SUPPLIERS : option (odict (Supplier * Company));
  _SUPPLIER_COMPANIES : option (odict Company);
  AVAILABLE_SUPPLIERS : option (list string);
  _SUPPLIER_OBJECTS : option (odict Supplier);
  log : list diag;
  pool : list AsyncResult
}.

(** What importing a module gives: its namespace, of which only the
    [Supplier] subclasses it defines matter, or an exception. *)
Inductive imported : Type :=
| Namespace (supplier_classes : list Class)
| ImportRaises (e : exn).

(** The installation: the stems of the files matching [supplier_*.py], in the
    order [glob] yields them; what importing each gives; what instantiating a
    class gives; and the two things that module [config] decides. *)
Record site : Type := {
  glob : list string;
  import_module : string -> imported;
  new : Class -> Supplier;
  (** Modelled from the spec: whether [setup] succeeds for an adapter
      under the merged configuration (section 4.2: "missing/invalid
      required configuration ⇒ false"). *)
  setup_ok : string -> Supplier -> bool;
  (** Modelled from the spec: [config.SUPPLIERS_CONFIG.name], the file name
      of the suppliers configuration. *)
  SUPPLIERS_CONFIG_name : string
}.

Definition R (A : Type) : Type := globals -> res A * globals.

Definition rret {A} (a : A) : R A := fun g => (Ok a, g).

Definition rraise {A} (e : exn) : R A := fun g => (Raise e, g).

Definition rbind {A B} (m : R A) (k : A -> R B) : R B :=
  fun g =>
    match m g with
    | (Ok a, g') => k a g'
    | (Raise e, g') => (Raise e, g')
    | (OutOfFuel, g') => (OutOfFuel, g')
    end.

Declare Scope reg_scope.
Notation "'let*' x := m 'in' k" := (rbind m (fun x => k))
  (at level 10, x name, m at level 100, k at level 200) : reg_scope.
Notation "'run' m 'in' k" := (rbind m (fun _ => k))
  (at level 10, m at level 100, k at level 200) : reg_scope.
Local Open Scope reg_scope.

(** Modelled from the spec: [error_helper.error] and [error_helper.hint]
    report a diagnostic and return. *)
Definition report (l : level) (text : string) : R unit :=
  fun g =>
    (Ok tt, {| _SUPPLIERS := _SUPPLIERS g;
               _SUPPLIER_COMPANIES := _SUPPLIER_COMPANIES g;
               AVAILABLE_SUPPLIERS := AVAILABLE_SUPPLIERS g;
               _SUPPLIER_OBJECTS := _SUPPLIER_OBJECTS g;
               log := log g ++ [{| diag_level := l; diag_prefix := None;
                                   diag_text := text |}];
               pool := pool g |}).

Definition error (text : string) : R unit := report LError text.

Definition hint (text : string) : R unit := report LHint text.

(** Lines 13 to 20 of [search]: the cache [_SUPPLIERS], built on first use. *)
Definition ensure_suppliers : R (odict (Supplier * Company)) :=
  fun g =>
    match _SUPPLIERS g with
    | Some suppliers => (Ok suppliers, g)
    | None =>
        match _SUPPLIER_COMPANIES g with
        | None => (Raise (AssertionError "call setup_supplier_companies(...) first"), g)
        | Some companies =>
            match _SUPPLIER_OBJECTS g with
            | None => (Raise (AttributeError "'NoneType' object has no attribute 'keys'"), g)
            | Some objects =>
                if bool_decide (list_to_set (map fst objects)
                                =@{gset string} list_to_set (map fst companies))
                then
                  let suppliers :=
                    odict_of (zip (map fst objects)
                                  (zip (map snd objects) (map snd companies))) in
                  (Ok suppliers,
                   {| _SUPPLIERS := Some suppliers;
                      _SUPPLIER_COMPANIES := _SUPPLIER_COMPANIES g;
                      AVAILABLE_SUPPLIERS := AVAILABLE_SUPPLIERS g;
                      _SUPPLIER_OBJECTS := _SUPPLIER_OBJECTS g;
                      log := log g;
                      pool := pool g |})
                else (Raise (AssertionError ""), g)
            end
        end
    end.

(** [thread_pool.apply_async(supplier_object.search, (search_term,))]: the
    call is handed to the pool; running it is the pool's business. *)
Definition apply_async (supplier_object : Supplier) (search_term : string)
  : R AsyncResult :=
  fun g =>
    let handle := {| scheduled_on := supplier_object; scheduled_term := search_term |} in
    (Ok handle,
     {| _SUPPLIERS := _SUPPLIERS g;
        _SUPPLIER_COMPANIES := _SUPPLIER_COMPANIES g;
        AVAILABLE_SUPPLIERS := AVAILABLE_SUPPLIERS g;
        _SUPPLIER_OBJECTS := _SUPPLIER_OBJECTS g;
        log := log g;
        pool := pool g ++ [handle] |}).

(** The list comprehension that [search] returns. *)
Fixpoint dispatch (search_term : string) (suppliers : list (Supplier * Company))
  : R (list (Company * AsyncResult)) :=
  match suppliers with
  | [] => rret []
  | (supplier_object, api_company) :: rest =>
      let* handle := apply_async supplier_object search_term in
      let* handles := dispatch search_term rest in
      rret ((api_company, handle) :: handles)
  end.

(** Truth value of the argument [supplier_id: str = None]. *)
Definition given (supplier_id : option string) : option string :=
  match supplier_id with
  | Some "" => None
  | other => other
  end.

Definition search (σ : site) (search_term : string) (supplier_id : option string)
    (only_supplier : bool) : R (option (list (Company * AsyncResult))) :=
  let* _SUPPLIERS := ensure_suppliers in
  let suppliers := map snd _SUPPLIERS in
  match given supplier_id with
  | Some supplier_id =>
      match odict_get supplier_id _SUPPLIERS with
      | Some supplier =>
          if only_supplier then
            let* handles := dispatch search_term [supplier] in
            rret (Some handles)
          else
            match list_remove supplier suppliers with
            | None => rraise (ValueError "list.remove(x): x not in list")
            | Some others =>
                let* handles := dispatch search_term (supplier :: others) in
                rret (Some handles)
            end
      | None =>
          run error ("supplier id '" ++ supplier_id ++ "' not defined in "
                     ++ SUPPLIERS_CONFIG_name σ) in
          rret None
      end
  | None =>
      let* handles := dispatch search_term suppliers in
      rret (Some handles)
  end.

(** Lines 68 to 75: loading one module.  [locals()] holds the variables of
    [get_supplier_classes] that are bound at that point; of those only
    [supplier_classes], a list, has a name that a stem matching
    [supplier_*] can equal, and [importlib.reload] refuses what is not a
    module.  [bound] tells whether [supplier_classes] has been assigned yet. *)
Definition load_module (σ : site) (bound : bool) (module_name : string) : imported :=
  if bound && String.eqb module_name "supplier_classes"
  then ImportRaises (TypeError "reload() argument must be a module")
  else import_module σ module_name.

(** The [for path in ...glob("supplier_*.py")] loop over the stems still to
    visit, with [available_suppliers] as built so far. *)
Fixpoint discover (σ : site) (stems : list string) (bound : bool)
    (available_suppliers : odict Supplier) : R (odict Supplier) :=
  match stems with
  | [] => rret available_suppliers
  | module_name :: rest =>
      match load_module σ bound module_name with
      | ImportRaises e =>
          if is_ImportError e then
            run error ("failed to load supplier module '" ++ module_name
                       ++ "' with " ++ str_exn e) in
            discover σ rest bound available_suppliers
          else rraise e
      | Namespace supplier_classes =>
          match supplier_classes with
          | [cls] =>
              let id := split_last "supplier_" module_name in
              discover σ rest true (odict_set id (new σ cls) available_suppliers)
          | _ =>
              let suffix :=
                match supplier_classes with
                | [] => "no Supplier class"
                | _ => "multiple Supplier classes"
                end in
              run error ("failed to load supplier module '" ++ module_name
                         ++ "' (" ++ suffix ++ " defined)") in
              discover σ rest true available_suppliers
          end
      end
  end.

(** Modelled from the spec: [config.load_suppliers_config], which keeps the
    adapters whose [setup] succeeds under the merged configuration
    (section 4.3: "[loaded()]: only those for which [setup] returned
    success"). *)
Definition load_suppliers_config (σ : site) (available_suppliers : odict Supplier)
  : odict Supplier :=
  filter (fun kv => setup_ok σ kv.1 kv.2 = true) available_suppliers.

Definition get_supplier_classes (σ : site) : R (odict Supplier) :=
  fun g =>
    match _SUPPLIER_OBJECTS g with
    | Some objects => (Ok objects, g)
    | None =>
        (let* available_suppliers := discover σ (glob σ) false [] in
         let loaded_suppliers := load_suppliers_config σ available_suppliers in
         let available := length available_suppliers in
         let loaded := length loaded_suppliers in
         run (if bool_decide (loaded < available)%nat
              then hint ("only loaded " ++ pretty loaded ++ " of " ++ pretty available
                         ++ " available supplier modules")
              else rret tt) in
         fun g' =>
           (Ok loaded_suppliers,
            {| _SUPPLIERS := _SUPPLIERS g';
               _SUPPLIER_COMPANIES := _SUPPLIER_COMPANIES g';
               AVAILABLE_SUPPLIERS := Some (map fst available_suppliers);
               _SUPPLIER_OBJECTS := Some loaded_suppliers;
               log := log g';
               pool := pool g' |}))
          {| _SUPPLIERS := _SUPPLIERS g;
             _SUPPLIER_COMPANIES := _SUPPLIER_COMPANIES g;
             AVAILABLE_SUPPLIERS := AVAILABLE_SUPPLIERS g;
             _SUPPLIER_OBJECTS := Some [];
             log := log g;
             pool := pool g |}
    end.

End Registry.

Arguments AsyncResult : clear implicits.
Arguments globals : clear implicits.
Arguments imported : clear implicits.
Arguments site : clear implicits.

End Suppliers.

(* ===================================================================== *)
(** * The specification's wording, as definitions *)
(* ===================================================================== *)

Module Spec.

(** "the breaks with quantity strictly above the minimum, unchanged" *)
Definition breaks_above (minimum : Z) (l : list FEJson.price) : gmap Z Q :=
  filter (fun kv => (minimum < kv.1)%Z)
         (Base.dict_of (map (fun v => (FEJson.quantity_from v, FEJson.unit_price v)) l)).

(** the unit prices of "the breaks at or below the minimum" *)
Definition prices_at_or_below (minimum : Z) (l : list FEJson.price) : list Q :=
  map FEJson.unit_price (filter (fun v => (FEJson.quantity_from v ≤ minimum)%Z) l).

(** "the best (lowest) unit price available at or below that minimum":
    [best] is none when there is no such price, and otherwise one of them
    that none of them undercuts. *)
Definition lowest_of (low : list Q) (best : option Q) : Prop :=
  (low = [] ∧ best = None) ∨
  (∃ p, best = Some p ∧ p ∈ low ∧ Forall (Qle p) low).

(** "sku and mpn are not both empty, quantity_available ≥ 0, and every key in
    price_breaks is a positive integer" *)
Definition canonical (r : Base.ApiPart) : Prop :=
  ¬ (Base.SKU r = "" ∧ Base.MPN r = "")
  ∧ (0 ≤ Base.quantity_available r)%Z
  ∧ map_Forall (fun q _ => (0 < q)%Z) (Base.price_breaks r).

(** The request "to the token endpoint": the client-credentials grant,
    posted as a form. *)
Definition token_request (self : TI.TIApi) : request :=
  {| method := "POST";
     url := "https://transact.ti.com/v1/oauth/accesstoken";
     params := [];
     headers := [("Accept", "application/json");
                 ("Content-Type", "application/x-www-form-urlencoded")];
     data := Some [("grant_type", "client_credentials");
                   ("client_id", TI.key self);
                   ("client_secret", TI.secret self)] |}.

(** The world once [rq] has been put on the wire. *)
Definition after_sending (rq : request) (w : world) : world :=
  {| log := log w; sent := sent w ++ [rq]; ticks := ticks w;
     oauthAccessToken := oauthAccessToken w;
     oauthValidUntil := oauthValidUntil w |}.

(** A page of the product search as the store sends it. *)
Definition page (status : Z) (content : list TIJson.part) (last : bool) : response :=
  {| status_code := status; body := Some (JPage content last) |}.

(** The responses of pages that are not the last, from their statuses and
    contents. *)
Definition inner_pages (pages : list (Z * list TIJson.part)) : list (option response) :=
  map (fun sc => Some (page sc.1 sc.2 false)) pages.

(** A status that [_paginate_api_call] does not take for a refusal. *)
Definition passes (status : Z) : Prop := status ≠ 403%Z ∧ status ≠ 404%Z.

(** "any page request fails or returns HTTP status 403 or 404" *)
Definition refused (result : option response) : Prop :=
  match result with
  | None => True
  | Some r => status_code r = 403%Z ∨ status_code r = 404%Z
  end.

(** [served self action ρ d p w results w']: starting in [w], the requests for
    the pages [p], [p + 1], ... of [action], each with the query [d] extended
    by size 100 and its page number, are answered by [results] in this order,
    and leave the world [w']. *)
Inductive served (self : TI.TIApi) (action : string) (ρ : env) (d : dict)
  : Z -> world -> list (option response) -> world -> Prop :=
| served_nil p w : served self action ρ d p w [] w
| served_cons p w result w1 results w2 :
    TI._api_call self action (Some (TI.page_query d p)) ρ w = (Ok result, w1) ->
    served self action ρ d (p + 1) w1 results w2 ->
    served self action ρ d p w (result :: results) w2.

Section Discovery.

Context {Supplier Company Class : Type}.






(** The globals with [entries] added to the log. *)
Definition logged (g : Suppliers.globals Supplier Company) (entries : list diag)
  : Suppliers.globals Supplier Company :=
  {| Suppliers._SUPPLIERS := Suppliers._SUPPLIERS g;
     Suppliers._SUPPLIER_COMPANIES := Suppliers._SUPPLIER_COMPANIES g;
     Suppliers.AVAILABLE_SUPPLIERS := Suppliers.AVAILABLE_SUPPLIERS g;
     Suppliers._SUPPLIER_OBJECTS := Suppliers._SUPPLIER_OBJECTS g;
     Suppliers.log := Suppliers.log g ++ entries;
     Suppliers.pool := Suppliers.pool g |}.

(** The globals with [handles] added to the calls handed to thread pools. *)
Definition submitted (g : Suppliers.globals Supplier Company)
    (handles : list (Suppliers.AsyncResult Supplier))
  : Suppliers.globals Supplier Company :=
  {| Suppliers._SUPPLIERS := Suppliers._SUPPLIERS g;
     Suppliers._SUPPLIER_COMPANIES := Suppliers._SUPPLIER_COMPANIES g;
     Suppliers.AVAILABLE_SUPPLIERS := Suppliers.AVAILABLE_SUPPLIERS g;
     Suppliers._SUPPLIER_OBJECTS := Suppliers._SUPPLIER_OBJECTS g;
     Suppliers.log := Suppliers.log g;
     Suppliers.pool := Suppliers.pool g ++ handles |}.

(** The handle, and the entry of the returned list, for one supplier. *)
Definition handle_of (search_term : string) (supplier : Supplier * Company)
  : Suppliers.AsyncResult Supplier :=
  {| Suppliers.scheduled_on := supplier.1; Suppliers.scheduled_term := search_term |}.

Definition entry_of (search_term : string) (supplier : Supplier * Company)
  : Company * Suppliers.AsyncResult Supplier :=
  (supplier.2, handle_of search_term supplier).

End Discovery.

(** The two exceptions that leave a pass of the TI request block when every
    request times out. *)
Definition timeout_or_unbound (e : exn) : Prop :=
  e = ReadTimeout ∨ e = UnboundLocalError "result".

End Spec.

(* ===================================================================== *)
(** * Concrete worlds and upstream items used in the examples *)
(* ===================================================================== *)

Module Scenario.

(** A world in which every request meets the same fate. *)
Definition always (r : reply) (retries : nat) : env :=
  {| wire := fun _ _ => r; monotonic := fun _ => 0%float; max_retries := retries |}.

Definition fe : FE.FEApi := {| FE.key := "license" |}.

Definition ti : TI.TIApi :=
  {| TI.key := "client"; TI.secret := "secret"; TI.currency := "USD" |}.

(** A TI product without part number, with negative stock and a price break
    at quantity 0. *)
Definition ti_blank : TIJson.part :=
  {| TIJson.description := "";
     TIJson.buyNowUrl := "";
     TIJson.tiPartNumber := "";
     TIJson.quantity := -1;
     TIJson.packageCarrier := "";
     TIJson.pricing :=
       [ {| TIJson.currency := "USD";
            TIJson.priceBreaks :=
              [ {| TIJson.priceBreakQuantity := 0; TIJson.price := 1%Q |} ] |} ] |}.

(** A TI product priced in EUR and JPY only, for an adapter configured for
    GBP. *)
Definition ti_gbp : TI.TIApi :=
  {| TI.key := "client"; TI.secret := "secret"; TI.currency := "GBP" |}.

Definition ti_eur_jpy : TIJson.part :=
  {| TIJson.description := "op amp";
     TIJson.buyNowUrl := "https://www.ti.com/a";
     TIJson.tiPartNumber := "OPA1";
     TIJson.quantity := 5;
     TIJson.packageCarrier := "Tube";
     TIJson.pricing :=
       [ {| TIJson.currency := "EUR";
            TIJson.priceBreaks :=
              [ {| TIJson.priceBreakQuantity := 1; TIJson.price := 0.90%Q |} ] |};
         {| TIJson.currency := "JPY";
            TIJson.priceBreaks :=
              [ {| TIJson.priceBreakQuantity := 1; TIJson.price := 150%Q |} ] |} ] |}.

(** An FE offer without part numbers, with negative stock, minimum order
    quantity 0 and a price break at quantity 0. *)
Definition fe_blank : FEJson.part :=
  {| FEJson.part_attributes := [];
     FEJson.part_quantities :=
       {| FEJson.quantity_minimum := 0; FEJson.quantity_available := -1 |};
     FEJson.pricing := [ {| FEJson.quantity_from := 0; FEJson.unit_price := 1%Q |} ];
     FEJson.images := [];
     FEJson.documents := [];
     FEJson.part_part_id :=
       {| FEJson.web_url := ""; FEJson.seller_part_number := ""; FEJson.mpn := "" |};
     FEJson.currency_code := "USD" |}.

(** A server that answers every request with 500 and an HTML page. *)
Definition down : env :=
  always (Responds {| status_code := 500; body := None |}) 2.

(** The FE lookup finds nothing: an empty [offers] array. *)
Definition fe_no_match : env :=
  always (Responds {| status_code := 200; body := Some (JOffers []) |}) 2.

(** TI finds nothing: the token is granted, the exact part number is
    unknown (error ERR-TICOM-INV-API-1002), and the product search returns
    one empty, last page. *)
Definition ti_no_match : env :=
  {| wire := fun n _ =>
       match n with
       | O => Responds {| status_code := 200;
                          body := Some (JToken "bearer" "token" 3600%float) |}
       | S O => Responds {| status_code := 200;
                            body := Some (JErrors
                                     [ {| errorCode := Some "ERR-TICOM-INV-API-1002";
                                          message := Some "unknown part" |} ]) |}
       | _ => Responds {| status_code := 200; body := Some (JPage [] true) |}
       end;
     monotonic := fun _ => 100%float;
     max_retries := 2 |}.

(** TI grants the token and does not know the exact part number; the product
    search then meets a server error. *)
Definition ti_search_down : env :=
  {| wire := fun n _ =>
       match n with
       | O => Responds {| status_code := 200;
                          body := Some (JToken "bearer" "token" 3600%float) |}
       | S O => Responds {| status_code := 200;
                            body := Some (JErrors
                                     [ {| errorCode := Some "ERR-TICOM-INV-API-1002";
                                          message := Some "unknown part" |} ]) |}
       | _ => Responds {| status_code := 500; body := None |}
       end;
     monotonic := fun _ => 100%float;
     max_retries := 2 |}.

(** An error document without any error in it. *)
Definition no_errors : env :=
  always (Responds {| status_code := 500; body := Some (JErrors []) |}) 2.

(** The world of a [TIApi] whose cached token is good until second 1000. *)
Definition logged_in : world :=
  {| log := []; sent := []; ticks := 0;
     oauthAccessToken := "cached"; oauthValidUntil := 1000%float |}.

Definition part_a : TIJson.part :=
  {| TIJson.description := "op amp"; TIJson.buyNowUrl := "https://www.ti.com/a";
     TIJson.tiPartNumber := "OPA1"; TIJson.quantity := 5;
     TIJson.packageCarrier := "Tube"; TIJson.pricing := [] |}.

Definition part_b : TIJson.part :=
  {| TIJson.description := "op amp, reel"; TIJson.buyNowUrl := "https://www.ti.com/b";
     TIJson.tiPartNumber := "OPA1R"; TIJson.quantity := 0;
     TIJson.packageCarrier := "Reel"; TIJson.pricing := [] |}.

(** The product search has two pages. *)
Definition two_pages : env :=
  {| wire := fun n _ =>
       match n with
       | O => Responds (Spec.page 200 [part_a] false)
       | _ => Responds (Spec.page 200 [part_b] true)
       end;
     monotonic := fun _ => 100%float;
     max_retries := 2 |}.

(** The second page of the product search is refused. *)
Definition second_page_refused : env :=
  {| wire := fun n _ =>
       match n with
       | O => Responds (Spec.page 200 [part_a] false)
       | _ => Responds {| status_code := 404; body := None |}
       end;
     monotonic := fun _ => 100%float;
     max_retries := 2 |}.

(** An installation with five adapter files, of which one does not import,
    one defines two adapter classes and one none; adapter classes and
    adapters go by name.  The [ti] adapter lacks credentials. *)
Definition five_files : Suppliers.site string string :=
  {| Suppliers.glob :=
       ["supplier_fe"; "supplier_bad"; "supplier_two"; "supplier_none"; "supplier_ti"];
     Suppliers.import_module := fun m =>
       if String.eqb m "supplier_fe" then Suppliers.Namespace ["FE"]
       else if String.eqb m "supplier_ti" then Suppliers.Namespace ["TI"]
       else if String.eqb m "supplier_two" then Suppliers.Namespace ["A"; "B"]
       else if String.eqb m "supplier_none" then Suppliers.Namespace []
       else Suppliers.ImportRaises (ImportError "No module named 'tablib'");
     Suppliers.new := fun cls => cls;
     Suppliers.setup_ok := fun id _ => negb (String.eqb id "ti");
     Suppliers.SUPPLIERS_CONFIG_name := "suppliers.yaml" |}.

(** The same, with a second file that does not even parse. *)
Definition broken_file : Suppliers.site string string :=
  {| Suppliers.glob := ["supplier_fe"; "supplier_typo"; "supplier_ti"];
     Suppliers.import_module := fun m =>
       if String.eqb m "supplier_fe" then Suppliers.Namespace ["FE"]
       else if String.eqb m "supplier_ti" then Suppliers.Namespace ["TI"]
       else Suppliers.ImportRaises (SyntaxError "invalid syntax");
     Suppliers.new := fun cls => cls;
     Suppliers.setup_ok := fun _ _ => true;
     Suppliers.SUPPLIERS_CONFIG_name := "suppliers.yaml" |}.


(** The module globals as the file initialises them. *)
Definition unset : Suppliers.globals string string :=
  {| Suppliers._SUPPLIERS := None; Suppliers._SUPPLIER_COMPANIES := None;
     Suppliers.AVAILABLE_SUPPLIERS := None; Suppliers._SUPPLIER_OBJECTS := None;
     Suppliers.log := []; Suppliers.pool := [] |}.

(** Three adapters loaded and paired with their companies. *)
Definition ready : Suppliers.globals string string :=
  {| Suppliers._SUPPLIERS := None;
     Suppliers._SUPPLIER_COMPANIES :=
       Some [("fe", "Future Electronics"); ("ti", "Texas Instruments"); ("dk", "DigiKey")];
     Suppliers.AVAILABLE_SUPPLIERS := Some ["fe"; "ti"; "dk"];
     Suppliers._SUPPLIER_OBJECTS := Some [("fe", "FE"); ("ti", "TI"); ("dk", "DK")];
     Suppliers.log := []; Suppliers.pool := [] |}.

End Scenario.

(* ===================================================================== *)
(** * Requests and worlds named in the further properties *)
(* ===================================================================== *)

Module Wire.

(** The world once the requests [rqs] have been put on the wire, in order. *)
Definition sending (rqs : list request) (w : world) : world :=
  {| log := log w; sent := sent w ++ rqs; ticks := ticks w;
     oauthAccessToken := oauthAccessToken w;
     oauthValidUntil := oauthValidUntil w |}.

(** The world once the diagnostics [ds] have been logged. *)
Definition logging (ds : list diag) (w : world) : world :=
  {| log := log w ++ ds; sent := sent w; ticks := ticks w;
     oauthAccessToken := oauthAccessToken w;
     oauthValidUntil := oauthValidUntil w |}.

(** The world once the clock has been read once more. *)
Definition ticked (w : world) : world :=
  {| log := log w; sent := sent w; ticks := S (ticks w);
     oauthAccessToken := oauthAccessToken w;
     oauthValidUntil := oauthValidUntil w |}.

(** The request that [FEApi._do_request] makes. *)
Definition fe_request (self : FE.FEApi) (action : string) (urldata : option dict)
  : request :=
  {| method := "GET";
     url := (FE.BASE_URL ++ action)%string;
     params := default [] urldata;
     headers := [("Accept", "application/json");
                 ("x-orbweaver-licensekey", FE.key self)];
     data := None |}.

(** The request that [TIApi._api_call] makes when it holds the bearer token
    [token]. *)
Definition ti_request (action : string) (urldata : option dict) (token : string)
  : request :=
  {| method := "GET";
     url := (TI.BASE_URL ++ action)%string;
     params := default [] urldata;
     headers := [("Accept", "application/json");
                 ("Authorization", ("Bearer " ++ token)%string)];
     data := None |}.

(** The diagnostic that the [except (HTTPError, Timeout)] handler logs. *)
Definition request_error (action reason : string) : diag :=
  {| diag_level := LError; diag_prefix := Some "TI API error: ";
     diag_text := "'" ++ action ++ "' action failed with '" ++ reason ++ "'" |}.

(** A status for which [raise_for_status] raises. *)
Definition error_status (status : Z) : Prop := (400 ≤ status < 600)%Z.

(** A status that [TIApi._do_request] hands to its caller. *)
Definition ti_accepts (status : Z) : Prop :=
  status = 403%Z ∨ status = 404%Z ∨ ¬ error_status status.

(** The cached token is good at the next reading of the clock: more than 60
    seconds remain. *)
Definition token_good (ρ : env) (w : world) : Prop :=
  (monotonic ρ (ticks w) <? oauthValidUntil w - 60)%float = true.

End Wire.

Module WireMore.

(** The diagnostic of [_getOauthToken] for a token that is not a bearer token. *)
Definition unknown_token_type (token_type : string) : diag :=
  {| diag_level := LError; diag_prefix := Some "TI API error: ";
     diag_text := "unknown token type '" ++ token_type ++ "'; expected 'bearer'" |}.

(** The first try times out, every later one is answered with an empty
    lookup result. *)
Definition flaky : env :=
  {| wire := fun n _ =>
       match n with
       | O => Fails ReadTimeout
       | _ => Responds {| status_code := 200; body := Some (JOffers []) |}
       end;
     monotonic := fun _ => 100%float;
     max_retries := 2 |}.

(** Every request is refused with a JSON error document. *)
Definition forbidden : env :=
  Scenario.always
    (Responds {| status_code := 401;
                 body := Some (JErrors [ {| errorCode := None;
                                            message := Some "invalid key" |} ]) |}) 2.


(** Every request is answered with the product [Scenario.part_a]. *)
Definition found : env :=
  {| wire := fun _ _ =>
       Responds {| status_code := 200; body := Some (JProduct Scenario.part_a) |};
     monotonic := fun _ => 100%float;
     max_retries := 2 |}.

(** The token endpoint grants a MAC token. *)
Definition mac_token : env :=
  {| wire := fun _ _ =>
       Responds {| status_code := 200; body := Some (JToken "mac" "token" 3600%float) |};
     monotonic := fun _ => 100%float;
     max_retries := 2 |}.

End WireMore.

Module WireTI.

(** The request of [TIApi.product] for the orderable part number [opn], made
    with the bearer token [token]. *)
Definition product_request (self : TI.TIApi) (opn token : string) : request :=
  Wire.ti_request ("v2/store/products/" ++ TI.quote opn)
    (Some [("exclude-evms", "true"); ("currency", TI.currency self)]) token.

End WireTI.

Module Cases.

(** With a cached token: the first page of the product search arrives, and
    every attempt at the second page times out. *)
Definition second_page_times_out : env :=
  {| wire := fun n _ =>
       match n with
       | O => Responds (Spec.page 200 [Scenario.part_a] false)
       | _ => Fails ReadTimeout
       end;
     monotonic := fun _ => 100%float;
     max_retries := 2 |}.

(** A new [TIApi] at a store that grants a token for an hour, knows the exact
    part number under another name only (the second of two errors is
    ERR-TICOM-INV-API-1002), and has two pages of products. *)
Definition granted_unknown_then_two_pages : env :=
  {| wire := fun n _ =>
       match n with
       | O => Responds {| status_code := 200;
                          body := Some (JToken "bearer" "fresh" 3600%float) |}
       | S O => Responds {| status_code := 200;
                            body := Some (JErrors
                                     [ {| errorCode := Some "ERR-TICOM-INV-API-1000";
                                          message := None |};
                                       {| errorCode := Some "ERR-TICOM-INV-API-1002";
                                          message := Some "unknown part" |} ]) |}
       | S (S O) => Responds (Spec.page 200 [Scenario.part_a] false)
       | _ => Responds (Spec.page 200 [Scenario.part_b] true)
       end;
     monotonic := fun _ => 100%float;
     max_retries := 2 |}.

(** With a cached token: the exact part number is unknown to the store, and
    the product search has two pages. *)
Definition unknown_then_two_pages : env :=
  {| wire := fun n _ =>
       match n with
       | O => Responds {| status_code := 200;
                          body := Some (JErrors
                                   [ {| errorCode := Some "ERR-TICOM-INV-API-1002";
                                        message := Some "unknown part" |} ]) |}
       | S O => Responds (Spec.page 200 [Scenario.part_a] false)
       | _ => Responds (Spec.page 200 [Scenario.part_b] true)
       end;
     monotonic := fun _ => 100%float;
     max_retries := 2 |}.

(** A store whose product search never reports a last page. *)
Definition endless : env :=
  {| wire := fun _ _ => Responds (Spec.page 200 [Scenario.part_a] false);
     monotonic := fun _ => 100%float;
     max_retries := 2 |}.

(** The query of [TIApi.products]. *)
Definition products_query (self : TI.TIApi) (genericPartNumber : string) : dict :=
  [("gpn", genericPartNumber); ("exclude-evms", "true"); ("currency", TI.currency self)].

(** The value of the last attribute called [k], if there is one. *)
Definition last_attribute (k : string) (attributes : list FEJson.attribute)
  : option string :=
  FEJson.value <$> last (filter (fun a => FEJson.name a = k) attributes).

End Cases.

Module Registry.

Section Tables.

Context {Supplier Company Class : Type}.

(** The globals with the supplier table filled in. *)
Definition with_table (g : Suppliers.globals Supplier Company)
    (table : Suppliers.odict (Supplier * Company))
  : Suppliers.globals Supplier Company :=
  {| Suppliers._SUPPLIERS := Some table;
     Suppliers._SUPPLIER_COMPANIES := Suppliers._SUPPLIER_COMPANIES g;
     Suppliers.AVAILABLE_SUPPLIERS := Suppliers.AVAILABLE_SUPPLIERS g;
     Suppliers._SUPPLIER_OBJECTS := Suppliers._SUPPLIER_OBJECTS g;
     Suppliers.log := Suppliers.log g;
     Suppliers.pool := Suppliers.pool g |}.

(** The supplier table that pairs every supplier with the company of the
    same identifier. *)
Definition paired (objects : Suppliers.odict Supplier)
    (companies : Suppliers.odict Company) : Suppliers.odict (Supplier * Company) :=
  zip (map fst objects) (zip (map snd objects) (map snd companies)).


(** The adapter that discovery makes for a well-formed module. *)
Definition adapter_of (σ : Suppliers.site Supplier Class) (module_name : string)
  : option Supplier :=
  match Suppliers.import_module σ module_name with
  | Suppliers.Namespace [cls] => Some (Suppliers.new σ cls)
  | _ => None
  end.

End Tables.

End Registry.

(* ===================================================================== *)
(** * suppliers/__init__.py: [setup_supplier_companies] *)
(* ===================================================================== *)

Module Setup.

Section Companies.

Context {Supplier Company : Type}.

(** What lies outside the module and is changed on the way: the
    configuration files and the inventory. *)
Context {External : Type}.

(** The collaborators of [setup_supplier_companies], none of which touches
    the globals of this module. *)
Record collaborators : Type := {
  (** Lines 44 and 45, [get_config()] and entering
      [update_config_file(SUPPLIERS_CONFIG)]: the exception raised, if any. *)
  enter : External -> option exn * External;
  (** Lines 47 to 54 for one item of [_SUPPLIER_OBJECTS]: the [api_company]
      that [Company(...).setup(inventree_api)] returns, or the exception
      raised on the way. *)
  make_company : string -> Supplier -> External -> (exn + Company) * External;
  (** Leaving the [with] block, normally ([None]) or by an exception: the
      exception that leaves the statement, if any. *)
  leave : option exn -> External -> option exn * External
}.

(** The globals with [_SUPPLIER_COMPANIES] holding [companies]. *)
Definition with_companies (g : Suppliers.globals Supplier Company)
    (companies : Suppliers.odict Company) : Suppliers.globals Supplier Company :=
  {| Suppliers._SUPPLIERS := Suppliers._SUPPLIERS g;
     Suppliers._SUPPLIER_COMPANIES := Some companies;
     Suppliers.AVAILABLE_SUPPLIERS := Suppliers.AVAILABLE_SUPPLIERS g;
     Suppliers._SUPPLIER_OBJECTS := Suppliers._SUPPLIER_OBJECTS g;
     Suppliers.log := Suppliers.log g;
     Suppliers.pool := Suppliers.pool g |}.

(** The loop of lines 46 to 55 over the items still to visit, with
    [_SUPPLIER_COMPANIES] as filled so far: the exception that ends it, if
    any, and the dictionary as it then is. *)
Fixpoint fill (κ : collaborators) (items : list (string * Supplier))
    (companies : Suppliers.odict Company) (x : External)
  : option exn * Suppliers.odict Company * External :=
  match items with
  | [] => (None, companies, x)
  | (id, supplier_object) :: rest =>
      match make_company κ id supplier_object x with
      | (inr api_company, x') =>
          fill κ rest (Suppliers.odict_set id api_company companies) x'
      | (inl e, x') => (Some e, companies, x')
      end
  end.

Definition setup_supplier_companies (κ : collaborators)
    (g : Suppliers.globals Supplier Company) (x : External)
  : res unit * (Suppliers.globals Supplier Company * External) :=
  match enter κ x with
  | (Some e, x1) => (Raise e, (with_companies g [], x1))
  | (None, x1) =>
      let '(raised, companies, x2) :=
        match Suppliers._SUPPLIER_OBJECTS g with
        | None =>
            (Some (AttributeError "'NoneType' object has no attribute 'items'"), [], x1)
        | Some objects => fill κ objects [] x1
        end in
      match leave κ raised x2 with
      | (Some e, x3) => (Raise e, (with_companies g companies, x3))
      | (None, x3) => (Ok tt, (with_companies g companies, x3))
      end
  end.

End Companies.

Arguments collaborators : clear implicits.

End Setup.

Module Installations.


(** Three suppliers loaded, no company set up yet. *)
Definition loaded : Suppliers.globals string string :=
  {| Suppliers._SUPPLIERS := None;
     Suppliers._SUPPLIER_COMPANIES := None;
     Suppliers.AVAILABLE_SUPPLIERS := Some ["fe"; "ti"; "dk"];
     Suppliers._SUPPLIER_OBJECTS := Some [("fe", "FE"); ("ti", "TI"); ("dk", "DK")];
     Suppliers.log := []; Suppliers.pool := [] |}.

(** An inventory that takes every company, and counts them. *)
Definition willing : Setup.collaborators string string nat :=
  {| Setup.enter := fun x => (None, x);
     Setup.make_company := fun id supplier_object x =>
       (inr ("company of " ++ supplier_object)%string, S x);
     Setup.leave := fun raised x => (raised, x) |}.

(** An inventory that refuses the company of [ti]. *)
Definition refusing : Setup.collaborators string string nat :=
  {| Setup.enter := fun x => (None, x);
     Setup.make_company := fun id supplier_object x =>
       if String.eqb id "ti" then (inl (HTTPError 400), x)
       else (inr ("company of " ++ supplier_object)%string, S x);
     Setup.leave := fun raised x => (raised, x) |}.

End Installations.

Module Tokens.

(** The world after a token has been granted: the token request is on the
    wire, the clock has been read once, and the cache holds the token with
    the expiry that line 118 computes, the binary64 sum of the time read and
    the lifetime granted. *)
Definition granted (self : TI.TIApi) (ρ : env) (w : world) (token : string)
    (expires_in : float) : world :=
  {| log := log w;
     sent := sent w ++ [Spec.token_request self];
     ticks := S (ticks w);
     oauthAccessToken := token;
     oauthValidUntil := (monotonic ρ (ticks w) + expires_in)%float |}.

(** The number that a finite binary64 value stands for: sign, mantissa and
    exponent as the kernel gives them; [None] for an infinity or a NaN. *)
Definition exact (f : float) : option Q :=
  match FloatOps.Prim2SF f with
  | SpecFloat.S754_zero _ => Some 0%Q
  | SpecFloat.S754_finite negative m e =>
      Some ((if negative then - inject_Z (Z.pos m) else inject_Z (Z.pos m)) * 2 ^ e)%Q
  | _ => None
  end.

(** The answer of the token endpoint that grants a bearer token. *)
Definition grant (status : Z) (token : string) (expires_in : float) : response :=
  {| status_code := status; body := Some (JToken "bearer" token expires_in) |}.

(** A clock that shows [0.1] at its first reading and one second more at
    each further reading. *)
Fixpoint seconds (t : nat) : float :=
  match t with
  | O => 0x1.999999999999ap-4%float
  | S t' => (seconds t' + 1)%float
  end.

(** A store whose token endpoint grants the token ["fresh"] for an hour and
    which answers every other request with the product [Scenario.part_a]. *)
Definition granting : env :=
  {| wire := fun _ rq =>
       if String.eqb (method rq) "POST" then Responds (grant 200 "fresh" 3600%float)
       else Responds {| status_code := 200; body := Some (JProduct Scenario.part_a) |};
     monotonic := seconds;
     max_retries := 2 |}.

(** The same store, answering every request but the token request with [r]. *)
Definition granting_then (r : response) : env :=
  {| wire := fun _ rq =>
       if String.eqb (method rq) "POST" then Responds (grant 200 "fresh" 3600%float)
       else Responds r;
     monotonic := seconds;
     max_retries := 2 |}.


(** A [TIApi] as its class attributes initialise it. *)
Definition initial : world :=
  {| log := []; sent := []; ticks := 0;
     oauthAccessToken := ""; oauthValidUntil := 0%float |}.

End Tokens.

(* ===================================================================== *)
(** * cli.py: reading the part numbers and importing them *)
(* ===================================================================== *)

Module Cli.

(** [c.isspace()] for one character; a string holds code points below 256. *)
Definition isspace (c : Ascii.ascii) : bool :=
  let n := Ascii.N_of_ascii c in
  ((9 <=? n) && (n <=? 13) || (28 <=? n) && (n <=? 32) || (n =? 133) || (n =? 160))%N.

Fixpoint lstrip (s : string) : string :=
  match s with
  | EmptyString => EmptyString
  | String c s' => if isspace c then lstrip s' else s
  end.

Fixpoint rstrip (s : string) : string :=
  match s with
  | EmptyString => EmptyString
  | String c s' =>
      match rstrip s' with
      | EmptyString => if isspace c then EmptyString else String c EmptyString
      | kept => String c kept
      end
  end.

(** [s.strip()] *)
Definition strip (s : string) : string := rstrip (lstrip s).

(** What the functions of [error_helper] and [print] are called with, in the
    order of the calls. *)
Inductive said : Type :=
| Info (text : string)
| Prompt (text : string)
| Warning (text : string)
| Error (text : string)
| Success (text : string)
| Print.

(** What can leave the [try] block of [load_tabular_data]: the two exception
    classes of [tablib] that it handles ([UnsupportedFormat] is a subclass of
    [TablibException]; [doc] is the [__doc__] of the class raised), and any
    other exception. *)
Inductive raised : Type :=
| UnsupportedFormat
| TablibException (doc : string)
| Python (e : exn).

(** The [tablib.Dataset] that [import_set] returns, as far as the code uses
    it: its headers, which are strings, and what [get_col] does for a column
    index. *)
Record Dataset : Type := {
  headers : list string;
  get_col : nat -> raised + list string
}.

(** [path.name] and [path.suffix] *)
Record Path : Type := { name : string; suffix : string }.

(** The two libraries that decide about the column: [fuzz.ratio] of
    [thefuzz], and [select] of [cutie], which returns the index of the option
    that the user chooses. *)
Record desk : Type := {
  ratio : string -> string -> Z;
  select : list string -> nat
}.

Definition MPN_HEADERS : list string := ["Manufacturer Part Number"; "MPN"].

(** [sorted(l, key=key, reverse=True)]: by descending key, items of equal key
    in the order they have in [l]. *)
Fixpoint insert_reverse {A} (key : A -> Z) (x : A) (sorted : list A) : list A :=
  match sorted with
  | [] => [x]
  | y :: rest =>
      if (key x <? key y)%Z then y :: insert_reverse key x rest else x :: sorted
  end.

Definition sorted_reverse {A} (key : A -> Z) (l : list A) : list A :=
  foldr (insert_reverse key) [] l.

(** The dict comprehension of lines 142 to 146: the non-blank stripped
    headers with the index of their column. *)
Definition headers_of (data : Dataset) : Suppliers.odict nat :=
  Suppliers.odict_of
    (filter (fun kv => kv.1 ≠ "") (imap (fun i header => (strip header, i)) (headers data))).

(** The key of line 149. *)
Definition mpn_ratio (δ : desk) (header : string) : Z :=
  Z.max (ratio δ header "Manufacturer Part Number") (ratio δ header "MPN").

(** [headers[header]] *)
Definition column_of (headers : Suppliers.odict nat) (header : string) : raised + nat :=
  match Suppliers.odict_get header headers with
  | Some i => inr i
  | None => inl (Python (KeyError header))
  end.

(** Lines 153 to 160: the column to import, or the exception raised on the
    way, with what has been said meanwhile. *)
Definition choose_column (δ : desk) (headers : Suppliers.odict nat)
    (sorted_headers : list string) : (raised + nat) * list said :=
  let ask : (raised + nat) * list said :=
    (match sorted_headers !! select δ sorted_headers with
     | Some header => column_of headers header
     | None => inl (Python IndexError)
     end,
     [Prompt "
select the column to import:"]) in
  match sorted_headers with
  | [] => (inr 0%nat, [])
  | first :: rest =>
      if bool_decide (first ∈ MPN_HEADERS) then
        match rest with
        | [] => (inl (Python IndexError), [])
        | second :: _ =>
            if bool_decide (second ∉ MPN_HEADERS)
            then (column_of headers first, [])
            else ask
        end
      else ask
  end.

(** [load_tabular_data], given what [import_set(file)] does for the file at
    [path]: the value returned or the exception that escapes, and what has
    been said. *)
Definition load_tabular_data (δ : desk) (path : Path) (imported : raised + Dataset)
  : (exn + option (list string)) * list said :=
  let reading := Info ("reading " ++ name path ++ " ...") in
  let outcome : (raised + list string) * list said :=
    match imported with
    | inl e => (inl e, [])
    | inr data =>
        let headers := headers_of data in
        let sorted_headers := sorted_reverse (mpn_ratio δ) (map fst headers) in
        match choose_column δ headers sorted_headers with
        | (inr column_index, prompts) => (get_col data column_index, prompts)
        | (inl e, prompts) => (inl e, prompts)
        end
    end in
  match outcome with
  | (inr column, prompts) => (inr (Some column), reading :: prompts)
  | (inl UnsupportedFormat, prompts) =>
      (inr None,
       reading :: prompts ++ [Error (suffix path ++ " is not a supported file format")])
  | (inl (TablibException doc), prompts) =>
      (inr None,
       reading :: prompts ++ [Error ("failed to parse file with '" ++ doc ++ "'")])
  | (inl (Python e), prompts) => (inl e, reading :: prompts)
  end.

(** Line 109: the part numbers stripped, the blank ones dropped. *)
Definition stripped_parts (parts : list string) : list string :=
  filter (fun part => part ≠ "") (map strip parts).

Section Importing.

(** The inventory and whatever else [importer.import_part] works on. *)
Context {Shop : Type}.

(** [importer.import_part(part, supplier, only_supplier)]: whether the part
    was imported, or the exception raised. *)
Variable import_part : string -> option string -> bool -> Shop -> (exn + bool) * Shop.

(** The loop of lines 124 to 128 over the items of [parts.copy()] still to
    visit, with the list [parts] as it is by then. *)
Fixpoint import_loop (copy : list string) (parts : list string)
    (supplier : option string) (only_supplier : bool) (x : Shop)
  : (exn + list string) * Shop * list said :=
  match copy with
  | [] => (inr parts, x, [])
  | part :: rest =>
      let searching := Info ("searching for " ++ part ++ " ...") in
      match import_part part supplier only_supplier x with
      | (inl e, x') => (inl e, x', [searching])
      | (inr imported, x') =>
          let removed : exn + list string :=
            if imported then
              match Suppliers.list_remove part parts with
              | Some parts' => inr parts'
              | None => inl (ValueError "list.remove(x): x not in list")
              end
            else inr parts in
          match removed with
          | inl e => (inl e, x', [searching])
          | inr parts' =>
              let '(r, x'', told) := import_loop rest parts' supplier only_supplier x' in
              (r, x'', searching :: Print :: told)
          end
      end
  end.

(** [chr(10).join(parts)] *)
Fixpoint join_lines (parts : list string) : string :=
  match parts with
  | [] => ""
  | [part] => part
  | part :: rest => part ++ "
" ++ join_lines rest
  end.

(** Lines 124 to 134: the loop, then the summary. *)
Definition import_all (parts : list string) (supplier : option string)
    (only_supplier : bool) (x : Shop) : (exn + unit) * Shop * list said :=
  match import_loop parts parts supplier only_supplier x with
  | (inl e, x', told) => (inl e, x', told)
  | (inr [], x', told) => (inr tt, x', told ++ [Success "imported all parts!"])
  | (inr failed, x', told) =>
      (inr tt, x',
       told ++ [Warning ("failed to import the following parts:
" ++ join_lines failed)])
  end.

(** The parts whose import does not succeed when [copy] is gone through, in
    the order they are tried. *)
Fixpoint failures (copy : list string) (supplier : option string)
    (only_supplier : bool) (x : Shop) : list string :=
  match copy with
  | [] => []
  | part :: rest =>
      match import_part part supplier only_supplier x with
      | (inl _, _) => []
      | (inr imported, x') =>
          if imported then failures rest supplier only_supplier x'
          else part :: failures rest supplier only_supplier x'
      end
  end.

End Importing.

(** The index of the last column whose header, stripped, is [header]. *)
Definition last_column (header : string) (headers : list string) : option nat :=
  last (map snd (filter (fun kv => kv.1 = header)
                        (imap (fun i h => (strip h, i)) headers))).

(** All characters of [s] are white space. *)
Fixpoint blank (s : string) : bool :=
  match s with
  | EmptyString => true
  | String c s' => isspace c && blank s'
  end.

End Cli.

Module Sheets.

(** A desk that scores a header by its length and always picks the first
    option. *)
Definition desk : Cli.desk :=
  {| Cli.ratio := fun header term =>
       if String.eqb header term then 100%Z else Z.of_nat (String.length header);
     Cli.select := fun _ => 0%nat |}.

Definition bom : Cli.Path := {| Cli.name := "bom.csv"; Cli.suffix := ".csv" |}.

(** A sheet with the columns given, each a header and its cells. *)
Definition sheet (columns : list (string * list string)) : Cli.Dataset :=
  {| Cli.headers := map fst columns;
     Cli.get_col := fun i =>
       match columns !! i with
       | Some column => inr column.2
       | None => inl (Cli.Python IndexError)
       end |}.

End Sheets.

(* =========================== PROPERTIES =========================== *)

Section Numbers.

Lemma Qltb_lt (x y : Q) : Qltb x y = true <-> (x < y)%Q.
Proof.
  unfold Qltb. rewrite negb_true_iff, <- not_true_iff_false, Qle_bool_iff.
  split; [apply Qnot_le_lt | apply Qlt_not_le].
Qed.

Lemma Qltb_ge (x y : Q) : Qltb x y = false <-> (y <= x)%Q.
Proof.
  unfold Qltb. rewrite negb_false_iff. apply Qle_bool_iff.
Qed.

End Numbers.

Section FE_pricing.

Import FEJson.

Variable minimum : Z.

Lemma dict_of_snoc {K V} `{Countable K} (l : list (K * V)) k v :
  Base.dict_of (l ++ [(k, v)]) = <[k := v]> (Base.dict_of l).
Proof. unfold Base.dict_of. by rewrite foldl_snoc. Qed.

Lemma breaks_above_snoc_low l v :
  (quantity_from v ≤ minimum)%Z ->
  Spec.breaks_above minimum (l ++ [v]) = Spec.breaks_above minimum l.
Proof.
  intros Hle. unfold Spec.breaks_above.
  rewrite map_app. simpl. rewrite dict_of_snoc.
  rewrite map_filter_insert_False by (simpl; lia).
  rewrite map_filter_delete. apply delete_id.
  apply map_lookup_filter_None. right. intros x _. simpl. lia.
Qed.

Lemma breaks_above_snoc_high l v :
  (minimum < quantity_from v)%Z ->
  Spec.breaks_above minimum (l ++ [v]) =
  <[quantity_from v := unit_price v]> (Spec.breaks_above minimum l).
Proof.
  intros Hlt. unfold Spec.breaks_above.
  rewrite map_app. simpl. rewrite dict_of_snoc.
  by rewrite map_filter_insert_True.
Qed.

Lemma prices_snoc_low l v :
  (quantity_from v ≤ minimum)%Z ->
  Spec.prices_at_or_below minimum (l ++ [v]) =
  Spec.prices_at_or_below minimum l ++ [unit_price v].
Proof.
  intros Hle. unfold Spec.prices_at_or_below.
  rewrite filter_app, map_app. f_equal.
  by rewrite filter_cons_True.
Qed.

Lemma prices_snoc_high l v :
  (minimum < quantity_from v)%Z ->
  Spec.prices_at_or_below minimum (l ++ [v]) = Spec.prices_at_or_below minimum l.
Proof.
  intros Hlt. unfold Spec.prices_at_or_below.
  rewrite filter_app, map_app.
  rewrite filter_cons_False by lia. simpl. apply app_nil_r.
Qed.

Lemma lowest_of_snoc low best p :
  Spec.lowest_of low best ->
  Spec.lowest_of (low ++ [p])
    (if match best with None => true | Some b => Qgtb b p end
     then Some p else best).
Proof.
  intros [[-> ->] | (b & -> & Hin & Hall)]; right.
  - exists p. simpl. repeat split; [apply list_elem_of_singleton; reflexivity |].
    constructor; [apply Qle_refl | constructor].
  - destruct (Qgtb b p) eqn:Hcmp.
    + apply Qltb_lt in Hcmp. exists p.
      repeat split; [apply elem_of_app; right; apply list_elem_of_singleton; reflexivity |].
      apply Forall_app. split.
      * eapply Forall_impl; [exact Hall |]. intros x Hx. simpl in Hx.
        eapply Qle_trans; [apply Qlt_le_weak; exact Hcmp | exact Hx].
      * constructor; [apply Qle_refl | constructor].
    + apply Qltb_ge in Hcmp. exists b.
      repeat split; [apply elem_of_app; left; exact Hin |].
      apply Forall_app. split; [exact Hall |].
      constructor; [exact Hcmp | constructor].
Qed.

(** Invariant of the loop of [FE.get_api_part]. *)
Lemma pricing_loop_inv (l : list price) :
  ∃ best,
    foldl (FE.pricing_step minimum) (∅, None) l = (Spec.breaks_above minimum l, best)
    ∧ Spec.lowest_of (Spec.prices_at_or_below minimum l) best.
Proof.
  induction l as [| v l IH] using rev_ind.
  - exists None. split; [reflexivity |]. left. split; reflexivity.
  - destruct IH as (best & Hfold & Hbest).
    rewrite foldl_snoc, Hfold. unfold FE.pricing_step.
    case_bool_decide as Hq.
    + rewrite (breaks_above_snoc_low _ _ Hq), (prices_snoc_low _ _ Hq).
      eexists. split; [| apply (lowest_of_snoc _ _ (unit_price v) Hbest)].
      destruct best as [b |]; [destruct (Qgtb b (unit_price v)) |]; reflexivity.
    + assert (minimum < quantity_from v)%Z as Hq' by lia.
      rewrite (breaks_above_snoc_high _ _ Hq'), (prices_snoc_high _ _ Hq').
      exists best. split; [reflexivity | exact Hbest].
Qed.

End FE_pricing.

(** C2. Price-break collapsing of the Future Electronics adapter: the
    normalized [price_breaks] are the upstream breaks strictly above the
    stated minimum order quantity, unchanged, plus, when some break lies at or
    below the minimum, one entry at the minimum whose price is one of those
    breaks' prices and not above any of them.  Upstream breaks
    {1: 2.00, 10: 1.50, 100: 1.20} with minimum 10 give {10: 1.50, 100: 1.20}. *)
Theorem fe_price_breaks_collapse :
  (∀ fe_part : FEJson.part,
     let minimum := FEJson.quantity_minimum (FEJson.part_quantities fe_part) in
     let upstream := FEJson.pricing fe_part in
     let normalized := Base.price_breaks (FE.get_api_part fe_part) in
     match Spec.prices_at_or_below minimum upstream with
     | [] => normalized = Spec.breaks_above minimum upstream
     | low =>
         ∃ p, p ∈ low ∧ Forall (Qle p) low ∧
              normalized = <[minimum := p]> (Spec.breaks_above minimum upstream)
     end)
  ∧ FE.collapsed_pricing 10
      [ {| FEJson.quantity_from := 1; FEJson.unit_price := 2.00%Q |};
        {| FEJson.quantity_from := 10; FEJson.unit_price := 1.50%Q |};
        {| FEJson.quantity_from := 100; FEJson.unit_price := 1.20%Q |} ]
    = {[ 10 := 1.50%Q; 100 := 1.20%Q ]}.
Proof.
  split.
  - intros fe_part minimum upstream normalized.
    subst normalized. simpl. fold minimum upstream.
    unfold FE.collapsed_pricing.
    destruct (pricing_loop_inv minimum upstream) as (best & -> & Hbest).
    destruct Hbest as [[-> ->] | (p & -> & Hin & Hall)].
    + reflexivity.
    + destruct (Spec.prices_at_or_below minimum upstream) as [| q low] eqn:Hlow.
      * apply elem_of_nil in Hin. destruct Hin.
      * exists p. repeat split; assumption.
  - apply map_eq. intros q. vm_compute. reflexivity.
Qed.

Section TI_pricing.

Import TIJson.

Lemma default_last_cons {A} (a v : A) (l : list A) :
  default a (last (v :: l)) = default v (last l).
Proof.
  revert a v. induction l as [| x l IH]; intros a v; [reflexivity |].
  change (last (v :: x :: l)) with (last (x :: l)).
  rewrite (IH a x), (IH v x). reflexivity.
Qed.

(** The loop of [TI.get_api_part], in closed form. *)
Lemma select_pricing_closed (target : string) (l : list price_list) (acc : price_list) :
  TI.select_pricing target l acc =
  match find (fun v => String.eqb (currency v) target) l with
  | Some v => v
  | None => default acc (last (filter (fun v => currency v = "USD") l))
  end.
Proof.
  revert acc. induction l as [| v l IH]; intros acc; simpl; [reflexivity |].
  destruct (String.eqb (currency v) target); [reflexivity |].
  destruct (String.eqb_spec (currency v) "USD") as [Husd | Husd].
  - rewrite IH, filter_cons_True by exact Husd.
    destruct (find _ l); [reflexivity |]. by rewrite default_last_cons.
  - rewrite IH, filter_cons_False by exact Husd. reflexivity.
Qed.

End TI_pricing.

(** C3, counterexample.  A product priced in EUR and JPY, with target GBP:
    there is no list in the target currency and none tagged USD to fall back
    to; none of the upstream lists is chosen, and the record is tagged GBP
    with no price breaks. *)
Lemma no_list_to_fall_back_to :
  let chosen := TI.pricingData Scenario.ti_gbp Scenario.ti_eur_jpy in
  let record := TI.get_api_part Scenario.ti_gbp Scenario.ti_eur_jpy in
  length (TIJson.pricing Scenario.ti_eur_jpy) = 2%nat
  ∧ (chosen ∉ TIJson.pricing Scenario.ti_eur_jpy)
  ∧ TIJson.currency chosen ≠ "USD"
  ∧ Base.currency record = "GBP"
  ∧ Base.price_breaks record = ∅.
Proof.
  split; [reflexivity |]. split; [| split; [discriminate |]].
  - intros Hin. repeat (apply elem_of_cons in Hin; destruct Hin as [Hin | Hin];
                        [discriminate Hin |]).
    by apply elem_of_nil in Hin.
  - split; reflexivity.
Qed.

(** C3, as the code has it.  Currency selection of the Texas Instruments
    adapter: of the currency-tagged price lists of a product, the one chosen
    is the first whose currency is the configured one; when there is none, it
    is a list tagged USD if there is one (the last such); with neither, no
    list is chosen, and an empty list in the configured currency stands in.
    The record's [currency] is the chosen list's, and its [price_breaks] are
    that list's breaks.  Lists in EUR and USD with target GBP give the USD
    list and [currency = "USD"]. *)
Theorem ti_currency_selection :
  (∀ (self : TI.TIApi) (ti_part : TIJson.part),
     let chosen := TI.pricingData self ti_part in
     let record := TI.get_api_part self ti_part in
     match find (fun v => String.eqb (TIJson.currency v) (TI.currency self))
                (TIJson.pricing ti_part) with
     | Some v => chosen = v
     | None =>
         match last (filter (fun v => TIJson.currency v = "USD")
                            (TIJson.pricing ti_part)) with
         | Some v => chosen = v
         | None => chosen = {| TIJson.currency := TI.currency self;
                               TIJson.priceBreaks := [] |}
         end
     end
     ∧ Base.currency record = TIJson.currency chosen
     ∧ Base.price_breaks record =
         Base.dict_of (map (fun v => (TIJson.priceBreakQuantity v, TIJson.price v))
                           (TIJson.priceBreaks chosen)))
  ∧ (∀ (key secret description buyNowUrl tiPartNumber packageCarrier : string)
       (quantity : Z) (eur usd : list TIJson.price_break),
       let self := {| TI.key := key; TI.secret := secret; TI.currency := "GBP" |} in
       let usd_list := {| TIJson.currency := "USD"; TIJson.priceBreaks := usd |} in
       let ti_part :=
         {| TIJson.description := description; TIJson.buyNowUrl := buyNowUrl;
            TIJson.tiPartNumber := tiPartNumber; TIJson.quantity := quantity;
            TIJson.packageCarrier := packageCarrier;
            TIJson.pricing :=
              [ {| TIJson.currency := "EUR"; TIJson.priceBreaks := eur |}; usd_list ] |} in
       TI.pricingData self ti_part = usd_list
       ∧ Base.currency (TI.get_api_part self ti_part) = "USD").
Proof.
  split.
  - intros self ti_part chosen record. subst chosen record.
    split; [| split; reflexivity].
    unfold TI.pricingData. rewrite select_pricing_closed.
    destruct (find _ _); [reflexivity |].
    destruct (last _); reflexivity.
  - intros. split; reflexivity.
Qed.

Section Records.

Lemma dom_dict_of {V} (l : list (Z * V)) (q : Z) :
  q ∈ dom (Base.dict_of l) ↔ q ∈ map fst l.
Proof.
  induction l as [| [k v] l IH] using rev_ind.
  - unfold Base.dict_of. simpl. rewrite dom_empty_L, elem_of_nil.
    split; [apply not_elem_of_empty | tauto].
  - rewrite dict_of_snoc, dom_insert_L, map_app, elem_of_union, elem_of_app,
      elem_of_singleton, IH. simpl. rewrite list_elem_of_singleton. tauto.
Qed.

Lemma breaks_above_keys (minimum : Z) (l : list FEJson.price) :
  map_Forall (fun q _ => (minimum ≤ q)%Z) (Spec.breaks_above minimum l).
Proof.
  apply map_Forall_lookup. intros q p Hq.
  apply map_lookup_filter_Some in Hq. destruct Hq as [_ Hq]. simpl in Hq. lia.
Qed.

Lemma fe_price_break_keys (fe_part : FEJson.part) :
  map_Forall
    (fun q _ => (FEJson.quantity_minimum (FEJson.part_quantities fe_part) ≤ q)%Z)
    (Base.price_breaks (FE.get_api_part fe_part)).
Proof.
  simpl. unfold FE.collapsed_pricing.
  destruct (pricing_loop_inv (FEJson.quantity_minimum (FEJson.part_quantities fe_part))
              (FEJson.pricing fe_part)) as (best & -> & _).
  destruct best as [b |]; [| apply breaks_above_keys].
  apply map_Forall_insert_2; [lia | apply breaks_above_keys].
Qed.

End Records.

(** C7, counterexample.  Both adapters hand on an upstream item whose part
    numbers are empty, whose stock is negative and which has a price break at
    quantity 0: the record has empty [SKU] and [MPN], a negative
    [quantity_available] and the key 0 in [price_breaks]. *)
Lemma record_invariant_not_enforced :
  let r := TI.get_api_part Scenario.ti Scenario.ti_blank in
  let r' := FE.get_api_part Scenario.fe_blank in
  (Base.SKU r = "" ∧ Base.MPN r = "" ∧ Base.quantity_available r = (-1)%Z
   ∧ Base.price_breaks r !! 0%Z = Some 1%Q ∧ ¬ Spec.canonical r)
  ∧ (Base.SKU r' = "" ∧ Base.MPN r' = "" ∧ Base.quantity_available r' = (-1)%Z
     ∧ Base.price_breaks r' !! 0%Z = Some 1%Q ∧ ¬ Spec.canonical r').
Proof.
  split; (repeat split; try (vm_compute; reflexivity));
    intros (Hid & _ & _); apply Hid; split; reflexivity.
Qed.

(** C7, as the code has it.  The adapters copy the identifying fields and the
    stock from the upstream item without checking them: FE takes [SKU] from
    [seller_part_number], [MPN] from [mpn] and [quantity_available] from the
    upstream field of that name; TI takes both [SKU] and [MPN] from
    [tiPartNumber] and [quantity_available] from [quantity].  Every key of
    FE's [price_breaks] is at least the stated minimum order quantity; the
    keys of TI's [price_breaks] are the quantities of the chosen price
    list. *)
Theorem records_copy_upstream :
  (∀ fe_part : FEJson.part,
     let r := FE.get_api_part fe_part in
     Base.SKU r = FEJson.seller_part_number (FEJson.part_part_id fe_part)
     ∧ Base.MPN r = FEJson.mpn (FEJson.part_part_id fe_part)
     ∧ Base.quantity_available r
       = FEJson.quantity_available (FEJson.part_quantities fe_part)
     ∧ map_Forall
         (fun q _ => (FEJson.quantity_minimum (FEJson.part_quantities fe_part) ≤ q)%Z)
         (Base.price_breaks r))
  ∧ (∀ (self : TI.TIApi) (ti_part : TIJson.part),
       let r := TI.get_api_part self ti_part in
       Base.SKU r = TIJson.tiPartNumber ti_part
       ∧ Base.MPN r = TIJson.tiPartNumber ti_part
       ∧ Base.quantity_available r = TIJson.quantity ti_part
       ∧ ∀ q : Z,
           q ∈ dom (Base.price_breaks r)
           ↔ q ∈ map TIJson.priceBreakQuantity
                     (TIJson.priceBreaks (TI.pricingData self ti_part))).
Proof.
  split.
  - intros fe_part r. subst r.
    repeat split; try reflexivity. apply fe_price_break_keys.
  - intros self ti_part r. subst r.
    split; [reflexivity |]. split; [reflexivity |]. split; [reflexivity |].
    intros q. simpl. rewrite dom_dict_of, map_map. reflexivity.
Qed.

(** C1, counterexample.  Against a server that is down, the lookup of either
    adapter fails ([None]), and [search] returns the very value it returns
    when the lookup succeeds and finds nothing: the empty list and 0. *)
Lemma search_failure_not_distinct :
  (fst (FE.lookup Scenario.fe "X" FE.CONTAINS Scenario.down fresh) = Ok None
   ∧ fst (FE.lookup Scenario.fe "X" FE.CONTAINS Scenario.fe_no_match fresh)
     = Ok (Some (JOffers []))
   ∧ fst (FE.search Scenario.fe "X" Scenario.down fresh)
     = fst (FE.search Scenario.fe "X" Scenario.fe_no_match fresh))
  ∧ (fst (TI._searchForExactPart Scenario.ti "X" Scenario.down fresh) = Ok None
     ∧ fst (TI._searchForExactPart Scenario.ti "X" Scenario.ti_no_match fresh)
       = Ok (Some [])
     ∧ fst (TI.search Scenario.ti 1 "X" Scenario.down fresh)
       = fst (TI.search Scenario.ti 1 "X" Scenario.ti_no_match fresh)).
Proof. repeat split; vm_compute; reflexivity. Qed.

(** C1, as the code has it.  In both adapters a lookup that could not be
    completed (the API method returns [None]) makes [search] return the empty
    record list with count 0, which is also what it returns for zero upstream
    matches (an empty [offers] array for FE; for TI an unknown exact part
    number followed by an empty product search); in neither case does
    [search] raise or return a failure marker. *)
Theorem search_failure_is_empty_result :
  ∀ (ρ : env) (w w' : world) (search_term : string),
    (∀ fe, FE.lookup fe search_term FE.CONTAINS ρ w = (Ok None, w') →
           FE.search fe search_term ρ w = (Ok ([], 0%Z), w'))
    ∧ (∀ fe, FE.lookup fe search_term FE.CONTAINS ρ w = (Ok (Some (JOffers [])), w') →
             FE.search fe search_term ρ w = (Ok ([], 0%Z), w'))
    ∧ (∀ ti fuel, TI._searchForExactPart ti search_term ρ w = (Ok None, w') →
                  TI.search ti fuel search_term ρ w = (Ok ([], 0%Z), w'))
    ∧ (∀ ti fuel w1,
         TI._searchForExactPart ti search_term ρ w = (Ok (Some []), w1) →
         TI.products ti fuel search_term ρ w1 = (Ok None, w') →
         TI.search ti fuel search_term ρ w = (Ok ([], 0%Z), w'))
    ∧ (∀ ti fuel w1,
         TI._searchForExactPart ti search_term ρ w = (Ok (Some []), w1) →
         TI.products ti fuel search_term ρ w1 = (Ok (Some []), w') →
         TI.search ti fuel search_term ρ w = (Ok ([], 0%Z), w')).
Proof.
  intros ρ w w' search_term. repeat split.
  - intros fe H. unfold FE.search, bind. rewrite H. reflexivity.
  - intros fe H. unfold FE.search, bind. rewrite H. reflexivity.
  - intros ti fuel H. unfold TI.search, bind. rewrite H. reflexivity.
  - intros ti fuel w1 H1 H2. unfold TI.search, bind. rewrite H1.
    unfold bind. rewrite H2. reflexivity.
  - intros ti fuel w1 H1 H2. unfold TI.search, bind. rewrite H1.
    unfold bind. rewrite H2. reflexivity.
Qed.

Lemma search_failure_is_empty_result_witness :
  FE.search Scenario.fe "X" Scenario.down fresh
  = (Ok ([], 0%Z), snd (FE.lookup Scenario.fe "X" FE.CONTAINS Scenario.down fresh))
  ∧ FE.search Scenario.fe "X" Scenario.fe_no_match fresh
    = (Ok ([], 0%Z), snd (FE.lookup Scenario.fe "X" FE.CONTAINS Scenario.fe_no_match fresh))
  ∧ TI.search Scenario.ti 1 "X" Scenario.down fresh
    = (Ok ([], 0%Z), snd (TI._searchForExactPart Scenario.ti "X" Scenario.down fresh))
  ∧ TI.search Scenario.ti 1 "X" Scenario.ti_search_down fresh
    = (Ok ([], 0%Z),
       snd (TI.products Scenario.ti 1 "X" Scenario.ti_search_down
              (snd (TI._searchForExactPart Scenario.ti "X" Scenario.ti_search_down fresh))))
  ∧ TI.search Scenario.ti 1 "X" Scenario.ti_no_match fresh
    = (Ok ([], 0%Z),
       snd (TI.products Scenario.ti 1 "X" Scenario.ti_no_match
              (snd (TI._searchForExactPart Scenario.ti "X" Scenario.ti_no_match fresh)))).
Proof.
  split; [| split; [| split; [| split]]].
  - apply (proj1 (search_failure_is_empty_result Scenario.down fresh _ "X")).
    vm_compute. reflexivity.
  - apply (proj1 (proj2 (search_failure_is_empty_result Scenario.fe_no_match fresh _ "X"))).
    vm_compute. reflexivity.
  - apply (proj1 (proj2 (proj2 (search_failure_is_empty_result Scenario.down fresh _ "X")))).
    vm_compute. reflexivity.
  - apply (proj1 (proj2 (proj2 (proj2
             (search_failure_is_empty_result Scenario.ti_search_down fresh _ "X"))))
             Scenario.ti 1%nat
             (snd (TI._searchForExactPart Scenario.ti "X" Scenario.ti_search_down fresh))).
    + vm_compute. reflexivity.
    + vm_compute. reflexivity.
  - apply (proj2 (proj2 (proj2 (proj2
             (search_failure_is_empty_result Scenario.ti_no_match fresh _ "X"))))
             Scenario.ti 1%nat
             (snd (TI._searchForExactPart Scenario.ti "X" Scenario.ti_no_match fresh))).
    + vm_compute. reflexivity.
    + vm_compute. reflexivity.
Defined.

Section Request_failures.

(** When every pass of the block raises and leaves the locals alone, so does
    the retried loop, whatever the number of attempts. *)
Lemma retry_all_raise {L R} (P : exn -> Prop) (body : @Retries.block L R) (ρ : env) :
  (∀ l w, ∃ e w', body l ρ w = (Raise e, l, w') ∧ P e) ->
  ∀ n l w, ∃ e w', Retries.retry_timeouts (S n) body l ρ w = (Raise e, l, w') ∧ P e.
Proof.
  intros Hbody. induction n as [| n IH]; intros l w.
  - simpl. destruct (Hbody l w) as (e & w' & -> & He).
    exists e, w'. split; [| exact He]. destruct (Retries.transient e); reflexivity.
  - destruct (Hbody l w) as (e & w' & Hb & He).
    destruct (Retries.transient e) eqn:Htr.
    + destruct (IH l w') as (e2 & w2 & Hrec & He2).
      exists e2, w2. split; [| exact He2].
      change (Retries.retry_timeouts (S (S n)) body l ρ w) with
        (match body l ρ w with
         | (Raise e, l', w') =>
             if Retries.transient e
             then Retries.retry_timeouts (S n) body l' ρ w'
             else (Raise e, l', w')
         | done => done
         end).
      rewrite Hb, Htr. exact Hrec.
    + exists e, w'. split; [| exact He].
      change (Retries.retry_timeouts (S (S n)) body l ρ w) with
        (match body l ρ w with
         | (Raise e, l', w') =>
             if Retries.transient e
             then Retries.retry_timeouts (S n) body l' ρ w'
             else (Raise e, l', w')
         | done => done
         end).
      rewrite Hb, Htr. reflexivity.
Qed.

Variable retries : nat.

Let timing_out : env := Scenario.always (Fails ReadTimeout) retries.

Lemma fe_timeouts_escape (self : FE.FEApi) action urldata w :
  fst (FE._do_request self action urldata timing_out w)
  = Raise (UnboundLocalError "result").
Proof.
  unfold FE._do_request. simpl max_retries.
  match goal with
  | |- context [Retries.retry_timeouts (S retries) ?b None timing_out w] =>
      destruct (retry_all_raise (fun e => e = ReadTimeout) b timing_out) with
        (n := retries) (l := @None response) (w := w) as (e & w' & -> & ->)
  end.
  - intros l w0. eexists _, _. split; reflexivity.
  - reflexivity.
Qed.

Lemma ti_timeouts_escape_with (get : option (M (option string))) action urldata bodydata w :
  (∀ g, get = Some g -> ∀ w0,
      (∃ t w1, g timing_out w0 = (Ok (Some t), w1))
      ∨ (∃ e w1, g timing_out w0 = (Raise e, w1) ∧ Spec.timeout_or_unbound e)) ->
  fst (TI._do_request_with get action urldata bodydata timing_out w)
  = Raise (UnboundLocalError "result").
Proof.
  intros Hget. unfold TI._do_request_with. simpl max_retries.
  match goal with
  | |- context [Retries.retry_timeouts (S retries) ?b None timing_out w] =>
      destruct (retry_all_raise Spec.timeout_or_unbound b timing_out) with
        (n := retries) (l := @None response) (w := w) as (e & w' & -> & [-> | ->])
  end.
  - intros l w0. unfold TI.attempt, TI.send.
    destruct get as [g |].
    + destruct (Hget g eq_refl w0) as [(t & w1 & Hg) | (e & w1 & Hg & He)].
      * unfold bind. rewrite Hg.
        destruct bodydata; eexists _, _; (split; [reflexivity | left; reflexivity]).
      * unfold bind. rewrite Hg. eexists _, _. split; [reflexivity | exact He].
    + destruct bodydata; eexists _, _; (split; [reflexivity | left; reflexivity]).
  - reflexivity.
  - reflexivity.
Qed.

Lemma ti_token_when_timing_out (self : TI.TIApi) w0 :
  (∃ t w1, TI._getOauthToken self timing_out w0 = (Ok (Some t), w1))
  ∨ (∃ e w1, TI._getOauthToken self timing_out w0 = (Raise e, w1)
             ∧ Spec.timeout_or_unbound e).
Proof.
  unfold TI._getOauthToken, bind, time_monotonic, TI.read. simpl monotonic.
  match goal with |- context [PrimFloat.ltb ?a ?b] => destruct (PrimFloat.ltb a b) end.
  - left. eexists _, _. reflexivity.
  - right.
    match goal with
    | |- context [TI._do_request_with None ?a ?u ?b timing_out ?w1] =>
        pose proof (ti_timeouts_escape_with None a u b w1) as Hesc;
        destruct (TI._do_request_with None a u b timing_out w1) as [r w2]
    end.
    simpl in Hesc. rewrite Hesc by (intros g Hg; discriminate Hg).
    eexists _, _. split; [reflexivity | right; reflexivity].
Qed.

Lemma ti_timeouts_escape (self : TI.TIApi) action urldata auth bodydata w :
  fst (TI._do_request self action urldata auth bodydata timing_out w)
  = Raise (UnboundLocalError "result").
Proof.
  unfold TI._do_request. apply ti_timeouts_escape_with.
  intros g Hg w0. destruct auth; [| discriminate Hg].
  injection Hg as <-. apply ti_token_when_timing_out.
Qed.

End Request_failures.

(** C9 fails on the code.  When every attempt of the retried request times
    out, the local [result] is never assigned; the handler of
    [except (HTTPError, Timeout)] reads it first, and the [UnboundLocalError]
    escapes both [FEApi._do_request] and [TIApi._do_request], for any number
    of retries the policy allows.  An unreachable server
    ([ConnectionError], which the [except] clause does not name) makes
    [_do_request] raise as well, and so does an error status whose JSON body
    has an empty ["errors"] array ([IndexError]). *)
Theorem do_request_exception_escapes :
  ∀ (retries : nat) (action : string) (urldata : option dict) (w : world),
    (∀ self : FE.FEApi,
        fst (FE._do_request self action urldata
               (Scenario.always (Fails ReadTimeout) retries) w)
        = Raise (UnboundLocalError "result"))
    ∧ (∀ (self : TI.TIApi) (auth : bool) (bodydata : option dict),
        fst (TI._do_request self action urldata auth bodydata
               (Scenario.always (Fails ReadTimeout) retries) w)
        = Raise (UnboundLocalError "result"))
    ∧ (∀ self : FE.FEApi,
        fst (FE._do_request self action urldata
               (Scenario.always (Fails ConnectionError) 2) w)
        = Raise ConnectionError)
    ∧ (∀ (self : TI.TIApi) (bodydata : option dict),
        fst (TI._do_request self action urldata false bodydata
               (Scenario.always (Fails ConnectionError) 2) w)
        = Raise ConnectionError)
    ∧ (∀ self : FE.FEApi,
        fst (FE._do_request self action urldata Scenario.no_errors w)
        = Raise IndexError).
Proof.
  intros retries action urldata w. split; [| split; [| split; [| split]]].
  - intros self. apply fe_timeouts_escape.
  - intros self auth bodydata. apply ti_timeouts_escape.
  - intros self. vm_compute. reflexivity.
  - intros self bodydata. destruct bodydata; vm_compute; reflexivity.
  - intros self. vm_compute. reflexivity.
Qed.

Section Token.

Variable self : TI.TIApi.
Variable ρ : env.





Lemma retry_first_done {L R} (body : @Retries.block L R) n l w o l' w' :
  body l ρ w = (Ok o, l', w') ->
  Retries.retry_timeouts (S n) body l ρ w = (Ok o, l', w').
Proof. intros H. simpl. rewrite H. reflexivity. Qed.

Lemma attempt_token_ok l w r :
  wire ρ (length (sent w)) (Spec.token_request self) = Responds r ->
  ¬ (400 ≤ status_code r < 600)%Z ->
  TI.attempt
    (TI.send None (url (Spec.token_request self)) None
             (headers (Spec.token_request self))
             (data (Spec.token_request self))) l ρ w
  = (Ok None, Some r, Spec.after_sending (Spec.token_request self) w).
Proof.
  intros Hwire Hstatus.
  unfold TI.attempt, TI.send, bind, send_request.
  unfold Spec.token_request in Hwire. simpl in Hwire |- *. rewrite Hwire.
  simpl. destruct (negb _ && negb _ && negb _); [| reflexivity].
  unfold raise_for_status. rewrite bool_decide_eq_false_2 by exact Hstatus.
  reflexivity.
Qed.

Lemma token_fetch_ok w r :
  wire ρ (length (sent w)) (Spec.token_request self) = Responds r ->
  ¬ (400 ≤ status_code r < 600)%Z ->
  TI._do_request_with None "v1/oauth/accesstoken" None
    (data (Spec.token_request self)) ρ w
  = (Ok (Some r), Spec.after_sending (Spec.token_request self) w).
Proof.
  intros Hwire Hstatus. unfold TI._do_request_with. cbv zeta.
  match goal with
  | |- context [Retries.retry_timeouts (S ?k) ?b None ρ w] =>
      rewrite (retry_first_done b k None w None (Some r)
                 (Spec.after_sending (Spec.token_request self) w)
                 (attempt_token_ok None w r Hwire Hstatus))
  end.
  reflexivity.
Qed.

End Token.



Section Query.

Lemma dict_get_set_eq k v d : dict_get k (dict_set k v d) = Some v.
Proof.
  induction d as [| [k' v'] d IH]; simpl.
  - by rewrite String.eqb_refl.
  - destruct (String.eqb k' k) eqn:E; simpl.
    + by rewrite String.eqb_refl.
    + by rewrite E.
Qed.

Lemma dict_get_set_ne k k' v d :
  k ≠ k' -> dict_get k (dict_set k' v d) = dict_get k d.
Proof.
  intros Hne. induction d as [| [k0 v0] d IH]; simpl.
  - destruct (String.eqb_spec k' k); [congruence | reflexivity].
  - destruct (String.eqb_spec k0 k') as [-> | Hk0]; simpl.
    + destruct (String.eqb_spec k' k); [congruence | reflexivity].
    + by rewrite IH.
Qed.

Lemma dict_set_same k v d : dict_get k d = Some v -> dict_set k v d = d.
Proof.
  induction d as [| [k0 v0] d IH]; simpl; [discriminate |].
  destruct (String.eqb_spec k0 k) as [-> | Hk0].
  - intros [= ->]. reflexivity.
  - intros H. by rewrite IH.
Qed.

Lemma dict_set_twice k v v' d : dict_set k v (dict_set k v' d) = dict_set k v d.
Proof.
  induction d as [| [k0 v0] d IH]; simpl.
  - by rewrite String.eqb_refl.
  - destruct (String.eqb k0 k) eqn:E; simpl.
    + by rewrite String.eqb_refl.
    + by rewrite E, IH.
Qed.

(** The loop writes [size] and [page] into the dict it was given; doing so
    again for another page overwrites the page number only. *)
Lemma page_query_again d p q :
  TI.page_query (TI.page_query d p) q = TI.page_query d q.
Proof.
  unfold TI.page_query.
  rewrite (dict_set_same "size" (pretty 100)
             (dict_set "page" (pretty p) (dict_set "size" (pretty 100) d))).
  - apply dict_set_twice.
  - rewrite dict_get_set_ne by discriminate. apply dict_get_set_eq.
Qed.

End Query.

Section Pagination.

Variable self : TI.TIApi.
Variable action : string.
Variable ρ : env.
Variable base : dict.

Lemma passes_test status :
  Spec.passes status -> ((status =? 403)%Z || (status =? 404)%Z) = false.
Proof. intros [H1 H2]. apply orb_false_iff. split; apply Z.eqb_neq; assumption. Qed.

Lemma refused_test r :
  Spec.refused (Some r) ->
  ((status_code r =? 403)%Z || (status_code r =? 404)%Z) = true.
Proof. intros [H | H]; rewrite H; reflexivity. Qed.

Lemma paginate_loop_last (pages : list (Z * list TIJson.part)) :
  ∀ fuel p acc urldata w w' status content,
    (∀ q, TI.page_query (default [] urldata) q = TI.page_query base q) ->
    Spec.served self action ρ base p w (Spec.inner_pages pages ++ [Some (Spec.page status content true)]) w' ->
    Forall (fun sc => Spec.passes sc.1) pages -> Spec.passes status ->
    (length pages < fuel)%nat ->
    TI.paginate_loop self action fuel urldata acc p ρ w
    = (Ok (Some (acc ++ concat (map snd pages) ++ content)), w').
Proof.
  induction pages as [| [s c] pages IH];
    intros fuel p acc urldata w w' status content Hq Hserved Hall Hst Hfuel;
    (destruct fuel as [| fuel]; [simpl in Hfuel; lia |]);
    simpl in Hserved; inversion Hserved as [| ? ? ? w1 ? ? Hcall Hrest]; subst;
    simpl; unfold bind; rewrite Hq, Hcall; simpl.
  - inversion Hrest; subst. rewrite (passes_test _ Hst). reflexivity.
  - apply Forall_cons in Hall. destruct Hall as [Hs Hall]. simpl in Hs.
    rewrite (passes_test _ Hs). simpl.
    rewrite (IH fuel (p + 1)%Z (acc ++ c) (Some (TI.page_query base p)) w1 w'
               status content); try assumption.
    + simpl. rewrite <- !app_assoc. reflexivity.
    + intros q. simpl. apply page_query_again.
    + simpl in Hfuel. lia.
Qed.

Lemma paginate_loop_refused (pages : list (Z * list TIJson.part)) :
  ∀ fuel p acc urldata w w' bad,
    (∀ q, TI.page_query (default [] urldata) q = TI.page_query base q) ->
    Spec.served self action ρ base p w (Spec.inner_pages pages ++ [bad]) w' ->
    Forall (fun sc => Spec.passes sc.1) pages -> Spec.refused bad ->
    (length pages < fuel)%nat ->
    TI.paginate_loop self action fuel urldata acc p ρ w = (Ok None, w').
Proof.
  induction pages as [| [s c] pages IH];
    intros fuel p acc urldata w w' bad Hq Hserved Hall Hbad Hfuel;
    (destruct fuel as [| fuel]; [simpl in Hfuel; lia |]);
    simpl in Hserved; inversion Hserved as [| ? ? ? w1 ? ? Hcall Hrest]; subst;
    simpl; unfold bind; rewrite Hq, Hcall; simpl.
  - inversion Hrest; subst. destruct bad as [r |]; [| reflexivity].
    rewrite (refused_test _ Hbad). reflexivity.
  - apply Forall_cons in Hall. destruct Hall as [Hs Hall]. simpl in Hs.
    rewrite (passes_test _ Hs). simpl.
    apply (IH fuel (p + 1)%Z (acc ++ c) (Some (TI.page_query base p)) w1 w' bad);
      try assumption.
    + intros q. simpl. apply page_query_again.
    + simpl in Hfuel. lia.
Qed.

End Pagination.

(** C10, as far as the page requests return.  [_paginate_api_call] asks for
    the pages 0, 1, 2, ... of the action, each with [size] 100 and its [page]
    number in the query.  When the pages before the last answer with more to
    come and the last one reports [last = true], it returns every page's
    [content], concatenated in page order; when instead [_api_call] returns
    [None] for a page, or the page answers 403 or 404, it returns [None],
    whatever the earlier pages held.  [fuel] bounds the turns of the loop:
    one more than the number of pages before the final one is enough. *)
Theorem paginate_collects_pages :
  ∀ (self : TI.TIApi) (action : string) (urldata : option dict) (ρ : env)
    (w w' : world) (fuel : nat) (pages : list (Z * list TIJson.part)),
    Forall (fun sc => Spec.passes sc.1) pages →
    (length pages < fuel)%nat →
    (∀ p : Z,
        dict_get "size" (TI.page_query (default [] urldata) p) = Some "100"
        ∧ dict_get "page" (TI.page_query (default [] urldata) p) = Some (pretty p))
    ∧ (∀ (status : Z) (content : list TIJson.part),
         Spec.passes status →
         Spec.served self action ρ (default [] urldata) 0 w
           (Spec.inner_pages pages ++ [Some (Spec.page status content true)]) w' →
         TI._paginate_api_call self fuel action urldata ρ w
         = (Ok (Some (concat (map snd pages) ++ content)), w'))
    ∧ (∀ bad : option response,
         Spec.refused bad →
         Spec.served self action ρ (default [] urldata) 0 w
           (Spec.inner_pages pages ++ [bad]) w' →
         TI._paginate_api_call self fuel action urldata ρ w = (Ok None, w')).
Proof.
  intros self action urldata ρ w w' fuel pages Hall Hfuel.
  split; [| split].
  - intros p. unfold TI.page_query. split.
    + rewrite dict_get_set_ne by discriminate. apply dict_get_set_eq.
    + apply dict_get_set_eq.
  - intros status content Hst Hserved. unfold TI._paginate_api_call.
    by rewrite (paginate_loop_last self action ρ (default [] urldata) pages
                  fuel 0%Z [] urldata w w' status content).
  - intros bad Hbad Hserved. unfold TI._paginate_api_call.
    by apply (paginate_loop_refused self action ρ (default [] urldata) pages
                fuel 0%Z [] urldata w w' bad).
Qed.

Lemma paginate_collects_pages_witness :
  (∃ w', TI._paginate_api_call Scenario.ti 2 "v2/store/products"
           (Some [("gpn", "OPA1")]) Scenario.two_pages Scenario.logged_in
         = (Ok (Some [Scenario.part_a; Scenario.part_b]), w'))
  ∧ (∃ w', TI._paginate_api_call Scenario.ti 2 "v2/store/products"
             (Some [("gpn", "OPA1")]) Scenario.second_page_refused Scenario.logged_in
           = (Ok None, w')).
Proof.
  assert (Forall (fun sc : Z * list TIJson.part => Spec.passes sc.1)
            [(200%Z, [Scenario.part_a])]) as Hall.
  { constructor; [split; discriminate | constructor]. }
  split.
  - eexists.
    apply (proj1 (proj2 (paginate_collects_pages Scenario.ti "v2/store/products"
                   (Some [("gpn", "OPA1")]) Scenario.two_pages Scenario.logged_in _
                   2 [(200%Z, [Scenario.part_a])] Hall (le_n 2)))
             200%Z [Scenario.part_b]).
    + split; discriminate.
    + eapply Spec.served_cons; [reflexivity |].
      eapply Spec.served_cons; [reflexivity |].
      apply Spec.served_nil.
  - eexists.
    apply (proj2 (proj2 (paginate_collects_pages Scenario.ti "v2/store/products"
                   (Some [("gpn", "OPA1")]) Scenario.second_page_refused
                   Scenario.logged_in _
                   2 [(200%Z, [Scenario.part_a])] Hall (le_n 2)))
             (Some {| status_code := 404; body := None |})).
    + right. reflexivity.
    + eapply Spec.served_cons; [reflexivity |].
      eapply Spec.served_cons; [reflexivity |].
      apply Spec.served_nil.
Defined.

(** C10 fails on the code.  A page request that fails by timing out on every
    attempt does not make [_paginate_api_call] return [None]: the
    [UnboundLocalError] that [_do_request] raises then (the defect of C9)
    passes through [_api_call] and through the loop, which has no handler, and
    the page fetched before is lost with it.  A page request that cannot
    reach the server leaves the loop as a [ConnectionError] in the same
    way. *)
Theorem paginate_page_timeout_escapes :
  (∀ fuel : nat,
      fst (TI._paginate_api_call Scenario.ti (S (S fuel)) "v2/store/products"
             (Some [("gpn", "OPA1")]) Cases.second_page_times_out Scenario.logged_in)
      = Raise (UnboundLocalError "result"))
  ∧ (∀ fuel : nat,
       fst (TI._paginate_api_call Scenario.ti (S fuel) "v2/store/products"
              (Some [("gpn", "OPA1")]) (Scenario.always (Fails ConnectionError) 2)
              Scenario.logged_in)
       = Raise ConnectionError).
Proof.
  split; intros fuel.
  - unfold TI._paginate_api_call. cbn [TI.paginate_loop]. vm_compute. reflexivity.
  - unfold TI._paginate_api_call. cbn [TI.paginate_loop]. vm_compute. reflexivity.
Qed.


Section Dispatcher.

Context {Supplier Company Class : Type}.
Context `{EqDecision Supplier} `{EqDecision Company}.

Variable σ : Suppliers.site Supplier Class.

Lemma given_nonempty (id : string) : id ≠ "" -> Suppliers.given (Some id) = Some id.
Proof. destruct id; [congruence | reflexivity]. Qed.

Lemma ensure_suppliers_quiet (g g1 : Suppliers.globals Supplier Company) suppliers :
  Suppliers.ensure_suppliers g = (Ok suppliers, g1) ->
  Suppliers.log g1 = Suppliers.log g ∧ Suppliers.pool g1 = Suppliers.pool g.
Proof.
  unfold Suppliers.ensure_suppliers.
  destruct (Suppliers._SUPPLIERS g); [intros [= _ <-]; split; reflexivity |].
  destruct (Suppliers._SUPPLIER_COMPANIES g); [| discriminate].
  destruct (Suppliers._SUPPLIER_OBJECTS g); [| discriminate].
  case_bool_decide; [| discriminate].
  intros [= _ <-]. split; reflexivity.
Qed.

Lemma dispatch_spec (search_term : string) (l : list (Supplier * Company)) :
  ∀ g : Suppliers.globals Supplier Company,
    Suppliers.dispatch search_term l g
    = (Ok (map (Spec.entry_of search_term) l),
       Spec.submitted g (map (Spec.handle_of search_term) l)).
Proof.
  induction l as [| [supplier_object api_company] l IH]; intros g.
  - destruct g. unfold Spec.submitted. simpl. by rewrite app_nil_r.
  - simpl. unfold Suppliers.rbind at 1. simpl.
    unfold Suppliers.rbind. rewrite IH. unfold Spec.submitted. simpl.
    rewrite <- app_assoc. reflexivity.
Qed.

Lemma odict_get_values {V} (k : string) (d : Suppliers.odict V) (v : V) :
  Suppliers.odict_get k d = Some v -> v ∈ map snd d.
Proof.
  induction d as [| [k' v'] d IH]; simpl; [discriminate |].
  destruct (String.eqb k' k).
  - intros [= ->]. apply elem_of_cons. by left.
  - intros Hget. apply elem_of_cons. right. by apply IH.
Qed.

Lemma list_remove_present {A} `{EqDecision A} (x : A) (l : list A) :
  x ∈ l -> ∃ l', Suppliers.list_remove x l = Some l' ∧ Permutation (x :: l') l.
Proof.
  induction l as [| y l IH]; intros Hin.
  - by apply elem_of_nil in Hin.
  - simpl. destruct (decide (y = x)) as [-> | Hne].
    + exists l. split; reflexivity.
    + apply elem_of_cons in Hin. destruct Hin as [-> | Hin]; [congruence |].
      destruct (IH Hin) as (l' & -> & Hperm). exists (y :: l'). split; [reflexivity |].
      rewrite Permutation_swap. by constructor.
Qed.

End Dispatcher.

(** C4, counterexample.  With [only_supplier] set and the supplier id [""],
    which no loaded supplier has, [search] reports nothing and schedules the
    search of all three loaded suppliers. *)
Lemma empty_supplier_id_not_reported :
  let out := Suppliers.search Scenario.five_files "LM358" (Some "") true Scenario.ready in
  Suppliers.odict_get ""
    [("fe", ("FE", "Future Electronics")); ("ti", ("TI", "Texas Instruments"));
     ("dk", ("DK", "DigiKey"))] = None
  ∧ fst (Suppliers.ensure_suppliers Scenario.ready)
    = Ok [("fe", ("FE", "Future Electronics")); ("ti", ("TI", "Texas Instruments"));
          ("dk", ("DK", "DigiKey"))]
  ∧ (∃ handles, fst out = Ok (Some handles) ∧ length handles = 3%nat)
  ∧ Suppliers.log (snd out) = []
  ∧ map Suppliers.scheduled_on (Suppliers.pool (snd out)) = ["FE"; "TI"; "DK"].
Proof.
  repeat split; try (vm_compute; reflexivity).
  eexists. split; vm_compute; reflexivity.
Qed.

(** C4, as the code has it.  Once the supplier table is built, a call of
    [search] with a non-empty [supplier_id] that is not in the table logs one
    error naming the identifier and returns [None]; no search is handed to a
    thread pool.  This holds with and without [only_supplier]. *)
Theorem unknown_supplier_is_reported :
  ∀ {Supplier Company Class : Type}
    `{EqDecision Supplier} `{EqDecision Company}
    (σ : Suppliers.site Supplier Class) (search_term supplier_id : string)
    (only_supplier : bool) (g g1 : Suppliers.globals Supplier Company)
    (suppliers : Suppliers.odict (Supplier * Company)),
    supplier_id ≠ "" →
    Suppliers.ensure_suppliers g = (Ok suppliers, g1) →
    Suppliers.odict_get supplier_id suppliers = None →
    let out := Suppliers.search σ search_term (Some supplier_id) only_supplier g in
    fst out = Ok None
    ∧ Suppliers.log (snd out)
      = Suppliers.log g
        ++ [ {| diag_level := LError; diag_prefix := None;
                diag_text := "supplier id '" ++ supplier_id ++ "' not defined in "
                             ++ Suppliers.SUPPLIERS_CONFIG_name σ |} ]
    ∧ Suppliers.pool (snd out) = Suppliers.pool g.
Proof.
  intros Supplier Company Class ? ? σ search_term supplier_id only_supplier g g1
    suppliers Hid Hensure Hget out. subst out.
  destruct (ensure_suppliers_quiet g g1 suppliers Hensure) as [Hlog Hpool].
  assert (Suppliers.search σ search_term (Some supplier_id) only_supplier g
          = (Ok None,
             Spec.logged g1
               [ {| diag_level := LError; diag_prefix := None;
                    diag_text := "supplier id '" ++ supplier_id ++ "' not defined in "
                                 ++ Suppliers.SUPPLIERS_CONFIG_name σ |} ])) as ->.
  { unfold Suppliers.search, Suppliers.rbind at 1. rewrite Hensure.
    rewrite (given_nonempty _ Hid), Hget. reflexivity. }
  simpl. rewrite Hlog, Hpool. repeat split; reflexivity.
Qed.

Lemma unknown_supplier_is_reported_witness :
  let out := Suppliers.search Scenario.five_files "LM358" (Some "mouser") true
               Scenario.ready in
  fst out = Ok None
  ∧ Suppliers.log (snd out)
    = [ {| diag_level := LError; diag_prefix := None;
           diag_text := "supplier id 'mouser' not defined in suppliers.yaml" |} ]
  ∧ Suppliers.pool (snd out) = [].
Proof.
  refine (unknown_supplier_is_reported Scenario.five_files "LM358" "mouser" true
            Scenario.ready (snd (Suppliers.ensure_suppliers Scenario.ready))
            (default [] (Suppliers._SUPPLIERS (snd (Suppliers.ensure_suppliers Scenario.ready))))
            _ _ _).
  - discriminate.
  - vm_compute. reflexivity.
  - vm_compute. reflexivity.
Defined.

(** C5, counterexample.  With a preferred supplier that is not loaded and
    without [only_supplier], [search] returns [None] and hands no search to a
    thread pool, although three suppliers are loaded. *)
Lemma unknown_preferred_supplier_stops_search :
  let out := Suppliers.search Scenario.five_files "LM358" (Some "mouser") false
               Scenario.ready in
  fst (Suppliers.ensure_suppliers Scenario.ready)
  = Ok [("fe", ("FE", "Future Electronics")); ("ti", ("TI", "Texas Instruments"));
        ("dk", ("DK", "DigiKey"))]
  ∧ fst out = Ok None
  ∧ Suppliers.pool (snd out) = [].
Proof. repeat split; vm_compute; reflexivity. Qed.

(** C5, as the code has it.  Once the supplier table is built, a call of
    [search] with a (non-empty) [supplier_id] that is in the table and without
    [only_supplier] schedules the search of that supplier first and then of
    every other loaded supplier, in table order: the suppliers searched are
    the loaded ones, each once ([Permutation]), and the handles returned are
    theirs in the order of scheduling. *)
Theorem preferred_supplier_first :
  ∀ {Supplier Company Class : Type}
    `{EqDecision Supplier} `{EqDecision Company}
    (σ : Suppliers.site Supplier Class) (search_term supplier_id : string)
    (g g1 : Suppliers.globals Supplier Company)
    (suppliers : Suppliers.odict (Supplier * Company))
    (supplier : Supplier * Company),
    supplier_id ≠ "" →
    Suppliers.ensure_suppliers g = (Ok suppliers, g1) →
    Suppliers.odict_get supplier_id suppliers = Some supplier →
    ∃ others : list (Supplier * Company),
      Suppliers.list_remove supplier (map snd suppliers) = Some others
      ∧ Permutation (supplier :: others) (map snd suppliers)
      ∧ let out := Suppliers.search σ search_term (Some supplier_id) false g in
        fst out = Ok (Some (map (Spec.entry_of search_term) (supplier :: others)))
        ∧ Suppliers.pool (snd out)
          = Suppliers.pool g ++ map (Spec.handle_of search_term) (supplier :: others)
        ∧ Suppliers.log (snd out) = Suppliers.log g.
Proof.
  intros Supplier Company Class ? ? σ search_term supplier_id g g1 suppliers supplier
    Hid Hensure Hget.
  destruct (ensure_suppliers_quiet g g1 suppliers Hensure) as [Hlog Hpool].
  destruct (list_remove_present supplier (map snd suppliers)
              (odict_get_values _ _ _ Hget)) as (others & Hremove & Hperm).
  exists others. split; [exact Hremove |]. split; [exact Hperm |].
  assert (Suppliers.search σ search_term (Some supplier_id) false g
          = (Ok (Some (map (Spec.entry_of search_term) (supplier :: others))),
             Spec.submitted g1 (map (Spec.handle_of search_term) (supplier :: others))))
    as ->.
  { unfold Suppliers.search, Suppliers.rbind at 1. rewrite Hensure.
    rewrite (given_nonempty _ Hid), Hget, Hremove.
    unfold Suppliers.rbind. rewrite dispatch_spec. reflexivity. }
  simpl. rewrite Hpool, Hlog. repeat split; reflexivity.
Qed.

Lemma preferred_supplier_first_witness :
  ∃ others,
    Suppliers.list_remove ("TI", "Texas Instruments")
      [("FE", "Future Electronics"); ("TI", "Texas Instruments"); ("DK", "DigiKey")]
    = Some others
    ∧ Permutation (("TI", "Texas Instruments") :: others)
        [("FE", "Future Electronics"); ("TI", "Texas Instruments"); ("DK", "DigiKey")]
    ∧ let out := Suppliers.search Scenario.five_files "LM358" (Some "ti") false
                   Scenario.ready in
      fst out = Ok (Some (map (Spec.entry_of "LM358")
                            (("TI", "Texas Instruments") :: others)))
      ∧ Suppliers.pool (snd out)
        = [] ++ map (Spec.handle_of "LM358") (("TI", "Texas Instruments") :: others)
      ∧ Suppliers.log (snd out) = [].
Proof.
  refine (preferred_supplier_first Scenario.five_files "LM358" "ti"
            Scenario.ready (snd (Suppliers.ensure_suppliers Scenario.ready))
            [("fe", ("FE", "Future Electronics")); ("ti", ("TI", "Texas Instruments"));
             ("dk", ("DK", "DigiKey"))]
            ("TI", "Texas Instruments") _ _ _).
  - discriminate.
  - vm_compute. reflexivity.
  - vm_compute. reflexivity.
Defined.

Section Discovery.

Context {Supplier Company Class : Type}.

Variable σ : Suppliers.site Supplier Class.

Lemma logged_logged (g : Suppliers.globals Supplier Company) (l1 l2 : list diag) :
  Spec.logged (Spec.logged g l1) l2 = Spec.logged g (l1 ++ l2).
Proof. unfold Spec.logged. simpl. by rewrite app_assoc. Qed.

Lemma logged_nil (g : Suppliers.globals Supplier Company) : Spec.logged g [] = g.
Proof. destruct g. unfold Spec.logged. simpl. by rewrite app_nil_r. Qed.


End Discovery.




(* ====================== FURTHER PROPERTIES ====================== *)

Section FE_requests.

Variable self : FE.FEApi.
Variable action : string.
Variable urldata : option dict.
Variable ρ : env.

Let rq : request := Wire.fe_request self action urldata.

Lemma sending_sending (l1 l2 : list request) (w : world) :
  Wire.sending l2 (Wire.sending l1 w) = Wire.sending (l1 ++ l2) w.
Proof. unfold Wire.sending. simpl. by rewrite app_assoc. Qed.

Lemma retry_first_raise {L R} (body : @Retries.block L R) n l w e l' w' :
  body l ρ w = (Raise e, l', w') ->
  Retries.transient e = false ->
  Retries.retry_timeouts (S n) body l ρ w = (Raise e, l', w').
Proof. intros H Htr. simpl. rewrite H, Htr. reflexivity. Qed.

Lemma fe_attempt_fails (result : option response) (w : world) (e : exn) :
  wire ρ (length (sent w)) rq = Fails e ->
  FE.attempt rq result ρ w = (Raise e, result, Wire.sending [rq] w).
Proof. intros Hw. unfold FE.attempt, send_request. rewrite Hw. reflexivity. Qed.

Lemma fe_attempt_ok (result : option response) (w : world) (r : response) :
  wire ρ (length (sent w)) rq = Responds r ->
  ¬ Wire.error_status (status_code r) ->
  FE.attempt rq result ρ w = (Ok None, Some r, Wire.sending [rq] w).
Proof.
  intros Hw Hst. unfold FE.attempt, send_request. rewrite Hw.
  unfold raise_for_status. rewrite bool_decide_eq_false_2 by exact Hst. reflexivity.
Qed.

Lemma fe_attempt_http_error (result : option response) (w : world) (r : response) :
  wire ρ (length (sent w)) rq = Responds r ->
  Wire.error_status (status_code r) ->
  FE.attempt rq result ρ w
  = (Raise (HTTPError (status_code r)), Some r, Wire.sending [rq] w).
Proof.
  intros Hw Hst. unfold FE.attempt, send_request. rewrite Hw.
  unfold raise_for_status. rewrite bool_decide_eq_true_2 by exact Hst. reflexivity.
Qed.

(** The retried loop of [FEApi._do_request] when [k] transient failures come
    before a good response. *)
Lemma fe_retry_then_ok (k : nat) :
  ∀ (n : nat) (w : world) (result : option response) (r : response),
    (k ≤ n)%nat ->
    (∀ i, (i < k)%nat ->
          ∃ e, wire ρ (length (sent w) + i) rq = Fails e ∧ Retries.transient e = true) ->
    wire ρ (length (sent w) + k) rq = Responds r ->
    ¬ Wire.error_status (status_code r) ->
    Retries.retry_timeouts (S n) (FE.attempt rq) result ρ w
    = (Ok None, Some r, Wire.sending (replicate (S k) rq) w).
Proof.
  induction k as [| k IH]; intros n w result r Hk Hfail Hok Hst.
  - rewrite Nat.add_0_r in Hok.
    apply retry_first_done. by apply fe_attempt_ok.
  - destruct n as [| n]; [lia |].
    destruct (Hfail 0%nat) as (e & He & Htr); [lia |].
    rewrite Nat.add_0_r in He.
    change (Retries.retry_timeouts (S (S n)) (FE.attempt rq) result ρ w) with
      (match FE.attempt rq result ρ w with
       | (Raise e, l', w') =>
           if Retries.transient e
           then Retries.retry_timeouts (S n) (FE.attempt rq) l' ρ w'
           else (Raise e, l', w')
       | done => done
       end).
    rewrite (fe_attempt_fails result w e He), Htr.
    rewrite (IH n (Wire.sending [rq] w) result r).
    + rewrite sending_sending. reflexivity.
    + lia.
    + intros i Hi. destruct (Hfail (S i)) as (e' & He' & Htr'); [lia |].
      exists e'. split; [| exact Htr'].
      simpl. rewrite length_app. simpl.
      replace (length (sent w) + 1 + i)%nat with (length (sent w) + S i)%nat by lia.
      exact He'.
    + simpl. rewrite length_app. simpl.
      replace (length (sent w) + 1 + k)%nat with (length (sent w) + S k)%nat by lia.
      exact Hok.
    + exact Hst.
Qed.

End FE_requests.

(** X1. [FEApi._do_request] retries transient failures: when the first [k]
    tries of the request time out or fail to connect, [k] being within what
    the retry policy allows, and the next try is answered with a status that
    is not 4xx or 5xx, that response is returned; the same GET request, with
    the licence key header and the query, has then been sent [k + 1] times
    and nothing has been logged. *)
Theorem fe_do_request_retries_then_returns :
  ∀ (self : FE.FEApi) (action : string) (urldata : option dict) (ρ : env)
    (w : world) (k : nat) (r : response),
    let rq := Wire.fe_request self action urldata in
    (k ≤ max_retries ρ)%nat →
    (∀ i, (i < k)%nat →
          ∃ e, wire ρ (length (sent w) + i) rq = Fails e ∧ Retries.transient e = true) →
    wire ρ (length (sent w) + k) rq = Responds r →
    ¬ Wire.error_status (status_code r) →
    FE._do_request self action urldata ρ w
    = (Ok (Some r), Wire.sending (replicate (S k) rq) w).
Proof.
  intros self action urldata ρ w k r rq Hk Hfail Hok Hst.
  unfold FE._do_request. cbv zeta.
  match goal with
  | |- context [Retries.retry_timeouts (S ?n) (FE.attempt ?q) None ρ w] =>
      rewrite (fe_retry_then_ok self action urldata ρ k n w None r Hk Hfail Hok Hst
               : Retries.retry_timeouts (S n) (FE.attempt q) None ρ w = _)
  end.
  reflexivity.
Qed.

Lemma fe_do_request_retries_then_returns_witness :
  FE._do_request Scenario.fe "v1/pim-future/lookup" None WireMore.flaky fresh
  = (Ok (Some {| status_code := 200; body := Some (JOffers []) |}),
     Wire.sending
       (replicate 2 (Wire.fe_request Scenario.fe "v1/pim-future/lookup" None)) fresh).
Proof.
  refine (fe_do_request_retries_then_returns Scenario.fe "v1/pim-future/lookup" None
            WireMore.flaky fresh 1 _ _ _ _ _).
  - simpl. lia.
  - intros i Hi. exists ReadTimeout. destruct i as [| i]; [| lia].
    split; reflexivity.
  - reflexivity.
  - unfold Wire.error_status. simpl. lia.
Defined.

(** X2. [FEApi._do_request] on a client error that the upstream explains:
    when the request is answered with a status from 400 to 499 other than
    429, and a JSON body whose ["errors"] array begins with an entry that has
    a ["message"], the request is not tried again; one error quoting exactly
    that message is logged, under the prefix "TI API error: " that this file
    shares with the TI adapter, and [None] is returned. *)
Theorem fe_do_request_error_status_is_logged :
  ∀ (self : FE.FEApi) (action : string) (urldata : option dict) (ρ : env)
    (w : world) (status : Z) (e : api_error) (es : list api_error) (text : string),
    let rq := Wire.fe_request self action urldata in
    wire ρ (length (sent w)) rq
    = Responds {| status_code := status; body := Some (JErrors (e :: es)) |} →
    (400 ≤ status < 500)%Z →
    status ≠ 429%Z →
    message e = Some text →
    FE._do_request self action urldata ρ w
    = (Ok None,
       Wire.logging [Wire.request_error action text] (Wire.sending [rq] w)).
Proof.
  intros self action urldata ρ w status e es text rq Hw Hst _ Htext.
  unfold FE._do_request. cbv zeta.
  match goal with
  | |- context [Retries.retry_timeouts (S ?n) (FE.attempt ?q) None ρ w] =>
      assert (Retries.retry_timeouts (S n) (FE.attempt q) None ρ w
              = (Raise (HTTPError status),
                 Some {| status_code := status; body := Some (JErrors (e :: es)) |},
                 Wire.sending [rq] w)) as ->
  end.
  { apply retry_first_raise; [| reflexivity].
    apply (fe_attempt_http_error self action urldata ρ _ w _ Hw).
    unfold Wire.error_status. simpl. lia. }
  simpl. unfold on_request_error, try_except, bind. simpl.
  unfold get_message. rewrite Htext. reflexivity.
Qed.

Lemma fe_do_request_error_status_is_logged_witness :
  FE._do_request Scenario.fe "v1/pim-future/lookup" None WireMore.forbidden fresh
  = (Ok None,
     Wire.logging [Wire.request_error "v1/pim-future/lookup" "invalid key"]
       (Wire.sending [Wire.fe_request Scenario.fe "v1/pim-future/lookup" None] fresh)).
Proof.
  refine (fe_do_request_error_status_is_logged Scenario.fe "v1/pim-future/lookup" None
            WireMore.forbidden fresh 401
            {| errorCode := None; message := Some "invalid key" |} [] "invalid key"
            _ _ _ _).
  - reflexivity.
  - lia.
  - discriminate.
  - reflexivity.
Defined.

Section TI_requests.

Variable self : TI.TIApi.
Variable ρ : env.

Lemma getOauthToken_cached (w : world) :
  Wire.token_good ρ w ->
  TI._getOauthToken self ρ w = (Ok (Some (oauthAccessToken w)), Wire.ticked w).
Proof.
  intros Hgood. unfold Wire.token_good in Hgood.
  unfold TI._getOauthToken, bind, time_monotonic, TI.read. simpl.
  rewrite Hgood. reflexivity.
Qed.

Lemma ti_attempt_cached action urldata (result : option response) (w : world)
    (r : response) :
  Wire.token_good ρ w ->
  wire ρ (length (sent w)) (Wire.ti_request action urldata (oauthAccessToken w))
  = Responds r ->
  Wire.ti_accepts (status_code r) ->
  TI.attempt
    (TI.send (Some (TI._getOauthToken self)) (TI.BASE_URL ++ action)%string urldata
             [("Accept", "application/json")] None) result ρ w
  = (Ok None, Some r,
     Wire.sending [Wire.ti_request action urldata (oauthAccessToken w)] (Wire.ticked w)).
Proof.
  intros Hgood Hw Hst. unfold TI.attempt, TI.send, bind.
  rewrite (getOauthToken_cached w Hgood). simpl. unfold send_request. simpl.
  unfold Wire.ti_request in Hw. simpl in Hw. rewrite Hw.
  unfold ret. cbn beta iota.
  destruct Hst as [H | [H | H]].
  - rewrite H. reflexivity.
  - rewrite H. reflexivity.
  - destruct (negb _ && negb _ && negb _); [| reflexivity].
    unfold raise_for_status. rewrite bool_decide_eq_false_2 by exact H.
    reflexivity.
Qed.

Lemma ti_api_call_cached action urldata (w : world) (r : response) :
  Wire.token_good ρ w ->
  wire ρ (length (sent w)) (Wire.ti_request action urldata (oauthAccessToken w))
  = Responds r ->
  Wire.ti_accepts (status_code r) ->
  TI._api_call self action urldata ρ w
  = (Ok (Some r),
     Wire.sending [Wire.ti_request action urldata (oauthAccessToken w)] (Wire.ticked w)).
Proof.
  intros Hgood Hw Hst.
  unfold TI._api_call, TI._do_request, TI._do_request_with. cbv zeta.
  match goal with
  | |- context [Retries.retry_timeouts (S ?k) ?b None ρ w] =>
      rewrite (retry_first_done ρ b k None w None (Some r) _
                 (ti_attempt_cached action urldata None w r Hgood Hw Hst))
  end.
  reflexivity.
Qed.

(** The same once the token getter has supplied a token, whether from the
    cache or by asking the token endpoint. *)
Lemma ti_attempt_token action urldata (result : option response) (w w1 : world)
    (token : string) (r : response) :
  TI._getOauthToken self ρ w = (Ok (Some token), w1) ->
  wire ρ (length (sent w1)) (Wire.ti_request action urldata token) = Responds r ->
  Wire.ti_accepts (status_code r) ->
  TI.attempt
    (TI.send (Some (TI._getOauthToken self)) (TI.BASE_URL ++ action)%string urldata
             [("Accept", "application/json")] None) result ρ w
  = (Ok None, Some r, Wire.sending [Wire.ti_request action urldata token] w1).
Proof.
  intros Htoken Hw Hst. unfold TI.attempt, TI.send, bind.
  rewrite Htoken. simpl. unfold send_request. simpl.
  unfold Wire.ti_request in Hw. simpl in Hw. rewrite Hw.
  unfold ret. cbn beta iota.
  destruct Hst as [H | [H | H]].
  - rewrite H. reflexivity.
  - rewrite H. reflexivity.
  - destruct (negb _ && negb _ && negb _); [| reflexivity].
    unfold raise_for_status. rewrite bool_decide_eq_false_2 by exact H.
    reflexivity.
Qed.

Lemma ti_api_call_token action urldata (w w1 : world) (token : string)
    (r : response) :
  TI._getOauthToken self ρ w = (Ok (Some token), w1) ->
  wire ρ (length (sent w1)) (Wire.ti_request action urldata token) = Responds r ->
  Wire.ti_accepts (status_code r) ->
  TI._api_call self action urldata ρ w
  = (Ok (Some r), Wire.sending [Wire.ti_request action urldata token] w1).
Proof.
  intros Htoken Hw Hst.
  unfold TI._api_call, TI._do_request, TI._do_request_with. cbv zeta.
  match goal with
  | |- context [Retries.retry_timeouts (S ?k) ?b None ρ w] =>
      rewrite (retry_first_done ρ b k None w None (Some r) _
                 (ti_attempt_token action urldata None w w1 token r Htoken Hw Hst))
  end.
  reflexivity.
Qed.

End TI_requests.



(** X4. [TI.search] when the exact part number is refused: once
    [_getOauthToken] has supplied a token (the cached one, or one that the
    token endpoint has just granted), a 403 or 404 answer to the exact-part
    request makes [search] return no records and count 0; after what getting
    the token took, that request is the only one sent, the product search
    by generic part number is not tried and nothing more is logged. *)
Theorem ti_search_stops_when_exact_part_is_refused :
  ∀ (self : TI.TIApi) (ρ : env) (fuel : nat) (search_term : string)
    (w w1 : world) (token : string) (r : response),
    let rq := WireTI.product_request self search_term token in
    TI._getOauthToken self ρ w = (Ok (Some token), w1) →
    wire ρ (length (sent w1)) rq = Responds r →
    status_code r = 403%Z ∨ status_code r = 404%Z →
    TI.search self fuel search_term ρ w
    = (Ok ([], 0%Z), Wire.sending [rq] w1).
Proof.
  intros self ρ fuel search_term w w1 token r rq Htoken Hw Hst.
  assert (Wire.ti_accepts (status_code r)) as Hacc.
  { destruct Hst as [H | H]; [left | right; left]; exact H. }
  unfold TI.search, TI._searchForExactPart, TI.product, bind.
  match goal with
  | |- context [TI._api_call self ?a ?u ρ w] =>
      rewrite (ti_api_call_token self ρ _ _ w w1 token r Htoken Hw Hacc
               : TI._api_call self a u ρ w = _)
  end.
  destruct Hst as [H | H]; rewrite H; reflexivity.
Qed.

Lemma ti_search_stops_when_exact_part_is_refused_witness :
  TI.search Scenario.ti 1 "OPA1"
    (Tokens.granting_then {| status_code := 404; body := None |}) Tokens.initial
  = (Ok ([], 0%Z),
     Wire.sending [WireTI.product_request Scenario.ti "OPA1" "fresh"]
       (Tokens.granted Scenario.ti
          (Tokens.granting_then {| status_code := 404; body := None |})
          Tokens.initial "fresh" 3600%float)).
Proof.
  refine (ti_search_stops_when_exact_part_is_refused Scenario.ti
            (Tokens.granting_then {| status_code := 404; body := None |}) 1
            "OPA1" Tokens.initial _ "fresh" {| status_code := 404; body := None |} _ _ _).
  - reflexivity.
  - reflexivity.
  - right. reflexivity.
Defined.

(** X5. [TI.search] when the exact part number exists: once [_getOauthToken]
    has supplied a token (the cached one, or one just granted), a product
    document answered to the exact-part request, with a status that is not
    403, 404 or an error status, makes [search] return exactly that
    product's record, with count 1; after what getting the token took, that
    request is the only one sent. *)
Theorem ti_search_returns_the_exact_part :
  ∀ (self : TI.TIApi) (ρ : env) (fuel : nat) (search_term : string)
    (w w1 : world) (token : string) (status : Z) (ti_part : TIJson.part),
    let rq := WireTI.product_request self search_term token in
    TI._getOauthToken self ρ w = (Ok (Some token), w1) →
    wire ρ (length (sent w1)) rq
    = Responds {| status_code := status; body := Some (JProduct ti_part) |} →
    Spec.passes status →
    ¬ Wire.error_status status →
    TI.search self fuel search_term ρ w
    = (Ok ([TI.get_api_part self ti_part], 1%Z), Wire.sending [rq] w1).
Proof.
  intros self ρ fuel search_term w w1 token status ti_part rq Htoken Hw Hpass Hst.
  unfold TI.search, TI._searchForExactPart, TI.product, bind.
  match goal with
  | |- context [TI._api_call self ?a ?u ρ w] =>
      rewrite (ti_api_call_token self ρ _ _ w w1 token _ Htoken Hw
                 (or_intror (or_intror Hst))
               : TI._api_call self a u ρ w = _)
  end.
  simpl. rewrite (passes_test _ Hpass). reflexivity.
Qed.

Lemma ti_search_returns_the_exact_part_witness :
  TI.search Scenario.ti 1 "OPA1" Tokens.granting Tokens.initial
  = (Ok ([TI.get_api_part Scenario.ti Scenario.part_a], 1%Z),
     Wire.sending [WireTI.product_request Scenario.ti "OPA1" "fresh"]
       (Tokens.granted Scenario.ti Tokens.granting Tokens.initial "fresh" 3600%float)).
Proof.
  refine (ti_search_returns_the_exact_part Scenario.ti Tokens.granting 1
            "OPA1" Tokens.initial _ "fresh" 200 Scenario.part_a _ _ _ _).
  - reflexivity.
  - reflexivity.
  - split; discriminate.
  - unfold Wire.error_status. lia.
Defined.

(** X6. [_getOauthToken] and a token that is not a bearer token: when the
    cached token is no longer good and the token endpoint answers (with a
    status that is not an error status) a token whose type is not "bearer",
    one error naming the type is logged, [None] is returned, and the cached
    token and its expiry stay as they were. *)
Theorem oauth_rejects_unknown_token_type :
  ∀ (self : TI.TIApi) (ρ : env) (w : world) (status : Z)
    (token_type token : string) (expires_in : float),
    ¬ Wire.token_good ρ w →
    wire ρ (length (sent w)) (Spec.token_request self)
    = Responds {| status_code := status;
                  body := Some (JToken token_type token expires_in) |} →
    ¬ Wire.error_status status →
    token_type ≠ "bearer" →
    TI._getOauthToken self ρ w
    = (Ok None,
       Wire.logging [WireMore.unknown_token_type token_type]
         (Wire.sending [Spec.token_request self] (Wire.ticked w))).
Proof.
  intros self ρ w status token_type token expires_in Hstale Hw Hst Htype.
  assert ((monotonic ρ (ticks w) <? oauthValidUntil w - 60)%float = false) as Hcmp.
  { apply not_true_iff_false. exact Hstale. }
  unfold TI._getOauthToken, bind, time_monotonic, TI.read. simpl.
  rewrite Hcmp.
  match goal with
  | |- context [TI._do_request_with None ?a ?u ?b ρ ?w1] =>
      rewrite (token_fetch_ok self ρ w1 _ Hw Hst
               : TI._do_request_with None a u b ρ w1 = _)
  end.
  simpl. unfold raise_for_status.
  rewrite bool_decide_eq_false_2 by exact Hst. simpl.
  apply String.eqb_neq in Htype. rewrite Htype. reflexivity.
Qed.

Lemma oauth_rejects_unknown_token_type_witness :
  TI._getOauthToken Scenario.ti WireMore.mac_token fresh
  = (Ok None,
     Wire.logging [WireMore.unknown_token_type "mac"]
       (Wire.sending [Spec.token_request Scenario.ti] (Wire.ticked fresh))).
Proof.
  refine (oauth_rejects_unknown_token_type Scenario.ti WireMore.mac_token fresh
            200 "mac" "token" 3600%float _ _ _ _).
  - intros H. discriminate H.
  - reflexivity.
  - unfold Wire.error_status. lia.
  - discriminate.
Defined.

Section Search_results.

Lemma map_M_length {A B} (f : A -> M B) (l : list A) :
  ∀ ρ w ys w', TI.map_M f l ρ w = (Ok ys, w') -> length ys = length l.
Proof.
  induction l as [| x l IH]; intros ρ w ys w' H; simpl in H.
  - injection H as <- _. reflexivity.
  - unfold bind in H. destruct (f x ρ w) as [[y | e |] w1]; try discriminate.
    destruct (TI.map_M f l ρ w1) as [[ys' | e |] w2] eqn:Hrec; try discriminate.
    injection H as <- _. simpl. f_equal. by eapply IH.
Qed.

Lemma map_M_products (self : TI.TIApi) (l : list TIJson.part) ρ w :
  TI.map_M (TI.get_api_part_of self) (map JProduct l) ρ w
  = (Ok (map (TI.get_api_part self) l), w).
Proof.
  revert w. induction l as [| p l IH]; intros w; [reflexivity |].
  simpl. unfold bind. simpl. rewrite IH. reflexivity.
Qed.

End Search_results.

(** X7. The count that [search] reports is the number of records it returns,
    in both adapters and whatever the upstream answered: whenever
    [FE.search] or [TI.search] returns, the second component of the pair is
    the length of the first. *)
Theorem search_count_is_number_of_records :
  (∀ (self : FE.FEApi) (search_term : string) (ρ : env) (w w' : world)
     (records : list Base.ApiPart) (count : Z),
     FE.search self search_term ρ w = (Ok (records, count), w') →
     count = Z.of_nat (length records))
  ∧ (∀ (self : TI.TIApi) (fuel : nat) (search_term : string) (ρ : env) (w w' : world)
       (records : list Base.ApiPart) (count : Z),
       TI.search self fuel search_term ρ w = (Ok (records, count), w') →
       count = Z.of_nat (length records)).
Proof.
  split.
  - intros self search_term ρ w w' records count H.
    unfold FE.search, bind in H.
    destruct (FE.lookup self search_term FE.CONTAINS ρ w) as [[[j |] | e |] w1];
      try discriminate.
    + destruct j; try discriminate. simpl in H. injection H as <- <- _.
      by rewrite length_map.
    + injection H as <- <- _. reflexivity.
  - intros self fuel search_term ρ w w' records count H.
    unfold TI.search in H. unfold bind at 1 in H.
    destruct (TI._searchForExactPart self search_term ρ w) as [[found | e |] w1];
      try discriminate.
    assert (∀ (l : option (list json)) w2,
              (match l with
               | Some ti_parts =>
                   bind (TI.map_M (TI.get_api_part_of self) ti_parts)
                     (fun parts => ret (parts, Z.of_nat (length ti_parts)))
               | None => ret ([], 0%Z)
               end) ρ w2 = (Ok (records, count), w') ->
              count = Z.of_nat (length records)) as Hfinal.
    { intros [l |] w2 Hl.
      - unfold bind in Hl.
        destruct (TI.map_M (TI.get_api_part_of self) l ρ w2) as [[ys | e |] w3] eqn:Hm;
          try discriminate.
        injection Hl as <- <- _. by rewrite (map_M_length _ _ _ _ _ _ Hm).
      - injection Hl as <- <- _. reflexivity. }
    unfold bind at 1 in H.
    destruct found as [[| j l] |].
    + unfold bind at 1 in H.
      destruct (TI.products self fuel search_term ρ w1) as [[ps | e |] w2];
        try discriminate.
      exact (Hfinal (option_map (map JProduct) ps) w2 H).
    + exact (Hfinal (Some (j :: l)) w1 H).
    + exact (Hfinal None w1 H).
Qed.

Lemma search_count_is_number_of_records_witness :
  1%Z = Z.of_nat (length [TI.get_api_part Scenario.ti Scenario.part_a])
  ∧ 0%Z = Z.of_nat (length (@nil Base.ApiPart)).
Proof.
  split.
  - refine (proj2 search_count_is_number_of_records Scenario.ti 1%nat "OPA1"
              WireMore.found Scenario.logged_in
              (snd (TI.search Scenario.ti 1%nat "OPA1" WireMore.found Scenario.logged_in))
              _ _ _).
    reflexivity.
  - refine (proj1 search_count_is_number_of_records Scenario.fe "X"
              Scenario.fe_no_match fresh
              (snd (FE.search Scenario.fe "X" Scenario.fe_no_match fresh)) _ _ _).
    reflexivity.
Defined.

Section TI_search.

Variable self : TI.TIApi.
Variable ρ : env.

Lemma product_token (opn : string) (w w1 : world) (token : string) (status : Z)
    (j : json) :
  TI._getOauthToken self ρ w = (Ok (Some token), w1) ->
  wire ρ (length (sent w1)) (WireTI.product_request self opn token)
  = Responds {| status_code := status; body := Some j |} ->
  Spec.passes status ->
  ¬ Wire.error_status status ->
  TI.product self opn ρ w
  = (Ok (Some j), Wire.sending [WireTI.product_request self opn token] w1).
Proof.
  intros Htoken Hw Hpass Hst. unfold TI.product, bind.
  match goal with
  | |- context [TI._api_call self ?a ?u ρ w] =>
      rewrite (ti_api_call_token self ρ _ _ w w1 token _ Htoken Hw
                 (or_intror (or_intror Hst))
               : TI._api_call self a u ρ w = _)
  end.
  cbn [status_code]. rewrite (passes_test _ Hpass). reflexivity.
Qed.

(** The loop over the errors goes past the errors with another code and
    stops at the first ERR-TICOM-INV-API-1002. *)
Lemma opn_unknown_found (known errors : list api_error) (message : option string)
    (w : world) :
  Forall (fun e => ∃ code, errorCode e = Some code ∧ code ≠ "ERR-TICOM-INV-API-1002")
         known ->
  TI.opn_unknown
    (known ++ {| errorCode := Some "ERR-TICOM-INV-API-1002"; message := message |}
           :: errors) ρ w
  = (Ok true, w).
Proof.
  induction known as [| e known IH]; intros Hknown; [reflexivity |].
  apply Forall_cons in Hknown. destruct Hknown as [(code & Hcode & Hother) Hknown].
  simpl. unfold bind, TI.get_errorCode. rewrite Hcode. simpl.
  apply String.eqb_neq in Hother. rewrite Hother. by apply IH.
Qed.

Lemma exact_part_unknown_anywhere (search_term : string) (w w1 : world)
    (known errors : list api_error) (message : option string) :
  Forall (fun e => ∃ code, errorCode e = Some code ∧ code ≠ "ERR-TICOM-INV-API-1002")
         known ->
  TI.product self search_term ρ w
  = (Ok (Some (JErrors
                 (known ++ {| errorCode := Some "ERR-TICOM-INV-API-1002";
                              message := message |} :: errors))), w1) ->
  TI._searchForExactPart self search_term ρ w = (Ok (Some []), w1).
Proof.
  intros Hknown H. unfold TI._searchForExactPart. unfold bind at 1. rewrite H.
  pose proof (opn_unknown_found known errors message w1 Hknown) as Hloop.
  destruct known as [| e known]; cbn [app] in *; cbv beta iota; unfold bind;
    rewrite Hloop; reflexivity.
Qed.

Lemma products_pages (fuel : nat) (term : string) (w w' : world)
    (pages : list (Z * list TIJson.part)) (status : Z) (content : list TIJson.part) :
  Spec.served self "v2/store/products" ρ (Cases.products_query self term) 0 w
    (Spec.inner_pages pages ++ [Some (Spec.page status content true)]) w' ->
  Forall (fun sc => Spec.passes sc.1) pages ->
  Spec.passes status ->
  (length pages < fuel)%nat ->
  TI.products self fuel term ρ w
  = (Ok (Some (concat (map snd pages) ++ content)), w').
Proof.
  intros Hserved Hall Hpass Hfuel. unfold TI.products, TI._paginate_api_call.
  exact (paginate_loop_last self "v2/store/products" ρ
           (Cases.products_query self term) pages fuel 0%Z []
           (Some (Cases.products_query self term)) w w' status content
           (fun q => eq_refl) Hserved Hall Hpass Hfuel).
Qed.

End TI_search.

(** X8. [TI.search] falls back to the product search: once [_getOauthToken]
    has supplied a token (the cached one, or one just granted), when the store
    answers the exact-part request, with a status that is not 403, 404 or an
    error status, by an error document in which ERR-TICOM-INV-API-1002
    comes after errors of other codes only, [search] goes on to the paginated
    product search by generic part number; and when its page requests are
    answered, none with 403 or 404, and end with a page that reports
    [last = true], it returns the records of all their products in page
    order, with their number as count. *)
Theorem ti_search_falls_back_to_product_search :
  ∀ (self : TI.TIApi) (ρ : env) (fuel : nat) (search_term : string)
    (w w1 w' : world) (token : string) (status1 : Z)
    (known : list api_error) (message : option string) (errors : list api_error)
    (pages : list (Z * list TIJson.part)) (status : Z) (content : list TIJson.part),
    let rq := WireTI.product_request self search_term token in
    let found := concat (map snd pages) ++ content in
    TI._getOauthToken self ρ w = (Ok (Some token), w1) →
    wire ρ (length (sent w1)) rq
    = Responds {| status_code := status1;
                  body := Some (JErrors
                                  (known
                                   ++ {| errorCode := Some "ERR-TICOM-INV-API-1002";
                                         message := message |} :: errors)) |} →
    Forall (fun e => ∃ code, errorCode e = Some code ∧ code ≠ "ERR-TICOM-INV-API-1002")
           known →
    Spec.passes status1 →
    ¬ Wire.error_status status1 →
    Spec.served self "v2/store/products" ρ (Cases.products_query self search_term) 0
      (Wire.sending [rq] w1)
      (Spec.inner_pages pages ++ [Some (Spec.page status content true)]) w' →
    Forall (fun sc => Spec.passes sc.1) pages →
    Spec.passes status →
    (length pages < fuel)%nat →
    TI.search self fuel search_term ρ w
    = (Ok (map (TI.get_api_part self) found, Z.of_nat (length found)), w').
Proof.
  intros self ρ fuel search_term w w1 w' token status1 known message errors pages
    status content rq found Htoken Hw Hknown Hpass1 Hst1 Hserved Hall Hpass Hfuel.
  subst rq.
  pose proof (exact_part_unknown_anywhere self ρ search_term w _ known errors message
                Hknown
                (product_token self ρ search_term w w1 token status1 _
                   Htoken Hw Hpass1 Hst1))
    as Hexact.
  pose proof (products_pages self ρ fuel search_term _ w' pages status content
                Hserved Hall Hpass Hfuel) as Hproducts.
  unfold TI.search, bind. rewrite Hexact.
  unfold bind. rewrite Hproducts. cbn -[TI.map_M]. fold found.
  rewrite map_M_products, length_map. reflexivity.
Qed.

Lemma ti_search_falls_back_to_product_search_witness :
  ∃ w', TI.search Scenario.ti 2 "OPA1" Cases.granted_unknown_then_two_pages
          Tokens.initial
        = (Ok (map (TI.get_api_part Scenario.ti) [Scenario.part_a; Scenario.part_b], 2%Z),
           w').
Proof.
  eexists.
  refine (ti_search_falls_back_to_product_search Scenario.ti
            Cases.granted_unknown_then_two_pages 2 "OPA1" Tokens.initial
            (Tokens.granted Scenario.ti Cases.granted_unknown_then_two_pages
               Tokens.initial "fresh" 3600%float)
            _ "fresh" 200
            [ {| errorCode := Some "ERR-TICOM-INV-API-1000"; message := None |} ]
            (Some "unknown part") [] [(200%Z, [Scenario.part_a])] 200 [Scenario.part_b]
            _ _ _ _ _ _ _ _ _).
  - reflexivity.
  - reflexivity.
  - constructor; [| constructor]. eexists. split; [reflexivity | discriminate].
  - split; discriminate.
  - unfold Wire.error_status. lia.
  - eapply Spec.served_cons; [reflexivity |].
    eapply Spec.served_cons; [reflexivity |].
    apply Spec.served_nil.
  - constructor; [split; discriminate | constructor].
  - split; discriminate.
  - simpl. lia.
Defined.

Section Endless.

Variable self : TI.TIApi.
Variable action : string.
Variable ρ : env.

(** A turn of the loop on a page that is not the last goes on to the next
    turn. *)
Lemma paginate_loop_goes_on (inv : world -> Prop) :
  (∀ w d p, inv w ->
     ∃ status content w',
       Spec.passes status
       ∧ TI._api_call self action (Some (TI.page_query d p)) ρ w
         = (Ok (Some (Spec.page status content false)), w')
       ∧ inv w') ->
  ∀ fuel urldata results page w,
    inv w ->
    fst (TI.paginate_loop self action fuel urldata results page ρ w) = OutOfFuel.
Proof.
  intros Hpage. induction fuel as [| fuel IH]; intros urldata results page w Hinv.
  - reflexivity.
  - destruct (Hpage w (default [] urldata) page Hinv)
      as (status & content & w1 & Hpass & Hcall & Hinv1).
    simpl. unfold bind. rewrite Hcall. cbn [status_code Spec.page].
    rewrite (passes_test _ Hpass). simpl. by apply IH.
Qed.

End Endless.

(** X9. [_paginate_api_call] has no bound of its own: when every page request
    is answered with a page that does not report [last = true], the loop does
    not return, however many turns it is given.  ([inv] is any property of
    the adapter's state that such answers preserve, e.g. that the cached token
    stays good.) *)
Theorem paginate_does_not_return_without_last_page :
  ∀ (self : TI.TIApi) (action : string) (urldata : option dict) (ρ : env)
    (inv : world → Prop),
    (∀ w d p, inv w →
       ∃ status content w',
         Spec.passes status
         ∧ TI._api_call self action (Some (TI.page_query d p)) ρ w
           = (Ok (Some (Spec.page status content false)), w')
         ∧ inv w') →
    ∀ (fuel : nat) (w : world),
      inv w →
      fst (TI._paginate_api_call self fuel action urldata ρ w) = OutOfFuel.
Proof.
  intros self action urldata ρ inv Hpage fuel w Hinv.
  unfold TI._paginate_api_call. by eapply paginate_loop_goes_on.
Qed.

Lemma paginate_does_not_return_without_last_page_witness :
  fst (TI._paginate_api_call Scenario.ti 50 "v2/store/products" None
         Cases.endless Scenario.logged_in) = OutOfFuel.
Proof.
  refine (paginate_does_not_return_without_last_page Scenario.ti "v2/store/products"
            None Cases.endless
            (fun w => oauthValidUntil w = 1000%float) _ 50%nat Scenario.logged_in _).
  - intros w d p Hw. exists 200%Z, [Scenario.part_a]. eexists.
    split; [split; discriminate |]. split.
    + apply ti_api_call_cached.
      * unfold Wire.token_good. rewrite Hw. reflexivity.
      * reflexivity.
      * right. right. unfold Wire.error_status. simpl. lia.
    + exact Hw.
  - reflexivity.
Defined.

Section Attributes.

Lemma dict_of_attributes (k : string) (attributes : list FEJson.attribute) :
  Base.dict_of (map (fun v => (FEJson.name v, FEJson.value v)) attributes) !! k
  = Cases.last_attribute k attributes.
Proof.
  unfold Cases.last_attribute.
  induction attributes as [| a attributes IH] using rev_ind; [reflexivity |].
  rewrite map_app. simpl. rewrite dict_of_snoc, filter_app.
  destruct (decide (FEJson.name a = k)) as [Heq | Hne].
  - rewrite Heq, lookup_insert_eq.
    rewrite filter_cons_True by exact Heq.
    rewrite filter_nil, last_snoc. reflexivity.
  - rewrite lookup_insert_ne by exact Hne.
    rewrite filter_cons_False by exact Hne.
    rewrite filter_nil, app_nil_r. exact IH.
Qed.

End Attributes.

(** X11. The text fields that [FE.get_api_part] takes from the part
    attributes: [description], [manufacturer] and [packaging] are the values
    of the last attribute named "description (en)", "manufacturerName" and
    "packageType" respectively, and the empty string when the item has no
    attribute of that name. *)
Theorem fe_text_fields_from_last_attribute :
  ∀ fe_part : FEJson.part,
    let attributes := FEJson.part_attributes fe_part in
    let record := FE.get_api_part fe_part in
    Base.description record
    = default "" (Cases.last_attribute "description (en)" attributes)
    ∧ Base.manufacturer record
      = default "" (Cases.last_attribute "manufacturerName" attributes)
    ∧ Base.packaging record
      = default "" (Cases.last_attribute "packageType" attributes).
Proof.
  intros fe_part attributes record. subst record. simpl. fold attributes.
  by rewrite !dict_of_attributes.
Qed.

(** X12. [search] without a supplier: when no supplier identifier is given
    ([None] or the empty string), every loaded supplier is searched, in the
    order of the supplier table, and one handle per supplier is returned in
    that order, whether [only_supplier] is set or not; nothing is logged. *)
Theorem search_covers_all_suppliers_by_default :
  ∀ {Supplier Company Class : Type}
    `{EqDecision Supplier} `{EqDecision Company}
    (σ : Suppliers.site Supplier Class) (search_term : string)
    (supplier_id : option string) (only_supplier : bool)
    (g g1 : Suppliers.globals Supplier Company)
    (suppliers : Suppliers.odict (Supplier * Company)),
    Suppliers.given supplier_id = None →
    Suppliers.ensure_suppliers g = (Ok suppliers, g1) →
    Suppliers.search σ search_term supplier_id only_supplier g
    = (Ok (Some (map (Spec.entry_of search_term) (map snd suppliers))),
       Spec.submitted g1 (map (Spec.handle_of search_term) (map snd suppliers))).
Proof.
  intros Supplier Company Class ? ? σ search_term supplier_id only_supplier g g1
    suppliers Hgiven Hensure.
  unfold Suppliers.search, Suppliers.rbind at 1. rewrite Hensure, Hgiven.
  unfold Suppliers.rbind. rewrite dispatch_spec. reflexivity.
Qed.

Lemma search_covers_all_suppliers_by_default_witness :
  Suppliers.search Scenario.five_files "LM358" None true Scenario.ready
  = (Ok (Some [("Future Electronics",
                {| Suppliers.scheduled_on := "FE"; Suppliers.scheduled_term := "LM358" |});
               ("Texas Instruments",
                {| Suppliers.scheduled_on := "TI"; Suppliers.scheduled_term := "LM358" |});
               ("DigiKey",
                {| Suppliers.scheduled_on := "DK"; Suppliers.scheduled_term := "LM358" |})]),
     Spec.submitted (snd (Suppliers.ensure_suppliers Scenario.ready))
       (map (Spec.handle_of "LM358")
            [("FE", "Future Electronics"); ("TI", "Texas Instruments");
             ("DK", "DigiKey")])).
Proof.
  refine (search_covers_all_suppliers_by_default Scenario.five_files "LM358" None true
            Scenario.ready (snd (Suppliers.ensure_suppliers Scenario.ready))
            [("fe", ("FE", "Future Electronics")); ("ti", ("TI", "Texas Instruments"));
             ("dk", ("DK", "DigiKey"))] _ _).
  - reflexivity.
  - vm_compute. reflexivity.
Defined.



(** X14. [search] before [setup_supplier_companies]: as long as neither the
    supplier table nor the companies have been set up, every call of [search]
    fails its first assertion; nothing is scheduled, nothing is logged and
    the globals are left as they were. *)
Theorem search_before_setup_fails_assertion :
  ∀ {Supplier Company Class : Type}
    `{EqDecision Supplier} `{EqDecision Company}
    (σ : Suppliers.site Supplier Class) (search_term : string)
    (supplier_id : option string) (only_supplier : bool)
    (g : Suppliers.globals Supplier Company),
    Suppliers._SUPPLIERS g = None →
    Suppliers._SUPPLIER_COMPANIES g = None →
    Suppliers.search σ search_term supplier_id only_supplier g
    = (Raise (AssertionError "call setup_supplier_companies(...) first"), g).
Proof.
  intros Supplier Company Class ? ? σ search_term supplier_id only_supplier g H1 H2.
  unfold Suppliers.search, Suppliers.rbind at 1, Suppliers.ensure_suppliers.
  rewrite H1, H2. reflexivity.
Qed.

Lemma search_before_setup_fails_assertion_witness :
  Suppliers.search Scenario.five_files "LM358" (Some "ti") false Scenario.unset
  = (Raise (AssertionError "call setup_supplier_companies(...) first"), Scenario.unset).
Proof.
  refine (search_before_setup_fails_assertion Scenario.five_files "LM358" (Some "ti")
            false Scenario.unset _ _); reflexivity.
Defined.

Section Registry_more.

Context {Supplier Company Class : Type}.

Lemma odict_set_fresh {V} (k : string) (v : V) (d : Suppliers.odict V) :
  k ∉ map fst d → Suppliers.odict_set k v d = d ++ [(k, v)].
Proof.
  induction d as [| [k' v'] d IH]; intros Hk; simpl; [reflexivity |].
  simpl in Hk. apply not_elem_of_cons in Hk. destruct Hk as [Hne Hk].
  destruct (String.eqb_spec k' k) as [-> | _]; [congruence |].
  by rewrite IH.
Qed.

Lemma odict_set_keys {V} (k : string) (v : V) (d : Suppliers.odict V) :
  map fst (Suppliers.odict_set k v d)
  = if decide (k ∈ map fst d) then map fst d else map fst d ++ [k].
Proof.
  induction d as [| [k' v'] d IH].
  - simpl. destruct (decide (k ∈ [])) as [Hin | _]; [| reflexivity].
    by apply elem_of_nil in Hin.
  - cbn [Suppliers.odict_set]. destruct (String.eqb_spec k' k) as [-> | Hne].
    + simpl. destruct (decide (k ∈ k :: map fst d)) as [_ | Hnin]; [reflexivity |].
      exfalso. apply Hnin, elem_of_cons. by left.
    + simpl. rewrite IH.
      destruct (decide (k ∈ map fst d)) as [Hin | Hnin];
        destruct (decide (k ∈ k' :: map fst d)) as [Hin' | Hnin']; try reflexivity.
      * exfalso. apply Hnin', elem_of_cons. by right.
      * apply elem_of_cons in Hin'. destruct Hin' as [-> | Hin']; congruence.
Qed.

Lemma odict_set_NoDup {V} (k : string) (v : V) (d : Suppliers.odict V) :
  NoDup (map fst d) → NoDup (map fst (Suppliers.odict_set k v d)).
Proof.
  intros Hnd. rewrite odict_set_keys.
  destruct (decide (k ∈ map fst d)) as [Hin | Hnin]; [exact Hnd |].
  apply NoDup_app. split; [exact Hnd |]. split; [| apply NoDup_singleton].
  intros x Hx Hk. apply list_elem_of_singleton in Hk. by subst.
Qed.

Lemma foldl_odict_set_fresh {V} (l : list (string * V)) :
  ∀ acc : Suppliers.odict V,
    NoDup (map fst (acc ++ l)) →
    foldl (fun d kv => Suppliers.odict_set kv.1 kv.2 d) acc l = acc ++ l.
Proof.
  induction l as [| [k v] l IH]; intros acc Hnd; simpl.
  - by rewrite app_nil_r.
  - rewrite odict_set_fresh.
    + rewrite IH; rewrite <- app_assoc; [reflexivity | exact Hnd].
    + rewrite map_app in Hnd. apply NoDup_app in Hnd. destruct Hnd as (_ & Hnd & _).
      intros Hk. apply (Hnd k Hk). simpl. apply elem_of_cons. by left.
Qed.

Lemma odict_of_NoDup {V} (l : list (string * V)) :
  NoDup (map fst l) → Suppliers.odict_of l = l.
Proof. intros Hnd. unfold Suppliers.odict_of. by rewrite foldl_odict_set_fresh. Qed.

Lemma foldl_odict_set_NoDup {V} (l : list (string * V)) :
  ∀ acc : Suppliers.odict V,
    NoDup (map fst acc) →
    NoDup (map fst (foldl (fun d kv => Suppliers.odict_set kv.1 kv.2 d) acc l)).
Proof.
  induction l as [| [k v] l IH]; intros acc Hnd; simpl; [exact Hnd |].
  apply IH. by apply odict_set_NoDup.
Qed.

(** The discovery loop touches nothing but the log, and it keeps the
    identifiers found so far distinct. *)
Lemma discover_inv (σ : Suppliers.site Supplier Class) (stems : list string) :
  ∀ (bound : bool) (available : Suppliers.odict Supplier)
    (g g' : Suppliers.globals Supplier Company) (r : res (Suppliers.odict Supplier)),
    Suppliers.discover σ stems bound available g = (r, g') →
    (∃ entries, g' = Spec.logged g entries)
    ∧ (NoDup (map fst available) → ∀ found, r = Ok found → NoDup (map fst found)).
Proof.
  induction stems as [| module_name stems IH]; intros bound available g g' r.
  - simpl. intros [= <- <-]. split.
    + exists []. by rewrite logged_nil.
    + intros Hnd found [= <-]. exact Hnd.
  - simpl. destruct (Suppliers.load_module σ bound module_name) as [classes | e].
    + destruct classes as [| cls [| cls' classes]].
      * unfold Suppliers.rbind, Suppliers.error, Suppliers.report. intros Hrun.
        apply IH in Hrun. destruct Hrun as [[entries ->] Hnd]. split; [| exact Hnd].
        eexists (_ :: entries). unfold Spec.logged. simpl.
        by rewrite <- app_assoc.
      * intros Hrun. apply IH in Hrun. destruct Hrun as [Hlog Hnd].
        split; [exact Hlog |]. intros Hav. apply Hnd. by apply odict_set_NoDup.
      * unfold Suppliers.rbind, Suppliers.error, Suppliers.report. intros Hrun.
        apply IH in Hrun. destruct Hrun as [[entries ->] Hnd]. split; [| exact Hnd].
        eexists (_ :: entries). unfold Spec.logged. simpl.
        by rewrite <- app_assoc.
    + destruct (is_ImportError e).
      * unfold Suppliers.rbind, Suppliers.error, Suppliers.report. intros Hrun.
        apply IH in Hrun. destruct Hrun as [[entries ->] Hnd]. split; [| exact Hnd].
        eexists (_ :: entries). unfold Spec.logged. simpl.
        by rewrite <- app_assoc.
      * intros [= <- <-]. split; [| discriminate].
        exists []. by rewrite logged_nil.
Qed.

Lemma paired_keys (objects : Suppliers.odict Supplier)
    (companies : Suppliers.odict Company) :
  map fst objects = map fst companies →
  map fst (Registry.paired objects companies) = map fst objects.
Proof.
  intros Hkeys. unfold Registry.paired. apply fst_zip.
  rewrite length_zip_with, !length_map.
  assert (length objects = length companies) as <-
    by (rewrite <- (length_map fst objects), Hkeys; apply length_map).
  lia.
Qed.

Lemma paired_get (objects : Suppliers.odict Supplier) :
  ∀ (companies : Suppliers.odict Company) (id : string),
    map fst objects = map fst companies →
    Suppliers.odict_get id (Registry.paired objects companies)
    = match Suppliers.odict_get id objects, Suppliers.odict_get id companies with
      | Some supplier_object, Some api_company => Some (supplier_object, api_company)
      | _, _ => None
      end.
Proof.
  induction objects as [| [k o] objects IH]; intros [| [k' c] companies] id Hkeys;
    try discriminate; [reflexivity |].
  injection Hkeys as <- Hkeys. unfold Registry.paired. simpl.
  destruct (String.eqb k id); [reflexivity |]. by apply IH.
Qed.

Lemma ensure_suppliers_paired (g : Suppliers.globals Supplier Company)
    (objects : Suppliers.odict Supplier) (companies : Suppliers.odict Company) :
  Suppliers._SUPPLIERS g = None →
  Suppliers._SUPPLIER_OBJECTS g = Some objects →
  Suppliers._SUPPLIER_COMPANIES g = Some companies →
  map fst objects = map fst companies →
  NoDup (map fst objects) →
  Suppliers.ensure_suppliers g
  = (Ok (Registry.paired objects companies),
     Registry.with_table g (Registry.paired objects companies)).
Proof.
  intros Htable Hobjects Hcompanies Hkeys Hnd.
  unfold Suppliers.ensure_suppliers. rewrite Htable, Hcompanies, Hobjects.
  rewrite bool_decide_eq_true_2 by (by rewrite Hkeys).
  fold (Registry.paired objects companies).
  rewrite odict_of_NoDup by (by rewrite paired_keys).
  unfold Registry.with_table. by rewrite Hcompanies, Hobjects.
Qed.





End Registry_more.

(** X15. The supplier table that [search] builds on its first call: when the
    loaded suppliers and their companies are keyed by the same identifiers in
    the same order, the table has these identifiers in that order, and under
    each identifier the supplier object and the company that the two
    dictionaries hold under it. *)
Theorem supplier_table_pairs_by_identifier :
  ∀ {Supplier Company : Type} `{EqDecision Supplier} `{EqDecision Company}
    (g : Suppliers.globals Supplier Company)
    (objects : Suppliers.odict Supplier) (companies : Suppliers.odict Company),
    Suppliers._SUPPLIERS g = None →
    Suppliers._SUPPLIER_OBJECTS g = Some objects →
    Suppliers._SUPPLIER_COMPANIES g = Some companies →
    map fst objects = map fst companies →
    NoDup (map fst objects) →
    ∃ table,
      Suppliers.ensure_suppliers g = (Ok table, Registry.with_table g table)
      ∧ map fst table = map fst objects
      ∧ ∀ id,
          Suppliers.odict_get id table
          = match Suppliers.odict_get id objects, Suppliers.odict_get id companies with
            | Some supplier_object, Some api_company => Some (supplier_object, api_company)
            | _, _ => None
            end.
Proof.
  intros Supplier Company ? ? g objects companies Htable Hobjects Hcompanies Hkeys Hnd.
  exists (Registry.paired objects companies). split; [| split].
  - by apply ensure_suppliers_paired.
  - by apply paired_keys.
  - intros id. by apply paired_get.
Qed.

Lemma supplier_table_pairs_by_identifier_witness :
  ∃ table,
    Suppliers.ensure_suppliers Scenario.ready
    = (Ok table, Registry.with_table Scenario.ready table)
    ∧ map fst table = ["fe"; "ti"; "dk"]
    ∧ ∀ id,
        Suppliers.odict_get id table
        = match Suppliers.odict_get id [("fe", "FE"); ("ti", "TI"); ("dk", "DK")],
                Suppliers.odict_get id
                  [("fe", "Future Electronics"); ("ti", "Texas Instruments");
                   ("dk", "DigiKey")] with
          | Some supplier_object, Some api_company => Some (supplier_object, api_company)
          | _, _ => None
          end.
Proof.
  refine (supplier_table_pairs_by_identifier Scenario.ready
            [("fe", "FE"); ("ti", "TI"); ("dk", "DK")]
            [("fe", "Future Electronics"); ("ti", "Texas Instruments"); ("dk", "DigiKey")]
            _ _ _ _ _); try reflexivity.
  apply (bool_decide_unpack _). vm_compute. exact I.
Defined.

(** X16. [get_supplier_classes] answers from its cache: once a call has
    returned the loaded suppliers, every later call returns the same
    dictionary and changes nothing, whatever has become of the supplier
    modules in the meantime. *)
Theorem get_supplier_classes_answers_from_cache :
  ∀ {Supplier Company Class : Type}
    (σ σ' : Suppliers.site Supplier Class) (g g' : Suppliers.globals Supplier Company)
    (loaded : Suppliers.odict Supplier),
    Suppliers.get_supplier_classes σ g = (Ok loaded, g') →
    Suppliers.get_supplier_classes σ' g' = (Ok loaded, g').
Proof.
  intros Supplier Company Class σ σ' g g' loaded.
  unfold Suppliers.get_supplier_classes.
  destruct (Suppliers._SUPPLIER_OBJECTS g) as [objects |] eqn:Hobjects.
  - intros [= <- <-]. by rewrite Hobjects.
  - unfold Suppliers.rbind at 1.
    destruct (Suppliers.discover σ (Suppliers.glob σ) false [] _) as [[found | e |] g1];
      [| discriminate | discriminate].
    unfold Suppliers.rbind. case_bool_decide; simpl; intros [= <- <-]; reflexivity.
Qed.

Lemma get_supplier_classes_answers_from_cache_witness :
  Suppliers.get_supplier_classes Scenario.broken_file
    (snd (Suppliers.get_supplier_classes Scenario.five_files Scenario.unset))
  = (Ok [("fe", "FE")],
     snd (Suppliers.get_supplier_classes Scenario.five_files Scenario.unset)).
Proof.
  refine (get_supplier_classes_answers_from_cache Scenario.five_files Scenario.broken_file
            Scenario.unset _ [("fe", "FE")] _).
  vm_compute. reflexivity.
Defined.

(** X17. A discovery that an exception cuts short leaves an empty registry
    behind: [_SUPPLIER_OBJECTS] was set to the empty dictionary before the
    modules were visited, so every later call of [get_supplier_classes]
    returns no supplier at all, visits no module and logs nothing. *)
Theorem aborted_discovery_leaves_empty_registry :
  ∀ {Supplier Company Class : Type}
    (σ σ' : Suppliers.site Supplier Class) (g g' : Suppliers.globals Supplier Company)
    (e : exn),
    Suppliers.get_supplier_classes σ g = (Raise e, g') →
    Suppliers.get_supplier_classes σ' g' = (Ok [], g')
    ∧ Suppliers.AVAILABLE_SUPPLIERS g' = Suppliers.AVAILABLE_SUPPLIERS g.
Proof.
  intros Supplier Company Class σ σ' g g' e.
  unfold Suppliers.get_supplier_classes.
  destruct (Suppliers._SUPPLIER_OBJECTS g) as [objects |] eqn:Hobjects; [discriminate |].
  unfold Suppliers.rbind at 1.
  destruct (Suppliers.discover σ (Suppliers.glob σ) false [] _)
    as [[found | e' |] g1] eqn:Hdiscover.
  - unfold Suppliers.rbind. case_bool_decide; simpl; discriminate.
  - intros [= <- <-]. apply discover_inv in Hdiscover.
    destruct Hdiscover as [[entries ->] _]. split; reflexivity.
  - discriminate.
Qed.

Lemma aborted_discovery_leaves_empty_registry_witness :
  Suppliers.get_supplier_classes Scenario.five_files
    (snd (Suppliers.get_supplier_classes Scenario.broken_file Scenario.unset))
  = (Ok [], snd (Suppliers.get_supplier_classes Scenario.broken_file Scenario.unset))
  ∧ Suppliers.AVAILABLE_SUPPLIERS
      (snd (Suppliers.get_supplier_classes Scenario.broken_file Scenario.unset))
    = None.
Proof.
  refine (aborted_discovery_leaves_empty_registry Scenario.broken_file Scenario.five_files
            Scenario.unset _ (SyntaxError "invalid syntax") _).
  vm_compute. reflexivity.
Defined.



Section Companies.

Context {Supplier Company External : Type}.

Variable κ : Setup.collaborators Supplier Company External.

Lemma fill_complete (items : list (string * Supplier)) :
  ∀ (companies : Suppliers.odict Company) (x : External),
    (∀ id supplier_object x, (id, supplier_object) ∈ items →
       ∃ api_company, (Setup.make_company κ id supplier_object x).1 = inr api_company) →
    NoDup (map fst companies ++ map fst items) →
    ∃ made x',
      Setup.fill κ items companies x = (None, companies ++ made, x')
      ∧ map fst made = map fst items.
Proof.
  induction items as [| [id supplier_object] items IH]; intros companies x Hmake Hnd.
  - exists [], x. simpl. by rewrite app_nil_r.
  - simpl.
    destruct (Hmake id supplier_object x) as [api_company Hmade];
      [apply elem_of_cons; by left |].
    destruct (Setup.make_company κ id supplier_object x) as [made x1].
    simpl in Hmade. subst made.
    assert (id ∉ map fst companies) as Hfresh.
    { apply NoDup_app in Hnd. destruct Hnd as (_ & Hnd & _).
      intros Hin. apply (Hnd id Hin). simpl. apply elem_of_cons. by left. }
    rewrite odict_set_fresh by exact Hfresh.
    destruct (IH (companies ++ [(id, api_company)]) x1) as (made & x' & Hfill & Hkeys).
    + intros id' s' x0 Hin. apply Hmake. apply elem_of_cons. by right.
    + rewrite map_app. simpl. rewrite <- app_assoc. exact Hnd.
    + exists ((id, api_company) :: made), x'. rewrite Hfill. split.
      * by rewrite <- app_assoc.
      * simpl. by rewrite Hkeys.
Qed.

Lemma fill_refused (id : string) (items : list (string * Supplier)) :
  ∀ (companies companies' : Suppliers.odict Company) (x x' : External)
    (raised : option exn),
    (∀ supplier_object x, (id, supplier_object) ∈ items →
       ∃ e, (Setup.make_company κ id supplier_object x).1 = inl e) →
    id ∉ map fst companies →
    Setup.fill κ items companies x = (raised, companies', x') →
    id ∉ map fst companies'.
Proof.
  induction items as [| [id' supplier_object] items IH];
    intros companies companies' x x' raised Hrefuse Hfresh.
  - simpl. intros [= _ <- _]. exact Hfresh.
  - simpl.
    destruct (Setup.make_company κ id' supplier_object x) as [[e | api_company] x1]
      eqn:Hmake.
    + intros [= _ <- _]. exact Hfresh.
    + assert (id' ≠ id) as Hne.
      { intros ->. destruct (Hrefuse supplier_object x) as [e He];
          [apply elem_of_cons; by left |].
        rewrite Hmake in He. discriminate. }
      apply IH.
      * intros s' x0 Hin. apply Hrefuse. apply elem_of_cons. by right.
      * rewrite odict_set_keys.
        destruct (decide (id' ∈ map fst companies)); [exact Hfresh |].
        intros [Hin | Hin]%elem_of_app; [by apply Hfresh |].
        apply list_elem_of_singleton in Hin. congruence.
Qed.

End Companies.

(** X20. [setup_supplier_companies] makes a first [search] ready: as long as
    no search has built the supplier table yet ([_SUPPLIERS] is still [None]),
    when the configuration opens and the inventory hands back a company for
    every loaded supplier, the companies are keyed like the loaded suppliers,
    both assertions of [search] hold, and a search without a supplier returns
    one handle per loaded supplier, in loading order, each with the company
    of the same identifier. *)
Theorem setup_makes_search_ready :
  ∀ {Supplier Company Class External : Type}
    `{EqDecision Supplier} `{EqDecision Company}
    (κ : Setup.collaborators Supplier Company External)
    (σ : Suppliers.site Supplier Class)
    (g : Suppliers.globals Supplier Company) (x : External)
    (objects : Suppliers.odict Supplier) (search_term : string) (only_supplier : bool),
    Suppliers._SUPPLIERS g = None →
    Suppliers._SUPPLIER_OBJECTS g = Some objects →
    NoDup (map fst objects) →
    (∀ x, (Setup.enter κ x).1 = None) →
    (∀ id supplier_object x, (id, supplier_object) ∈ objects →
       ∃ api_company, (Setup.make_company κ id supplier_object x).1 = inr api_company) →
    let g' := (Setup.setup_supplier_companies κ g x).2.1 in
    ∃ companies,
      Suppliers._SUPPLIER_COMPANIES g' = Some companies
      ∧ map fst companies = map fst objects
      ∧ let table := Registry.paired objects companies in
        Suppliers.search σ search_term None only_supplier g'
        = (Ok (Some (map (Spec.entry_of search_term) (map snd table))),
           Spec.submitted (Registry.with_table g' table)
             (map (Spec.handle_of search_term) (map snd table))).
Proof.
  intros Supplier Company Class External ? ? κ σ g x objects search_term only_supplier
    Htable Hobjects Hnd Henter Hmake g'.
  destruct (fill_complete κ objects [] (Setup.enter κ x).2 Hmake Hnd)
    as (companies & x2 & Hfill & Hkeys).
  assert (g' = Setup.with_companies g companies) as Hg'.
  { unfold g', Setup.setup_supplier_companies.
    specialize (Henter x). destruct (Setup.enter κ x) as [raised x1].
    simpl in Henter, Hfill. subst raised. rewrite Hobjects, Hfill. simpl.
    by destruct (Setup.leave κ None x2) as [[e |] x3]. }
  exists companies. rewrite Hg'. split; [reflexivity |]. split; [exact Hkeys |].
  cbv zeta. unfold Suppliers.search, Suppliers.rbind at 1.
  rewrite (ensure_suppliers_paired _ objects companies) by (simpl; done).
  rewrite (eq_refl : Suppliers.given None = None).
  unfold Suppliers.rbind. rewrite dispatch_spec. reflexivity.
Qed.

Lemma setup_makes_search_ready_witness :
  let g' := (Setup.setup_supplier_companies Installations.willing
               Installations.loaded 0%nat).2.1 in
  ∃ companies,
    Suppliers._SUPPLIER_COMPANIES g' = Some companies
    ∧ map fst companies = ["fe"; "ti"; "dk"]
    ∧ let table :=
        Registry.paired [("fe", "FE"); ("ti", "TI"); ("dk", "DK")] companies in
      Suppliers.search Scenario.five_files "LM358" None false g'
      = (Ok (Some (map (Spec.entry_of "LM358") (map snd table))),
         Spec.submitted (Registry.with_table g' table)
           (map (Spec.handle_of "LM358") (map snd table))).
Proof.
  refine (setup_makes_search_ready Installations.willing Scenario.five_files
            Installations.loaded 0%nat [("fe", "FE"); ("ti", "TI"); ("dk", "DK")]
            "LM358" false _ _ _ _ _).
  - reflexivity.
  - reflexivity.
  - apply (bool_decide_unpack _). vm_compute. exact I.
  - intros x. reflexivity.
  - intros id supplier_object x _. eexists. reflexivity.
Defined.

(** X21. An incomplete [setup_supplier_companies] is caught by a first
    [search]: as long as no search has built the supplier table yet
    ([_SUPPLIERS] is still [None]), if the inventory never hands back a
    company for one of the loaded suppliers, then however the set-up ends,
    [_SUPPLIER_COMPANIES] lacks that supplier, and the [search] that follows
    fails its second assertion without scheduling anything, whatever its
    arguments. *)
Theorem search_fails_after_incomplete_setup :
  ∀ {Supplier Company Class External : Type}
    `{EqDecision Supplier} `{EqDecision Company}
    (κ : Setup.collaborators Supplier Company External)
    (σ : Suppliers.site Supplier Class)
    (g : Suppliers.globals Supplier Company) (x : External)
    (objects : Suppliers.odict Supplier) (id : string) (supplier_object : Supplier)
    (search_term : string) (supplier_id : option string) (only_supplier : bool),
    Suppliers._SUPPLIERS g = None →
    Suppliers._SUPPLIER_OBJECTS g = Some objects →
    NoDup (map fst objects) →
    (id, supplier_object) ∈ objects →
    (∀ x, ∃ e, (Setup.make_company κ id supplier_object x).1 = inl e) →
    let g' := (Setup.setup_supplier_companies κ g x).2.1 in
    Suppliers.search σ search_term supplier_id only_supplier g'
    = (Raise (AssertionError ""), g').
Proof.
  intros Supplier Company Class External ? ? κ σ g x objects id supplier_object
    search_term supplier_id only_supplier Htable Hobjects Hnd Hin Hrefuse g'.
  assert (∃ companies, g' = Setup.with_companies g companies ∧ id ∉ map fst companies)
    as (companies & Hg' & Hmissing).
  { unfold g', Setup.setup_supplier_companies.
    destruct (Setup.enter κ x) as [[e |] x1].
    - exists []. split; [reflexivity | apply not_elem_of_nil].
    - rewrite Hobjects.
      destruct (Setup.fill κ objects [] x1) as [[raised companies] x2] eqn:Hfill.
      exists companies. split.
      + by destruct (Setup.leave κ raised x2) as [[e |] x3].
      + eapply (fill_refused κ id); [| | exact Hfill]; [| apply not_elem_of_nil].
        intros s' x0 Hin'.
        assert (s' = supplier_object) as ->; [| apply Hrefuse].
        clear -Hnd Hin Hin'. induction objects as [| [k o] objects IH].
        * by apply elem_of_nil in Hin.
        * simpl in Hnd. apply NoDup_cons in Hnd. destruct Hnd as [Hk Hnd].
          apply elem_of_cons in Hin. apply elem_of_cons in Hin'.
          destruct Hin as [Heq | Hin]; destruct Hin' as [Heq' | Hin'].
          -- congruence.
          -- exfalso. injection Heq as <- _. apply Hk.
             apply (list_elem_of_fmap_2 fst) in Hin'. exact Hin'.
          -- exfalso. injection Heq' as <- _. apply Hk.
             apply (list_elem_of_fmap_2 fst) in Hin. exact Hin.
          -- by apply IH. }
  rewrite Hg'. unfold Suppliers.search, Suppliers.rbind at 1, Suppliers.ensure_suppliers.
  simpl. rewrite Htable, Hobjects.
  rewrite bool_decide_eq_false_2; [reflexivity |].
  intros Hsets. apply Hmissing.
  apply (list_elem_of_fmap_2 fst) in Hin. simpl in Hin.
  apply (elem_of_list_to_set (C := gset string)).
  rewrite <- Hsets. by apply elem_of_list_to_set.
Qed.

Lemma search_fails_after_incomplete_setup_witness :
  let g' := (Setup.setup_supplier_companies Installations.refusing
               Installations.loaded 0%nat).2.1 in
  Suppliers.search Scenario.five_files "LM358" (Some "fe") false g'
  = (Raise (AssertionError ""), g').
Proof.
  refine (search_fails_after_incomplete_setup Installations.refusing Scenario.five_files
            Installations.loaded 0%nat [("fe", "FE"); ("ti", "TI"); ("dk", "DK")]
            "ti" "TI" "LM358" (Some "fe") false _ _ _ _ _).
  - reflexivity.
  - reflexivity.
  - apply (bool_decide_unpack _). vm_compute. exact I.
  - apply elem_of_cons. right. apply elem_of_cons. by left.
  - intros x. eexists. reflexivity.
Defined.

Section Token_refresh.

Variable self : TI.TIApi.
Variable ρ : env.

Lemma getOauthToken_refreshed (w : world) (status : Z) (token : string)
    (expires_in : float) :
  ¬ Wire.token_good ρ w ->
  wire ρ (length (sent w)) (Spec.token_request self)
  = Responds (Tokens.grant status token expires_in) ->
  ¬ Wire.error_status status ->
  TI._getOauthToken self ρ w
  = (Ok (Some token), Tokens.granted self ρ w token expires_in).
Proof.
  intros Hstale Hwire Hstatus.
  assert ((monotonic ρ (ticks w) <? oauthValidUntil w - 60)%float = false) as Hcmp.
  { apply not_true_iff_false. exact Hstale. }
  unfold TI._getOauthToken, bind, time_monotonic, TI.read. simpl.
  rewrite Hcmp.
  match goal with
  | |- context [TI._do_request_with None ?a ?u ?b ρ ?w1] =>
      rewrite (token_fetch_ok self ρ w1 _ Hwire Hstatus
               : TI._do_request_with None a u b ρ w1 = _)
  end.
  simpl. unfold raise_for_status.
  rewrite bool_decide_eq_false_2 by exact Hstatus. reflexivity.
Qed.

End Token_refresh.



(** X23. A granted token is reused: after [_getOauthToken] has stored a token
    with its expiry, a second call whose clock reading is below that expiry
    minus 60, the difference and the comparison being those of the program
    on binary64 numbers, returns the token granted and sends nothing. *)
Theorem granted_token_is_reused :
  ∀ (self : TI.TIApi) (ρ : env) (w : world) (status : Z) (token : string)
    (expires_in : float),
    ¬ Wire.token_good ρ w →
    wire ρ (length (sent w)) (Spec.token_request self)
    = Responds (Tokens.grant status token expires_in) →
    ¬ Wire.error_status status →
    (monotonic ρ (S (ticks w)) <? (monotonic ρ (ticks w) + expires_in) - 60)%float
    = true →
    let w1 := snd (TI._getOauthToken self ρ w) in
    TI._getOauthToken self ρ w1 = (Ok (Some token), Wire.ticked w1)
    ∧ sent w1 = sent w ++ [Spec.token_request self].
Proof.
  intros self ρ w status token expires_in Hstale Htoken Hstatus Hsoon w1.
  unfold w1.
  rewrite (getOauthToken_refreshed self ρ w status token expires_in Hstale Htoken Hstatus).
  simpl. split; [| reflexivity].
  by rewrite (getOauthToken_cached self ρ (Tokens.granted self ρ w token expires_in)).
Qed.

Lemma granted_token_is_reused_witness :
  let w1 := snd (TI._getOauthToken Scenario.ti Tokens.granting Tokens.initial) in
  TI._getOauthToken Scenario.ti Tokens.granting w1 = (Ok (Some "fresh"), Wire.ticked w1)
  ∧ sent w1 = [] ++ [Spec.token_request Scenario.ti].
Proof.
  refine (granted_token_is_reused Scenario.ti Tokens.granting Tokens.initial 200
            "fresh" 3600%float _ _ _ _).
  - intros H. discriminate H.
  - reflexivity.
  - unfold Wire.error_status. lia.
  - reflexivity.
Defined.

Section Sorting.

Context {A : Type} `{EqDecision A}.

Variable key : A -> Z.

Lemma insert_reverse_perm (x : A) (l : list A) :
  Cli.insert_reverse key x l ≡ₚ x :: l.
Proof.
  induction l as [| y l IH]; simpl; [reflexivity |].
  destruct (key x <? key y)%Z; [| reflexivity].
  rewrite IH. apply Permutation_swap.
Qed.

Lemma sorted_reverse_perm (l : list A) : Cli.sorted_reverse key l ≡ₚ l.
Proof.
  induction l as [| x l IH]; simpl; [reflexivity |].
  rewrite insert_reverse_perm. by constructor.
Qed.

Lemma insert_reverse_top (top : A) (l : list A) :
  (∀ y, y ∈ l → (key y ≤ key top)%Z) →
  Cli.insert_reverse key top l = top :: l.
Proof.
  destruct l as [| y l]; intros Hbelow; simpl; [reflexivity |].
  destruct (Z.ltb_spec (key top) (key y)) as [Hlt | _]; [| reflexivity].
  assert (key y ≤ key top)%Z by (apply Hbelow, elem_of_cons; by left). lia.
Qed.

(** The one item whose key is above all others comes first. *)
Lemma sorted_reverse_head (top : A) (l : list A) :
  top ∈ l →
  (∀ x, x ∈ l → x ≠ top → (key x < key top)%Z) →
  ∃ rest, Cli.sorted_reverse key l = top :: rest.
Proof.
  induction l as [| x l IH]; intros Hin Hbelow.
  - by apply elem_of_nil in Hin.
  - assert (∀ y, y ∈ l → y ≠ top → (key y < key top)%Z) as Hbelow'
      by (intros y Hy; apply Hbelow; apply elem_of_cons; by right).
    simpl. destruct (decide (x = top)) as [-> | Hne].
    + rewrite insert_reverse_top; [by eexists |].
      intros y Hy. rewrite sorted_reverse_perm in Hy.
      destruct (decide (y = top)) as [-> | Hy']; [lia |].
      specialize (Hbelow' y Hy Hy'). lia.
    + apply elem_of_cons in Hin. destruct Hin as [-> | Hin]; [congruence |].
      destruct (IH Hin Hbelow') as [rest ->]. simpl.
      assert (key x < key top)%Z as Hlt
        by (apply Hbelow; [apply elem_of_cons; by left | exact Hne]).
      apply Z.ltb_lt in Hlt. rewrite Hlt. by eexists.
Qed.

End Sorting.

Section Stripping.

Lemma lstrip_head (s : string) :
  Cli.lstrip s = "" ∨ ∃ c t, Cli.lstrip s = String c t ∧ Cli.isspace c = false.
Proof.
  induction s as [| c s IH]; simpl; [by left |].
  destruct (Cli.isspace c) eqn:Hc; [exact IH |].
  right. by exists c, s.
Qed.

Lemma append_cons (c : Ascii.ascii) (a b : string) :
  String c a +:+ b = String c (a +:+ b).
Proof. reflexivity. Qed.

Lemma append_nil (b : string) : "" +:+ b = b.
Proof. reflexivity. Qed.

Lemma lstrip_split (s : string) :
  ∃ pre, s = pre +:+ Cli.lstrip s ∧ Cli.blank pre = true.
Proof.
  induction s as [| c s IH]; simpl; [by exists "" |].
  destruct (Cli.isspace c) eqn:Hc.
  - destruct IH as (pre & Hs & Hpre). exists (String c pre). split.
    + rewrite append_cons. by rewrite <- Hs.
    + simpl. by rewrite Hc, Hpre.
  - by exists "".
Qed.

Lemma rstrip_head (c : Ascii.ascii) (s : string) :
  Cli.isspace c = false → ∃ t, Cli.rstrip (String c s) = String c t.
Proof.
  intros Hc. simpl. destruct (Cli.rstrip s); [rewrite Hc |]; by eexists.
Qed.

Lemma rstrip_last (s : string) :
  Cli.rstrip s = ""
  ∨ ∃ t c, Cli.rstrip s = t +:+ String c "" ∧ Cli.isspace c = false.
Proof.
  induction s as [| c s IH]; simpl; [by left |].
  destruct (Cli.rstrip s) as [| c' kept].
  - destruct (Cli.isspace c) eqn:Hc; [by left |].
    right. by exists "", c.
  - right. destruct IH as [IH | (t & c0 & Ht & Hc0)]; [discriminate |].
    exists (String c t), c0. rewrite append_cons. by rewrite <- Ht.
Qed.

Lemma rstrip_split (s : string) :
  ∃ post, s = Cli.rstrip s +:+ post ∧ Cli.blank post = true.
Proof.
  induction s as [| c s IH]; simpl; [by exists "" |].
  destruct IH as (post & Hs & Hpost).
  destruct (Cli.rstrip s) as [| c' kept].
  - rewrite append_nil in Hs. subst s.
    destruct (Cli.isspace c) eqn:Hc.
    + exists (String c post). split; [reflexivity |].
      simpl. by rewrite Hc, Hpost.
    + exists post. by split.
  - exists post. split; [| exact Hpost]. rewrite append_cons. by rewrite <- Hs.
Qed.

Lemma append_assoc (a b c : string) : (a +:+ b) +:+ c = a +:+ (b +:+ c).
Proof.
  induction a as [| x a IH]; [reflexivity |].
  by rewrite !append_cons, IH.
Qed.

(** [strip] takes white space away at both ends, and nothing else. *)
Lemma strip_spec (s : string) :
  (∃ pre post, s = (pre +:+ (Cli.strip s +:+ post))
               ∧ Cli.blank pre = true ∧ Cli.blank post = true)
  ∧ (Cli.strip s ≠ "" →
       (∃ c t, Cli.strip s = String c t ∧ Cli.isspace c = false)
       ∧ (∃ t c, Cli.strip s = t +:+ String c "" ∧ Cli.isspace c = false)).
Proof.
  unfold Cli.strip. split.
  - destruct (lstrip_split s) as (pre & Hs & Hpre).
    destruct (rstrip_split (Cli.lstrip s)) as (post & Hl & Hpost).
    exists pre, post. split; [| by split].
    rewrite <- Hl. exact Hs.
  - intros Hne. split.
    + destruct (lstrip_head s) as [Hl | (c & t & Hl & Hc)].
      * rewrite Hl in Hne. by destruct Hne.
      * rewrite Hl. destruct (rstrip_head c t Hc) as [t' Ht']. rewrite Ht'.
        by exists c, t'.
    + destruct (rstrip_last (Cli.lstrip s)) as [Hr | Hr]; [by destruct Hne | exact Hr].
Qed.

End Stripping.

Section Columns.

Lemma odict_of_snoc {V} (l : list (string * V)) (k : string) (v : V) :
  Suppliers.odict_of (l ++ [(k, v)]) = Suppliers.odict_set k v (Suppliers.odict_of l).
Proof. unfold Suppliers.odict_of. by rewrite foldl_app. Qed.

Lemma odict_get_set_eq {V} (k : string) (v : V) (d : Suppliers.odict V) :
  Suppliers.odict_get k (Suppliers.odict_set k v d) = Some v.
Proof.
  induction d as [| [k' v'] d IH]; simpl.
  - by rewrite String.eqb_refl.
  - destruct (String.eqb k' k) eqn:Hk; simpl.
    + by rewrite String.eqb_refl.
    + by rewrite Hk.
Qed.

Lemma odict_get_set_ne {V} (k k0 : string) (v : V) (d : Suppliers.odict V) :
  k0 ≠ k →
  Suppliers.odict_get k (Suppliers.odict_set k0 v d) = Suppliers.odict_get k d.
Proof.
  intros Hne. induction d as [| [k' v'] d IH]; simpl.
  - apply String.eqb_neq in Hne. by rewrite Hne.
  - destruct (String.eqb_spec k' k0) as [-> | Hk0]; simpl.
    + apply String.eqb_neq in Hne. by rewrite Hne.
    + destruct (String.eqb k' k); [reflexivity | exact IH].
Qed.

(** Looking a key up in [dict(pairs)] gives the value of its last pair. *)
Lemma odict_get_of {V} (k : string) (l : list (string * V)) :
  Suppliers.odict_get k (Suppliers.odict_of l)
  = last (map snd (filter (fun kv => kv.1 = k) l)).
Proof.
  induction l as [| [k0 v] l IH] using rev_ind; [reflexivity |].
  rewrite odict_of_snoc, filter_app, map_app.
  destruct (decide (k0 = k)) as [-> | Hne].
  - rewrite odict_get_set_eq.
    rewrite filter_cons_True by reflexivity.
    rewrite filter_nil. simpl. by rewrite last_snoc.
  - rewrite odict_get_set_ne by exact Hne.
    rewrite filter_cons_False by exact Hne.
    rewrite filter_nil. simpl. by rewrite app_nil_r.
Qed.

Lemma odict_of_keys {V} (l : list (string * V)) (k : string) :
  k ∈ map fst (Suppliers.odict_of l) ↔ k ∈ map fst l.
Proof.
  induction l as [| [k0 v] l IH] using rev_ind; [reflexivity |].
  rewrite odict_of_snoc, odict_set_keys, map_app, elem_of_app. simpl.
  destruct (decide (k0 ∈ map fst (Suppliers.odict_of l))) as [Hin | Hnin].
  - rewrite IH. split; [by left |].
    intros [H | H]; [exact H |]. apply list_elem_of_singleton in H. subst.
    by apply IH.
  - by rewrite elem_of_app, IH.
Qed.

Lemma filter_filter_key {V} (k : string) (l : list (string * V)) :
  k ≠ "" →
  filter (fun kv => kv.1 = k) (filter (fun kv : string * V => kv.1 ≠ "") l)
  = filter (fun kv => kv.1 = k) l.
Proof.
  intros Hk. induction l as [| [k0 v] l IH]; [reflexivity |].
  destruct (decide (k0 = "")) as [-> | Hne].
  - rewrite (filter_cons_False (fun kv : string * V => kv.1 ≠ "")) by (simpl; tauto).
    rewrite (filter_cons_False (fun kv : string * V => kv.1 = k)) by (simpl; congruence).
    exact IH.
  - rewrite (filter_cons_True (fun kv : string * V => kv.1 ≠ "")) by exact Hne.
    destruct (decide (k0 = k)) as [-> | Hne'].
    + rewrite !(filter_cons_True (fun kv : string * V => kv.1 = k)) by reflexivity.
      by rewrite IH.
    + rewrite !(filter_cons_False (fun kv : string * V => kv.1 = k)) by exact Hne'.
      exact IH.
Qed.

(** The keys of the header dictionary are the non-blank stripped headers. *)
Lemma headers_of_keys (data : Cli.Dataset) (k : string) :
  k ∈ map fst (Cli.headers_of data)
  ↔ k ≠ "" ∧ ∃ h, h ∈ Cli.headers data ∧ Cli.strip h = k.
Proof.
  unfold Cli.headers_of. rewrite odict_of_keys, list_elem_of_fmap. split.
  - intros ([k' i] & -> & Hin). apply list_elem_of_filter in Hin.
    destruct Hin as [Hne Hin]. apply elem_of_lookup_imap in Hin.
    destruct Hin as (j & h & [= -> ->] & Hj). split; [exact Hne |].
    exists h. split; [by eapply list_elem_of_lookup_2 | reflexivity].
  - intros (Hne & h & Hin & <-). apply list_elem_of_lookup in Hin.
    destruct Hin as [i Hi]. exists (Cli.strip h, i). split; [reflexivity |].
    apply list_elem_of_filter. split; [exact Hne |].
    apply elem_of_lookup_imap. by exists i, h.
Qed.

Lemma headers_of_NoDup (data : Cli.Dataset) : NoDup (map fst (Cli.headers_of data)).
Proof. apply foldl_odict_set_NoDup. constructor. Qed.

Lemma MPN_HEADERS_nonblank (header : string) : header ∈ Cli.MPN_HEADERS → header ≠ "".
Proof.
  intros Hin ->. unfold Cli.MPN_HEADERS in Hin.
  repeat (apply elem_of_cons in Hin; destruct Hin as [Hin | Hin]; [discriminate |]).
  by apply elem_of_nil in Hin.
Qed.

Lemma column_of_header (data : Cli.Dataset) (header : string) :
  header ≠ "" →
  Suppliers.odict_get header (Cli.headers_of data)
  = Cli.last_column header (Cli.headers data).
Proof.
  intros Hne. unfold Cli.headers_of, Cli.last_column.
  by rewrite odict_get_of, filter_filter_key.
Qed.

End Columns.

Section Loading.

Variable δ : Cli.desk.
Variable path : Cli.Path.
Variable data : Cli.Dataset.

Lemma only_key (l : list string) (k : string) :
  NoDup l → k ∈ l → (∀ k', k' ∈ l → k' = k) → l = [k].
Proof.
  intros Hnd Hin Hall. destruct l as [| a [| b l]].
  - by apply elem_of_nil in Hin.
  - f_equal. apply Hall. apply elem_of_cons. by left.
  - exfalso. apply NoDup_cons in Hnd. destruct Hnd as [Ha _]. apply Ha.
    assert (a = k) as -> by (apply Hall, elem_of_cons; by left).
    assert (b = k) as -> by (apply Hall, elem_of_cons; right; apply elem_of_cons; by left).
    apply elem_of_cons. by left.
Qed.

End Loading.

(** X25. A sheet whose only header is an MPN header cannot be loaded: when all
    non-blank headers of the file are, once stripped, one and the same
    header, and that header is "Manufacturer Part Number" or "MPN",
    [load_tabular_data] looks at a second sorted header that does not exist;
    the [IndexError] is not handled and leaves the function, and no column
    is read. *)
Theorem lone_mpn_header_raises_index_error :
  ∀ (δ : Cli.desk) (path : Cli.Path) (data : Cli.Dataset) (header : string),
    header ∈ Cli.MPN_HEADERS →
    (∃ h, h ∈ Cli.headers data ∧ Cli.strip h = header) →
    (∀ h, h ∈ Cli.headers data → Cli.strip h = "" ∨ Cli.strip h = header) →
    Cli.load_tabular_data δ path (inr data)
    = (inl IndexError, [Cli.Info ("reading " ++ Cli.name path ++ " ...")]).
Proof.
  intros δ path data header Hmpn Hsome Hall.
  assert (map fst (Cli.headers_of data) = [header]) as Hkeys.
  { apply only_key.
    - apply headers_of_NoDup.
    - apply headers_of_keys. split; [by apply MPN_HEADERS_nonblank | exact Hsome].
    - intros k Hk. apply headers_of_keys in Hk. destruct Hk as (Hne & h & Hin & <-).
      destruct (Hall h Hin) as [Hblank | Hsame]; [congruence | exact Hsame]. }
  unfold Cli.load_tabular_data. cbv zeta. rewrite Hkeys. simpl Cli.sorted_reverse.
  unfold Cli.choose_column. rewrite bool_decide_eq_true_2 by exact Hmpn.
  reflexivity.
Qed.

Lemma lone_mpn_header_raises_index_error_witness :
  Cli.load_tabular_data Sheets.desk Sheets.bom
    (inr (Sheets.sheet [(" MPN ", ["LM358"; "NE555"]); ("", ["x"; "y"])]))
  = (inl IndexError, [Cli.Info ("reading " ++ Cli.name Sheets.bom ++ " ...")]).
Proof.
  refine (lone_mpn_header_raises_index_error Sheets.desk Sheets.bom
            (Sheets.sheet [(" MPN ", ["LM358"; "NE555"]); ("", ["x"; "y"])]) "MPN" _ _ _).
  - apply elem_of_cons. right. apply elem_of_cons. by left.
  - exists " MPN ". split; [apply elem_of_cons; by left | reflexivity].
  - intros h Hin. simpl in Hin.
    apply elem_of_cons in Hin. destruct Hin as [-> | Hin]; [by right |].
    apply elem_of_cons in Hin. destruct Hin as [-> | Hin]; [by left |].
    by apply elem_of_nil in Hin.
Defined.



(** X27. The MPN column is taken without asking: when one stripped header is
    "Manufacturer Part Number" or "MPN", the file has other header text as
    well, and every other non-blank header is neither of the two and scores
    strictly lower, [load_tabular_data] shows no prompt and returns the last
    column that carries the MPN header. *)
Theorem mpn_column_is_selected_without_prompt :
  ∀ (δ : Cli.desk) (path : Cli.Path) (data : Cli.Dataset) (header : string)
    (i : nat) (column : list string),
    header ∈ Cli.MPN_HEADERS →
    Cli.last_column header (Cli.headers data) = Some i →
    (∃ other, other ∈ Cli.headers data
              ∧ Cli.strip other ≠ "" ∧ Cli.strip other ≠ header) →
    (∀ h, h ∈ Cli.headers data → Cli.strip h ≠ "" → Cli.strip h ≠ header →
          (Cli.strip h ∉ Cli.MPN_HEADERS)
          ∧ (Cli.mpn_ratio δ (Cli.strip h) < Cli.mpn_ratio δ header)%Z) →
    Cli.get_col data i = inr column →
    Cli.load_tabular_data δ path (inr data)
    = (inr (Some column), [Cli.Info ("reading " ++ Cli.name path ++ " ...")]).
Proof.
  intros δ path data header i column Hmpn Hlast Hother Hothers Hcol.
  pose proof (MPN_HEADERS_nonblank header Hmpn) as Hne.
  pose proof (headers_of_NoDup data) as Hnd.
  set (keys := map fst (Cli.headers_of data)) in *.
  assert (header ∈ keys) as Hin.
  { apply headers_of_keys. split; [exact Hne |].
    apply last_Some_elem_of, list_elem_of_fmap in Hlast.
    destruct Hlast as ([k j] & _ & Hkv). apply list_elem_of_filter in Hkv.
    destruct Hkv as [Hk Hkv]. simpl in Hk. subst k.
    apply elem_of_lookup_imap in Hkv. destruct Hkv as (j' & h & [= Hh _] & Hj).
    exists h. split; [by eapply list_elem_of_lookup_2 | by rewrite Hh]. }
  assert (∀ x, x ∈ keys → x ≠ header →
               (x ∉ Cli.MPN_HEADERS) ∧ (Cli.mpn_ratio δ x < Cli.mpn_ratio δ header)%Z)
    as Hbelow.
  { intros x Hx Hxne. apply headers_of_keys in Hx. destruct Hx as (Hx & h & Hh & <-).
    by apply Hothers. }
  destruct (sorted_reverse_head (Cli.mpn_ratio δ) header keys Hin) as [rest Hsorted].
  { intros x Hx Hxne. by apply Hbelow. }
  pose proof (sorted_reverse_perm (Cli.mpn_ratio δ) keys) as Hperm.
  rewrite Hsorted in Hperm.
  destruct rest as [| second rest].
  { exfalso. destruct Hother as (other & Hin' & Hnb & Hno).
    assert (Cli.strip other ∈ keys) as Hk
      by (apply headers_of_keys; split; [exact Hnb | by exists other]).
    rewrite <- Hperm in Hk. apply list_elem_of_singleton in Hk. congruence. }
  assert (second ∉ Cli.MPN_HEADERS) as Hsecond.
  { apply Hbelow.
    - rewrite <- Hperm. apply elem_of_cons. right. apply elem_of_cons. by left.
    - rewrite <- Hperm in Hnd. apply NoDup_cons in Hnd. destruct Hnd as [Hnd _].
      intros ->. apply Hnd. apply elem_of_cons. by left. }
  unfold Cli.load_tabular_data. cbv zeta. fold keys. rewrite Hsorted.
  unfold Cli.choose_column.
  rewrite bool_decide_eq_true_2 by exact Hmpn.
  rewrite bool_decide_eq_true_2 by exact Hsecond.
  unfold Cli.column_of. rewrite (column_of_header data header Hne), Hlast, Hcol.
  reflexivity.
Qed.

Lemma mpn_column_is_selected_without_prompt_witness :
  Cli.load_tabular_data Sheets.desk Sheets.bom
    (inr (Sheets.sheet [("Qty", ["2"; "1"]); ("MPN", ["old"; "old"]);
                        (" MPN", ["LM358"; "NE555"])]))
  = (inr (Some ["LM358"; "NE555"]),
     [Cli.Info ("reading " ++ Cli.name Sheets.bom ++ " ...")]).
Proof.
  refine (mpn_column_is_selected_without_prompt Sheets.desk Sheets.bom
            (Sheets.sheet [("Qty", ["2"; "1"]); ("MPN", ["old"; "old"]);
                           (" MPN", ["LM358"; "NE555"])])
            "MPN" 2 ["LM358"; "NE555"] _ _ _ _ _).
  - apply elem_of_cons. right. apply elem_of_cons. by left.
  - reflexivity.
  - exists "Qty". split; [apply elem_of_cons; by left |]. split; discriminate.
  - intros h Hin. simpl in Hin.
    apply elem_of_cons in Hin. destruct Hin as [-> | Hin].
    + intros _ _. split; [| reflexivity].
      intros H. apply elem_of_cons in H. destruct H as [H | H]; [discriminate |].
      apply elem_of_cons in H. destruct H as [H | H]; [discriminate |].
      by apply elem_of_nil in H.
    + apply elem_of_cons in Hin. destruct Hin as [-> | Hin]; [intros _ H; by destruct H |].
      apply elem_of_cons in Hin. destruct Hin as [-> | Hin]; [intros _ H; by destruct H |].
      by apply elem_of_nil in Hin.
  - reflexivity.
Defined.

Section Importing.

Context {Shop : Type}.

Variable import_part : string -> option string -> bool -> Shop -> (exn + bool) * Shop.
Variable supplier : option string.
Variable only_supplier : bool.

(** The list [parts] always holds the items still to visit, so that
    [parts.remove] finds its argument; what it holds besides are the parts
    that failed. *)
Lemma import_loop_inv (copy : list string) :
  ∀ (parts kept : list string) (x : Shop),
    parts ≡ₚ kept ++ copy →
    match Cli.import_loop import_part copy parts supplier only_supplier x with
    | (inr remaining, _, _) =>
        remaining ≡ₚ kept ++ Cli.failures import_part copy supplier only_supplier x
    | (inl e, _, _) =>
        ∃ part x0, part ∈ copy ∧ (import_part part supplier only_supplier x0).1 = inl e
    end.
Proof.
  induction copy as [| part copy IH]; intros parts kept x Hperm; simpl.
  - by rewrite app_nil_r in Hperm |- *.
  - destruct (import_part part supplier only_supplier x) as [[e | imported] x'] eqn:Hcall.
    + exists part, x. split; [apply elem_of_cons; by left | by rewrite Hcall].
    + destruct imported.
      * destruct (list_remove_present part parts) as (parts' & -> & Hparts').
        { rewrite Hperm. apply elem_of_app. right. apply elem_of_cons. by left. }
        assert (parts' ≡ₚ kept ++ copy) as Hperm'.
        { apply (Permutation_cons_inv (a := part)).
          rewrite Hparts', Hperm. by rewrite Permutation_middle. }
        specialize (IH parts' kept x' Hperm').
        destruct (Cli.import_loop import_part copy parts' supplier only_supplier x')
          as [[[e | remaining] x''] told].
        -- destruct IH as (p & x0 & Hp & Hraise). exists p, x0.
           split; [apply elem_of_cons; by right | exact Hraise].
        -- exact IH.
      * assert (parts ≡ₚ (kept ++ [part]) ++ copy) as Hperm'
          by (by rewrite <- app_assoc).
        specialize (IH parts (kept ++ [part]) x' Hperm').
        destruct (Cli.import_loop import_part copy parts supplier only_supplier x')
          as [[[e | remaining] x''] told].
        -- destruct IH as (p & x0 & Hp & Hraise). exists p, x0.
           split; [apply elem_of_cons; by right | exact Hraise].
        -- by rewrite <- app_assoc in IH.
Qed.

End Importing.

(** X28. The import loop of the command and its summary: [parts.remove]
    always finds the part it is given, so nothing is raised but what
    [import_part] raises; and when the loop ends, the command reports success
    if no import failed, and otherwise warns with a list that holds, up to
    order, exactly the parts whose import did not succeed, each as often as
    it failed. *)
Theorem import_summary_lists_the_failed_parts :
  ∀ {Shop : Type}
    (import_part : string -> option string -> bool -> Shop -> (exn + bool) * Shop)
    (parts : list string) (supplier : option string) (only_supplier : bool) (x : Shop),
    let failed := Cli.failures import_part parts supplier only_supplier x in
    match Cli.import_all import_part parts supplier only_supplier x with
    | (inr _, _, told) =>
        if decide (failed = []) then last told = Some (Cli.Success "imported all parts!")
        else ∃ listed,
               listed ≡ₚ failed
               ∧ last told
                 = Some (Cli.Warning ("failed to import the following parts:
" ++ Cli.join_lines listed))
    | (inl e, _, _) =>
        ∃ part x0, part ∈ parts ∧ (import_part part supplier only_supplier x0).1 = inl e
    end.
Proof.
  intros Shop import_part parts supplier only_supplier x failed.
  pose proof (import_loop_inv import_part supplier only_supplier parts parts [] x
                (Permutation_refl parts)) as Hloop.
  unfold Cli.import_all.
  destruct (Cli.import_loop import_part parts parts supplier only_supplier x)
    as [[[e | remaining] x'] told]; [exact Hloop |].
  simpl in Hloop. fold failed in Hloop.
  destruct remaining as [| part remaining].
  - apply Permutation_nil_l in Hloop. rewrite <- Hloop.
    rewrite decide_True by reflexivity. apply last_snoc.
  - rewrite decide_False
      by (intros Hnil; rewrite Hnil in Hloop; symmetry in Hloop;
          by apply Permutation_nil_cons in Hloop).
    exists (part :: remaining). split; [exact Hloop | apply last_snoc].
Qed.

(** X29. The part numbers that the command goes on with (line 109): each is a
    part number given, without the white space around it; none is empty, and
    each begins and ends with a character that is not white space. *)
Theorem stripped_parts_have_no_surrounding_space :
  ∀ (parts : list string) (part : string),
    part ∈ Cli.stripped_parts parts →
    (∃ given pre post,
        given ∈ parts ∧ given = (pre +:+ (part +:+ post))
        ∧ Cli.blank pre = true ∧ Cli.blank post = true)
    ∧ (∃ c t, part = String c t ∧ Cli.isspace c = false)
    ∧ (∃ t c, part = t +:+ String c "" ∧ Cli.isspace c = false).
Proof.
  intros parts part Hin. unfold Cli.stripped_parts in Hin.
  apply list_elem_of_filter in Hin. destruct Hin as [Hne Hin].
  apply list_elem_of_fmap in Hin. destruct Hin as (given & -> & Hgiven).
  destruct (strip_spec given) as [(pre & post & Hsplit & Hpre & Hpost) Hends].
  destruct (Hends Hne) as [Hfirst Hlast].
  split; [| by split]. by exists given, pre, post.
Qed.

Lemma stripped_parts_have_no_surrounding_space_witness :
  (∃ given pre post,
      given ∈ ["  LM358 "; "   "; "NE555"] ∧ given = (pre +:+ ("LM358" +:+ post))
      ∧ Cli.blank pre = true ∧ Cli.blank post = true)
  ∧ (∃ c t, "LM358" = String c t ∧ Cli.isspace c = false)
  ∧ (∃ t c, "LM358" = t +:+ String c "" ∧ Cli.isspace c = false).
Proof.
  refine (stripped_parts_have_no_surrounding_space ["  LM358 "; "   "; "NE555"] "LM358" _).
  vm_compute. apply elem_of_cons. by left.
Defined.
